(** * lib_hdfs/into_record.py: swaths to patches to tfrecord shards

    A shallow embedding of the batch pipeline of [into_record.py]
    ([gen_swaths], [gen_patches], [write_feature], [write_patches] and the
    [__main__] block) and proofs of its properties.

    Conventions of the embedding:
    - Python integers are [Z]; [%] and [//] are [Z.modulo] and [Z.div], which
      round towards minus infinity like Python's.
    - A raised exception is the left injection of [result]; a generator is
      the finite trace it produces (printed lines and yielded values, in
      order) together with the exception that ended it, if any.
    - A swath is a three-dimensional array of integer samples (the source
      normalises "from int16 to float32"); [np.float32] values are
      [spec_float] with 24 bits of precision and exponent bound 128.
    - What external libraries compute (gdal, pyhdf, cv2, the numpy
      reductions [mean] and [std], the numpy random generator, [glob] and
      [os.path.abspath]) is taken as a parameter. *)

From Stdlib Require Import ZArith Floats.SpecFloat.
From stdpp Require Import gmap strings list fin_maps pretty sorting.

(** ** Python runtime *)

Inductive exn :=
  | ValueError (msg : string)
  | ZeroDivisionError
  | UnboundLocalError (var : string)
  | IOError (msg : string)
  | LibraryError (msg : string).

Definition result (A : Type) : Type := exn + A.

Definition ret {A} (a : A) : result A := inr a.
Definition raise {A} (e : exn) : result A := inl e.

Definition bind {A B} (m : result A) (k : A → result B) : result B :=
  match m with
  | inl e => inl e
  | inr a => k a
  end.

Notation "'let*' x ':=' m 'in' k" := (bind m (λ x, k))
  (at level 10, x name, m at level 100, k at level 200, only parsing).

(** [len(range(start, stop, step))] as CPython computes it. *)
Definition range_len (start stop step : Z) : Z :=
  if (0 <? step)%Z then
    if (start <? stop)%Z then ((stop - start - 1) / step + 1)%Z else 0%Z
  else
    if (stop <? start)%Z then ((start - stop - 1) / (- step) + 1)%Z else 0%Z.

(** [range(start, stop, step)]; a zero step raises. *)
Definition py_range (start stop step : Z) : result (list Z) :=
  if (step =? 0)%Z then raise (ValueError "range() arg 3 must not be zero")
  else ret (map (λ k : nat, (start + Z.of_nat k * step)%Z)
                (seq 0 (Z.to_nat (range_len start stop step)))).

(** The builtin [max] of a sequence; the empty sequence raises. *)
Definition py_max (l : list nat) : result nat :=
  match l with
  | [] => raise (ValueError "max() arg is an empty sequence")
  | x :: r => ret (fold_left Nat.max r x)
  end.

(** The builtin [any] over a generator expression: the tests are evaluated in
    order and evaluation stops at the first true one. *)
Fixpoint py_any (tests : list (result bool)) : result bool :=
  match tests with
  | [] => ret false
  | t :: rest =>
      match t with
      | inl e => inl e
      | inr true => ret true
      | inr false => py_any rest
      end
  end.

(** One bound of a slice [a[start:stop]] on an axis of length [len]. *)
Definition slice_bound (len i : Z) : Z :=
  if (i <? 0)%Z then Z.max (i + len) 0 else Z.min i len.

(** First index and number of elements of [a[start:stop]]. *)
Definition slice_indices (len : nat) (start stop : Z) : nat * nat :=
  let lo := slice_bound (Z.of_nat len) start in
  let hi := slice_bound (Z.of_nat len) stop in
  (Z.to_nat lo, Z.to_nat (hi - lo)).

(** Does the string end with a slash? *)
Fixpoint endswith_slash (s : string) : bool :=
  match s with
  | EmptyString => false
  | String _ EmptyString => bool_decide (s = "/")
  | String _ rest => endswith_slash rest
  end.

(** [posixpath.join] of a directory and a relative name. *)
Definition os_path_join (dir name : string) : string :=
  if bool_decide (dir = "") || endswith_slash dir then dir +:+ name
  else dir +:+ "/" +:+ name.

(** ** numpy arrays

    A three-dimensional array is its shape and its indexing function; the
    function is only read inside the shape. *)
Record ndarray3 (T : Type) : Type := Ndarray3 {
  dim0 : nat;
  dim1 : nat;
  dim2 : nat;
  item : nat → nat → nat → T
}.
Arguments Ndarray3 {T} _ _ _ _.
Arguments dim0 {T} _.
Arguments dim1 {T} _.
Arguments dim2 {T} _.
Arguments item {T} _ _ _ _.

(** [np.rollaxis(a, 0, 3)]: the leading axis becomes the last one. *)
Definition np_rollaxis_0_3 {T} (a : ndarray3 T) : ndarray3 T :=
  Ndarray3 (dim1 a) (dim2 a) (dim0 a) (λ i j c, item a c i j).

(** [a[x0:x1, y0:y1]] *)
Definition slice2 {T} (a : ndarray3 T) (x0 x1 y0 y1 : Z) : ndarray3 T :=
  let '(lo_x, n_x) := slice_indices (dim0 a) x0 x1 in
  let '(lo_y, n_y) := slice_indices (dim1 a) y0 y1 in
  Ndarray3 n_x n_y (dim2 a) (λ i j c, item a (lo_x + i) (lo_y + j) c).

(** The elements of [a[:, :, c]] in row-major order. *)
Definition channel {T} (a : ndarray3 T) (c : nat) : list T :=
  flat_map (λ i, map (λ j, item a i j c) (seq 0 (dim1 a))) (seq 0 (dim0 a)).

(** [a.ravel()]: all elements in row-major order. *)
Definition ravel {T} (a : ndarray3 T) : list T :=
  flat_map (λ i, flat_map (λ j, map (λ c, item a i j c) (seq 0 (dim2 a)))
                          (seq 0 (dim1 a)))
           (seq 0 (dim0 a)).

(** One step of [np.unique(..., return_counts=True)]: the sorted list of
    distinct values seen so far, each with its count. *)
Fixpoint bump (v : Z) (acc : list (Z * nat)) : list (Z * nat) :=
  match acc with
  | [] => [(v, 1)]
  | (u, n) :: rest =>
      if (v <? u)%Z then (v, 1) :: acc
      else if (v =? u)%Z then (u, S n) :: rest
      else (u, n) :: bump v rest
  end.

(** [np.unique(l, return_counts=True)] *)
Definition np_unique (l : list Z) : list (Z * nat) :=
  fold_left (λ acc v, bump v acc) l [].

(** ** np.float32 *)

Definition float32 : Type := spec_float.
Definition prec32 : Z := 24.
Definition emax32 : Z := 128.

(** [x.astype(np.float32)] for an integer sample. *)
Definition astype_float32 (v : Z) : float32 :=
  binary_normalize prec32 emax32 v 0 false.

Definition f32_sub : float32 → float32 → float32 := SFsub prec32 emax32.
Definition f32_div : float32 → float32 → float32 := SFdiv prec32 emax32.
Definition f32_mul : float32 → float32 → float32 := SFmul prec32 emax32.
Definition f32_add : float32 → float32 → float32 := SFadd prec32 emax32.

Definition np_isnan (x : float32) : bool :=
  match x with
  | S754_nan => true
  | _ => false
  end.

Definition is_finite (x : float32) : bool :=
  match x with
  | S754_zero _ | S754_finite _ _ _ => true
  | _ => false
  end.

Definition is_zero (x : float32) : bool :=
  match x with
  | S754_zero _ => true
  | _ => false
  end.

(** ** Output: printed lines, generators, tfrecord files *)

(** The lines the program prints, by the [print] call that emits them. *)
Inductive event :=
  | Reading (rank : Z) (t : string)
  | ErrorOpening (file : string)
  | CouldNotRead (rank : Z) (t : string) (e : exn)
  | WritingTo (rec : string)
  | Wrote (rank : Z) (n : Z)
  | RankDone (rank : Z).

(** A run of a generator to its end: what it printed and yielded, in order,
    and the exception that ended it, if one did. *)
Record run (A : Type) : Type := Run {
  steps : list (event + A);
  raised : option exn
}.
Arguments Run {A} _ _.
Arguments steps {A} _.
Arguments raised {A} _.

Definition yields {A} (r : run A) : list A :=
  omap (λ s, match s with inr a => Some a | inl _ => None end) (steps r).

Definition printed {A} (r : run A) : list event :=
  omap (λ s, match s with inl ev => Some ev | inr _ => None end) (steps r).

(** The run that does [pre] first and then continues as [r]. *)
Definition after {A} (pre : list (event + A)) (r : run A) : run A :=
  Run (pre ++ steps r) (raised r).

Definition swath : Type := ndarray3 Z.

(** What [gen_patches] yields: [(fname, (x, y), patch)]. *)
Record patch_item : Type := PatchItem {
  p_fname : string;
  p_coord : Z * Z;
  p_patch : ndarray3 float32
}.

(** The [tf.train.Example] built by [write_feature]. *)
Record example : Type := Example {
  ex_filename : string;
  ex_coordinate : list Z;
  ex_shape : list Z;
  ex_patch : list float32
}.

(** ** The libraries the program calls *)

Class Externals : Type := {
  (** [gdal.Open(file).ReadAsArray()], bands first *)
  gdal_ReadAsArray : string → result (ndarray3 Z);
  (** [SD(hdf_file, SDC.READ)], then [hdf.select(f)[:, :, :]] per field *)
  SD_open : string → result (string → result (ndarray3 Z));
  (** [cv2.resize(swath, dsize=None, fx=r, fy=r, interpolation=INTER_AREA)] *)
  cv2_resize : swath → spec_float → result swath;
  (** [swath.mean(axis=(0, 1)).astype(np.float32)], per channel *)
  np_mean : swath → nat → float32;
  (** [swath.std(axis=(0, 1)).astype(np.float32)], per channel *)
  np_std : swath → nat → float32;
  (** the state of numpy's global random generator *)
  rng : Type;
  (** [np.random.shuffle(coords)]: a permutation drawn from the generator *)
  np_random_shuffle : rng → list (Z * Z) → list (Z * Z) * rng;
  np_random_shuffle_perm : ∀ g l, (np_random_shuffle g l).1 ≡ₚ l;
  (** [glob.glob(pattern)] *)
  glob_glob : string → list string;
  (** [os.path.abspath(f)] *)
  os_path_abspath : string → string
}.

(** ** gen_swaths and read_hdf *)

Section Pipeline.
Context `{Ext : Externals}.

(** The helper [gdOpen]: an [IOError] is printed and then [return output]
    fails on the unassigned local. *)
Definition gdOpen (file : string) : list event * result (ndarray3 Z) :=
  match gdal_ReadAsArray file with
  | inr output => ([], ret output)
  | inl (IOError _) => ([ErrorOpening file], raise (UnboundLocalError "output"))
  | inl e => ([], raise e)
  end.

Definition names_1km : list (string * list nat) :=
  [ ("EV_250_Aggr1km_RefSB", [0; 1]);
    ("EV_500_Aggr1km_RefSB", [0; 1]);
    ("EV_1KM_RefSB", List.filter (λ x, negb (bool_decide (x = 12 ∨ x = 14))) (seq 0 15));
    ("EV_1KM_Emissive", [0; 1; 2; 3; 10; 11]) ].

(** [a[idxs]]: the listed bands of the leading axis. *)
Definition take_bands (a : ndarray3 Z) (idxs : list nat) : result (ndarray3 Z) :=
  if forallb (λ k, k <? dim0 a) idxs then
    ret (Ndarray3 (length idxs) (dim1 a) (dim2 a) (λ k i j, item a (nth k idxs 0) i j))
  else raise (LibraryError "IndexError").

(** [np.concatenate([a] + rest, axis=0)] *)
Fixpoint np_concatenate_0 (arrays : list (ndarray3 Z)) : result (ndarray3 Z) :=
  match arrays with
  | [] => raise (ValueError "need at least one array to concatenate")
  | [a] => ret a
  | a :: rest =>
      let* b := np_concatenate_0 rest in
      if bool_decide (dim1 a = dim1 b ∧ dim2 a = dim2 b) then
        ret (Ndarray3 (dim0 a + dim0 b) (dim1 a) (dim2 a)
               (λ k i j, if k <? dim0 a then item a k i j else item b (k - dim0 a) i j))
      else raise (ValueError "all the input array dimensions must match")
  end.

Fixpoint select_fields (hdf : string → result (ndarray3 Z))
    (fields : list (string * list nat)) : result (list (ndarray3 Z)) :=
  match fields with
  | [] => ret []
  | (f, idxs) :: rest =>
      let* a := hdf f in
      let* bands := take_bands a idxs in
      let* others := select_fields hdf rest in
      ret (bands :: others)
  end.

(** [read_hdf] with its default ranges [(None, None)]. *)
Definition read_hdf (hdf_file : string) (fields : list (string * list nat))
    : result (ndarray3 Z) :=
  let* hdf := SD_open hdf_file in
  let* swath := select_fields hdf fields in
  np_concatenate_0 swath.

(** The [read] function [gen_swaths] selects from [mode]. *)
Definition reader (mode : string)
    : result (string → list event * result (ndarray3 Z)) :=
  if bool_decide (mode = "mod09_tif") then ret gdOpen
  else if bool_decide (mode = "mod02_1km") then
    ret (λ hdf_file, ([], read_hdf hdf_file names_1km))
  else raise (ValueError "Invalid reader mode").

(** [if resize is not None: swath = cv2.resize(swath, ...)] *)
Definition apply_resize (resize : option spec_float) (sw : swath) : result swath :=
  match resize with
  | None => ret sw
  | Some fx => cv2_resize sw fx
  end.

(** The loop [for t in fnames] of [gen_swaths]; the [try] covers the read and
    [np.rollaxis], not the resize. *)
Fixpoint swaths_loop (rank : Z) (read : string → list event * result (ndarray3 Z))
    (resize : option spec_float) (fnames : list string) : run (string * swath) :=
  match fnames with
  | [] => Run [] None
  | t :: rest =>
      let '(evs, r) := read t in
      let pre := inl (Reading rank t) :: map inl evs in
      match r with
      | inl e => after (pre ++ [inl (CouldNotRead rank t e)])
                       (swaths_loop rank read resize rest)
      | inr raw =>
          match apply_resize resize (np_rollaxis_0_3 raw) with
          | inl e => Run pre (Some e)
          | inr sw => after (pre ++ [inr (t, sw)]) (swaths_loop rank read resize rest)
          end
      end
  end.

Definition gen_swaths (rank : Z) (fnames : list string) (mode : string)
    (resize : option spec_float) : run (string * swath) :=
  match reader mode with
  | inl e => Run [] (Some e)
  | inr read => swaths_loop rank read resize fnames
  end.

(** ** gen_patches *)

(** [max_uniq(c)]: the largest count [np.unique] reports for channel [c]. *)
Definition max_uniq (patch : ndarray3 Z) (c : nat) : result nat :=
  py_max (map snd (np_unique (channel patch c))).

(** [max_uniq(c) < threshold] with [threshold = shape_x * shape_y * 0.5]. The
    comparison of the integer count with the float threshold is exact, and so
    is the halving as long as the product is below 2^53. *)
Definition below_threshold (shape_x shape_y : Z) (count : nat) : bool :=
  (2 * Z.of_nat count <? shape_x * shape_y)%Z.

(** [has_clouds = any(max_uniq(c) < threshold for c in range(patch.shape[-1]))] *)
Definition has_clouds (patch : ndarray3 Z) (shape_x shape_y : Z) : result bool :=
  py_any (map (λ c, let* m := max_uniq patch c in
                    ret (below_threshold shape_x shape_y m))
              (seq 0 (dim2 patch))).

(** [(patch.astype(np.float32) - mean) / std], broadcast over the channels. *)
Definition normalize (patch : ndarray3 Z) (mean std : nat → float32)
    : ndarray3 float32 :=
  Ndarray3 (dim0 patch) (dim1 patch) (dim2 patch)
    (λ i j c, f32_div (f32_sub (astype_float32 (item patch i j c)) (mean c)) (std c)).

(** [np.isnan(patch).any()] *)
Definition isnan_any (patch : ndarray3 float32) : bool :=
  existsb np_isnan (ravel patch).

(** The rows of the candidate grid for one [x]: the body of the loop over [y]. *)
Definition coords_row (max_x max_y shape_x shape_y x : Z) (ys : list Z)
    : list (Z * Z) :=
  map (pair x)
      (List.filter (λ y, (x + shape_x <? max_x)%Z && (y + shape_y <? max_y)%Z) ys).

(** The loop over [x]; [range(0, max_y, stride_y)] is built at each turn. *)
Fixpoint coords_loop (max_x max_y shape_x shape_y stride_y : Z) (xs : list Z)
    : result (list (Z * Z)) :=
  match xs with
  | [] => ret []
  | x :: rest =>
      let* ys := py_range 0 max_y stride_y in
      let* others := coords_loop max_x max_y shape_x shape_y stride_y rest in
      ret (coords_row max_x max_y shape_x shape_y x ys ++ others)
  end.

(** The list [coords] before it is shuffled. *)
Definition candidate_coords (sw : swath) (shape strides : Z * Z)
    : result (list (Z * Z)) :=
  let '(stride_x, stride_y) := strides in
  let '(shape_x, shape_y) := shape in
  let max_x := Z.of_nat (dim0 sw) in
  let max_y := Z.of_nat (dim1 sw) in
  let* xs := py_range 0 max_x stride_x in
  coords_loop max_x max_y shape_x shape_y stride_y xs.

(** The body of the loop [for x, y in coords]: what it yields, if anything. *)
Definition extract_patch (fname : string) (sw : swath) (mean std : nat → float32)
    (shape : Z * Z) (xy : Z * Z) : result (option patch_item) :=
  let '(shape_x, shape_y) := shape in
  let '(x, y) := xy in
  let patch := slice2 sw x (x + shape_x) y (y + shape_y) in
  let* clouds := has_clouds patch shape_x shape_y in
  if clouds then
    let patch' := normalize patch mean std in
    if negb (isnan_any patch') then ret (Some (PatchItem fname (x, y) patch'))
    else ret None
  else ret None.

Fixpoint patches_loop (fname : string) (sw : swath) (mean std : nat → float32)
    (shape : Z * Z) (coords : list (Z * Z)) : run patch_item :=
  match coords with
  | [] => Run [] None
  | xy :: rest =>
      match extract_patch fname sw mean std shape xy with
      | inl e => Run [] (Some e)
      | inr None => patches_loop fname sw mean std shape rest
      | inr (Some p) => after [inr p] (patches_loop fname sw mean std shape rest)
      end
  end.

(** The body of the loop [for fname, swath in swaths], for one swath. *)
Definition swath_patches (shape strides : Z * Z) (fname : string) (sw : swath)
    (g : rng) : run patch_item * rng :=
  let mean := np_mean sw in
  let std := np_std sw in
  match candidate_coords sw shape strides with
  | inl e => (Run [] (Some e), g)
  | inr coords =>
      let '(coords', g') := np_random_shuffle g coords in
      (patches_loop fname sw mean std shape coords', g')
  end.

(** [gen_patches] pulls from [swaths] as it goes: what [swaths] prints comes
    out in place, and nothing after the point where [gen_patches] raises. *)
Fixpoint patches_of_steps (shape strides : Z * Z)
    (upstream : list (event + (string * swath))) (g : rng)
    : run patch_item * rng :=
  match upstream with
  | [] => (Run [] None, g)
  | inl ev :: rest =>
      let '(r, g') := patches_of_steps shape strides rest g in
      (after [inl ev] r, g')
  | inr (fname, sw) :: rest =>
      let '(r1, g1) := swath_patches shape strides fname sw g in
      match raised r1 with
      | Some e => (r1, g1)
      | None =>
          let '(r2, g2) := patches_of_steps shape strides rest g1 in
          (after (steps r1) r2, g2)
      end
  end.

Definition gen_patches (swaths : run (string * swath)) (shape strides : Z * Z)
    (g : rng) : run patch_item * rng :=
  let '(r, g') := patches_of_steps shape strides (steps swaths) g in
  (Run (steps r) (match raised r with Some e => Some e | None => raised swaths end), g').

(** ** write_feature and write_patches *)

(** The state [write_patches] works on: the tfrecord files by path, the
    variable [f] (the path of the writer it holds, unbound at first) and the
    lines printed so far. *)
Record wstate : Type := WState {
  files : gmap string (list example);
  f : option string;
  stdout : list event
}.

Definition make_example (p : patch_item) : example :=
  let patch := p_patch p in
  Example (p_fname p) [(p_coord p).1; (p_coord p).2]
    [Z.of_nat (dim0 patch); Z.of_nat (dim1 patch); Z.of_nat (dim2 patch)]
    (ravel patch).

(** [write_feature(writer, filename, coord, patch)]: one more serialized
    example at the end of the writer's file. *)
Definition write_feature (writer : string) (p : patch_item)
    (fs : gmap string (list example)) : gmap string (list example) :=
  alter (λ records, records ++ [make_example p]) writer fs.

(** The name of the [k]-th record of a rank. *)
Definition record_name (rank k : Z) : string :=
  pretty rank +:+ "-" +:+ pretty k +:+ ".tfrecord".

(** The body of the loop of [write_patches] at count [i]. *)
Definition write_step (rank : Z) (out_dir : string) (patches_per_record : Z)
    (i : Z) (patch : patch_item) (s : wstate) : result wstate :=
  if (patches_per_record =? 0)%Z then raise ZeroDivisionError
  else
    let s1 :=
      if (i mod patches_per_record =? 0)%Z then
        let rec := record_name rank (i / patches_per_record) in
        let path := os_path_join out_dir rec in
        WState (<[path := []]> (files s)) (Some path) (stdout s ++ [WritingTo rec])
      else s in
    match f s1 with
    | None => raise (UnboundLocalError "f")
    | Some writer =>
        ret (WState (write_feature writer patch (files s1)) (f s1)
                    (stdout s1 ++ [Wrote rank (i + 1)]))
    end.

(** [for i, patch in enumerate(patches)], with what [patches] prints on the
    way put on the same output. *)
Fixpoint write_loop (rank : Z) (out_dir : string) (patches_per_record : Z)
    (i : Z) (upstream : list (event + patch_item)) (s : wstate)
    : wstate * option exn :=
  match upstream with
  | [] => (s, None)
  | inl ev :: rest =>
      write_loop rank out_dir patches_per_record i rest
        (WState (files s) (f s) (stdout s ++ [ev]))
  | inr patch :: rest =>
      match write_step rank out_dir patches_per_record i patch s with
      | inl e => (s, Some e)
      | inr s' => write_loop rank out_dir patches_per_record (i + 1) rest s'
      end
  end.

(** [write_patches], started on the files [fs] and the output [out]. *)
Definition write_patches (rank : Z) (patches : run patch_item) (out_dir : string)
    (patches_per_record : Z) (fs : gmap string (list example)) (out : list event)
    : wstate * option exn :=
  let '(s, e) := write_loop rank out_dir patches_per_record 0 (steps patches)
                            (WState fs None out) in
  (s, match e with Some _ => e | None => raised patches end).

(** ** The main block *)

Record flags : Type := Flags {
  source_glob : string;
  out_dir : string;
  mode : string;
  shape : Z * Z;
  resize : option spec_float;
  stride : Z * Z;
  patches_per_record : Z;
  interactive_categories : option (list string)
}.

(** [sorted] on strings, which Python orders by code point. *)
Fixpoint insert_sorted (s : string) (l : list string) : list string :=
  match l with
  | [] => [s]
  | h :: t => if String.leb s h then s :: l else h :: insert_sorted s t
  end.

Definition sorted (l : list string) : list string := foldr insert_sorted [] l.

(** The loop that fills [fnames], from count [i] on. *)
Fixpoint fnames_loop (size rank : Z) (i : Z) (names : list string)
    : result (list string) :=
  match names with
  | [] => ret []
  | name :: rest =>
      if (size =? 0)%Z then raise ZeroDivisionError
      else
        let* others := fnames_loop size rank (i + 1) rest in
        ret (if (i mod size =? rank)%Z then os_path_abspath name :: others
             else others)
  end.

(** The files of the worker [rank] out of [size], from the sorted list. *)
Definition worker_fnames (size rank : Z) (names : list string)
    : result (list string) :=
  fnames_loop size rank 0 names.

(** What a run of the program leaves: the files, the printed lines, the
    exception that ended it if one did, and the random generator. *)
Record outcome : Type := Outcome {
  o_files : gmap string (list example);
  o_stdout : list event;
  o_raised : option exn;
  o_rng : rng
}.

(** The main block after [get_args], in batch mode; with
    [--interactive_categories] the patches go to [interactive_writer], which
    is passed in. *)
Definition main
    (interactive_writer :
       run patch_item → list string → string →
       gmap string (list example) → list event → wstate * option exn)
    (size rank : Z) (FLAGS : flags) (fs : gmap string (list example)) (g : rng)
    : outcome :=
  match worker_fnames size rank (sorted (glob_glob (source_glob FLAGS))) with
  | inl e => Outcome fs [] (Some e) g
  | inr fnames =>
      match fnames with
      | [] => Outcome fs [] (Some (ValueError "source_glob does not match any files")) g
      | _ =>
          let swaths := gen_swaths rank fnames (mode FLAGS) (resize FLAGS) in
          let '(patches, g') := gen_patches swaths (shape FLAGS) (stride FLAGS) g in
          let '(s, e) :=
            match interactive_categories FLAGS with
            | None =>
                write_patches rank patches (out_dir FLAGS) (patches_per_record FLAGS) fs []
            | Some categories =>
                interactive_writer patches categories (out_dir FLAGS) fs []
            end in
          match e with
          | Some _ => Outcome (files s) (stdout s) e g'
          | None => Outcome (files s) (stdout s ++ [RankDone rank]) None g'
          end
      end
  end.

End Pipeline.

(** * Notions used to state the properties *)

(** The count a unique-table holds for [u]. *)
Fixpoint tally (acc : list (Z * nat)) (u : Z) : nat :=
  match acc with
  | [] => 0
  | (w, n) :: rest => (if (w =? u)%Z then n else 0) + tally rest u
  end.

(** [m] is the count of the most frequent value of [l]. *)
Definition most_frequent_count (l : list Z) (m : nat) : Prop :=
  (∀ v, count_occ Z.eq_dec l v ≤ m) ∧ ∃ v, v ∈ l ∧ count_occ Z.eq_dec l v = m.

(** The path of the [j]-th record of a rank. *)
Definition shard_path (rank : Z) (out_dir : string) (j : nat) : string :=
  os_path_join out_dir (record_name rank (Z.of_nat j)).

(** The examples of the [j]-th group of [K] patches. *)
Definition shard (ps : list patch_item) (K : Z) (j : nat) : list example :=
  map make_example (take (Z.to_nat K) (drop (j * Z.to_nat K) ps)).

(** The number of groups of [K] that [N] patches fill or start. *)
Definition ceil_div (N : nat) (K : Z) : nat := (N + Z.to_nat K - 1) / Z.to_nat K.

(** The lines the sharder is to print for the patch of count [i]. *)
Definition shard_lines (rank K : Z) (i : nat) : list event :=
  (if (Z.of_nat i mod K =? 0)%Z
   then [WritingTo (record_name rank (Z.of_nat i / K))] else [])
  ++ [Wrote rank (Z.of_nat i + 1)].

(** The output of the sharder on a stream, from count [i] on: the stream's own
    lines in place, and [shard_lines] at each patch. *)
Fixpoint sharder_output (rank K : Z) (i : nat) (upstream : list (event + patch_item))
    : list event :=
  match upstream with
  | [] => []
  | inl ev :: rest => ev :: sharder_output rank K i rest
  | inr _ :: rest => shard_lines rank K i ++ sharder_output rank K (S i) rest
  end.

Definition opened_record (ev : event) : option string :=
  match ev with
  | WritingTo rec => Some rec
  | _ => None
  end.

(** The invariant of the loop of [write_patches] after the patches [ps]. *)
Definition sharder_inv (rank : Z) (out_dir : string) (K : Z)
    (fs0 : gmap string (list example)) (ps : list patch_item) (s : wstate) : Prop :=
  f s = (if decide (length ps = 0) then None
         else Some (shard_path rank out_dir ((length ps - 1) / Z.to_nat K))) ∧
  (∀ j, j * Z.to_nat K < length ps →
        files s !! shard_path rank out_dir j = Some (shard ps K j)) ∧
  (∀ p, (∀ j, j * Z.to_nat K < length ps → p ≠ shard_path rank out_dir j) →
        files s !! p = fs0 !! p).

(** The ranks of a pool of [size] workers. *)
Definition ranks (size : Z) : list Z := map Z.of_nat (seq 0 (Z.to_nat size)).

(** The files of a rank, when the assignment raises nothing. *)
Definition assigned `{Ext : Externals} (size rank : Z) (names : list string)
    : list string :=
  match worker_fnames size rank names with
  | inr fnames => fnames
  | inl _ => []
  end.

(** What the loop of [gen_swaths] prints for the file [t]. *)
Definition read_lines (rank : Z) (read : string → list event * result (ndarray3 Z))
    (t : string) : list event :=
  Reading rank t :: (read t).1 ++
  match (read t).2 with
  | inl e => [CouldNotRead rank t e]
  | inr _ => []
  end.

(** What the loop of [gen_swaths] yields for the file [t]. *)
Definition read_swath `{Ext : Externals}
    (read : string → list event * result (ndarray3 Z))
    (resize : option spec_float) (t : string) : option (string * swath) :=
  match (read t).2 with
  | inl _ => None
  | inr raw =>
      match apply_resize resize (np_rollaxis_0_3 raw) with
      | inl _ => None
      | inr sw => Some (t, sw)
      end
  end.

(** The point [(x, y)] is on the stride grid. *)
Definition on_grid (stride_x stride_y x y : Z) : Prop :=
  ∃ a b : Z, (0 ≤ a ∧ 0 ≤ b ∧ x = a * stride_x ∧ y = b * stride_y)%Z.

(** The nine candidate coordinates of a 256 by 256 swath for patches of 64 by
    64 every 64 pixels. *)
Definition grid9 : list (Z * Z) :=
  [(0, 0); (0, 64); (0, 128); (64, 0); (64, 64); (64, 128);
   (128, 0); (128, 64); (128, 128)]%Z.

(** [x * std + mean] in float32, for the normalised value [x] of [v]. *)
Definition recombine (v : Z) (mean std : float32) : float32 :=
  f32_add (f32_mul (f32_div (f32_sub (astype_float32 v) mean) std) std) mean.

(** * Test doubles

    A small world to run the program in: three raster files, a reader that
    fails on the others, statistics taken on a grid of at most 4 by 4
    samples and rounded to integers, and a shuffle that reverses. *)

Definition int_sum (l : list Z) : Z := fold_left Z.add l 0%Z.

Definition int_mean (l : list Z) : Z := (int_sum l / Z.of_nat (length l))%Z.

Definition int_std (l : list Z) : Z :=
  let m := int_mean l in
  Z.sqrt (int_sum (map (λ v, (v - m) * (v - m))%Z l) / Z.of_nat (length l)).

Definition grid_indices (n : nat) : list nat :=
  map (λ k, k * Nat.max 1 (n / 4)) (seq 0 (Nat.min n 4)).

Definition grid_samples (sw : swath) (c : nat) : list Z :=
  flat_map (λ i, map (λ j, item sw i j c) (grid_indices (dim1 sw)))
           (grid_indices (dim0 sw)).

(** Two bands of 256 by 256 samples, all different. *)
Definition distinct_raster : ndarray3 Z :=
  Ndarray3 2 256 256 (λ c i j, (Z.of_nat i * 256 + Z.of_nat j) * 2 + Z.of_nat c)%Z.

(** Two bands of 3 by 3 samples: the first is 7 but for one corner, the
    second has nine different values. *)
Definition half_flat_raster : ndarray3 Z :=
  Ndarray3 2 3 3
    (λ c i j, if bool_decide (c = 0)
              then (if bool_decide (i = 2 ∧ j = 2) then 700%Z else 7%Z)
              else Z.of_nat (i * 3 + j)).

(** Two bands of 3 by 3 samples: the first is 7 everywhere. *)
Definition flat_raster : ndarray3 Z :=
  Ndarray3 2 3 3 (λ c i j, if bool_decide (c = 0) then 7%Z else Z.of_nat (i * 3 + j)).

Definition demo_gdal (file : string) : result (ndarray3 Z) :=
  if bool_decide (file = "/data/a.tif") then ret distinct_raster
  else if bool_decide (file = "/data/half_flat.tif") then ret half_flat_raster
  else if bool_decide (file = "/data/flat.tif") then ret flat_raster
  else if bool_decide (file = "/data/bad.tif") then raise (IOError "not a supported file format")
  else raise (LibraryError "AttributeError").

Definition demo_glob (pattern : string) : list string :=
  if bool_decide (pattern = "*.tif") then ["a.tif"]
  else if bool_decide (pattern = "*") then ["half_flat.tif"; "bad.tif"; "a.tif"]
  else [].

#[export] Instance demo : Externals := {|
  gdal_ReadAsArray := demo_gdal;
  SD_open := λ _, raise (LibraryError "HDF4Error");
  cv2_resize := λ sw _, ret sw;
  np_mean := λ sw c, astype_float32 (int_mean (grid_samples sw c));
  np_std := λ sw c, astype_float32 (int_std (grid_samples sw c));
  rng := nat;
  np_random_shuffle := λ g l, (rev l, S g);
  np_random_shuffle_perm := λ g l, Permutation_sym (Permutation_rev l);
  glob_glob := demo_glob;
  os_path_abspath := λ name, "/data/" +:+ name
|}.

(** No interactive session. *)
Definition no_interactive (patches : run patch_item) (categories : list string)
    (out_dir : string) (fs : gmap string (list example)) (out : list event)
    : wstate * option exn :=
  (WState fs None out, None).

Definition demo_flags : flags :=
  Flags "*.tif" "/out" "mod09_tif" (64, 64)%Z None (64, 64)%Z 4 None.

(** * Notions and test doubles for the further properties *)

(** The (field, band) pairs of [fields], in the order [read_hdf] stacks them
    along the leading axis. *)
Definition flat_bands (fields : list (string * list nat)) : list (string * nat) :=
  flat_map (λ fi, map (pair fi.1) fi.2) fields.

(** The number of offsets [0, s, 2 s, ...] at which a patch of extent [p]
    ends strictly inside an axis of length [n]. *)
Definition grid_count (n p s : Z) : nat :=
  Z.to_nat (if (p <? n)%Z then (n - p - 1) / s + 1 else 0)%Z.

(** A second small world: an HDF granule with the four fields of
    [names_1km], one that lacks bands, a raster without rows, and a resize
    that fails on an empty swath. *)
Definition hdf_dataset (bands : nat) (tag : Z) : ndarray3 Z :=
  Ndarray3 bands 4 5
    (λ k i j, tag * 1000 + Z.of_nat k * 100 + Z.of_nat i * 10 + Z.of_nat j)%Z.

Definition demo_granule (short_emissive : bool) (f : string) : result (ndarray3 Z) :=
  if bool_decide (f = "EV_250_Aggr1km_RefSB") then ret (hdf_dataset 2 1)
  else if bool_decide (f = "EV_500_Aggr1km_RefSB") then ret (hdf_dataset 5 2)
  else if bool_decide (f = "EV_1KM_RefSB") then ret (hdf_dataset 15 3)
  else if bool_decide (f = "EV_1KM_Emissive")
       then ret (hdf_dataset (if short_emissive then 8 else 16) 4)
  else raise (LibraryError "HDF4Error").

Definition demo_SD_open (hdf_file : string) : result (string → result (ndarray3 Z)) :=
  if bool_decide (hdf_file = "/data/granule.hdf") then ret (demo_granule false)
  else if bool_decide (hdf_file = "/data/short.hdf") then ret (demo_granule true)
  else raise (LibraryError "HDF4Error").

Definition demo_resize (sw : swath) (fx : spec_float) : result swath :=
  if bool_decide (dim0 sw = 0 ∨ dim1 sw = 0) then raise (LibraryError "cv2.error")
  else ret sw.

Definition demo_hdf : Externals := {|
  gdal_ReadAsArray := λ file,
    if bool_decide (file = "/data/empty.tif") then ret (Ndarray3 1 0 0 (λ _ _ _, 0%Z))
    else demo_gdal file;
  SD_open := demo_SD_open;
  cv2_resize := demo_resize;
  np_mean := λ sw c, astype_float32 (int_mean (grid_samples sw c));
  np_std := λ sw c, astype_float32 (int_std (grid_samples sw c));
  rng := nat;
  np_random_shuffle := λ g l, (rev l, S g);
  np_random_shuffle_perm := λ g l, Permutation_sym (Permutation_rev l);
  glob_glob := demo_glob;
  os_path_abspath := λ name, "/data/" +:+ name
|}.

(** Does the string hold the character [-]? *)
Fixpoint has_dash (s : string) : bool :=
  match s with
  | EmptyString => false
  | String c rest => bool_decide (String c "" = "-") || has_dash rest
  end.

(** The writer [write_patches] of [rank] holds, if it holds one, is on a
    record of that rank in [out_dir]. *)
Definition own_writer (rank : Z) (out_dir : string) (w : option string) : Prop :=
  match w with
  | None => True
  | Some path => ∃ k, path = os_path_join out_dir (record_name rank k)
  end.

(** Two bands of 4 by 4 samples, all different within a band. *)
Definition small_raster : ndarray3 Z :=
  Ndarray3 2 4 4 (λ c i j, (Z.of_nat i * 4 + Z.of_nat j) * 2 + Z.of_nat c)%Z.

(** * Lemmas *)

(** ** range and the candidate grid *)

Lemma range_len_pos (stop step : Z) :
  (0 < step)%Z → (0 ≤ stop)%Z →
  ∀ k : Z, (0 ≤ k)%Z → (k < range_len 0 stop step ↔ k * step < stop)%Z.
Proof.
  intros Hstep Hstop k Hk. unfold range_len.
  destruct (Z.ltb_spec 0 step) as [_|]; [|lia].
  destruct (Z.ltb_spec 0 stop) as [Hpos|Hle].
  - replace (stop - 0 - 1)%Z with (stop - 1)%Z by lia.
    pose proof (Z.mul_div_le (stop - 1) step Hstep).
    pose proof (Z.mul_succ_div_gt (stop - 1) step Hstep).
    split; intros; nia.
  - split; intros; nia.
Qed.

Lemma py_range_pos (stop step : Z) :
  (0 < step)%Z → (0 ≤ stop)%Z →
  ∃ l, py_range 0 stop step = inr l ∧ NoDup l ∧
       ∀ x, x ∈ l ↔ ∃ a : Z, (0 ≤ a ∧ x = a * step ∧ x < stop)%Z.
Proof.
  intros Hstep Hstop. unfold py_range.
  destruct (Z.eqb_spec step 0) as [|_]; [lia|].
  eexists; split; [reflexivity|]. split.
  - apply NoDup_fmap_2; [|apply NoDup_seq].
    intros a b Hab. nia.
  - intros x. rewrite list_elem_of_In, in_map_iff. split.
    + intros (k & <- & Hin). apply in_seq in Hin. exists (Z.of_nat k).
      pose proof (range_len_pos stop step Hstep Hstop (Z.of_nat k)). lia.
    + intros (a & Ha & -> & Hlt). exists (Z.to_nat a). split; [lia|].
      apply in_seq. pose proof (range_len_pos stop step Hstep Hstop a). lia.
Qed.

Lemma coords_loop_ok (max_x max_y shape_x shape_y stride_y : Z) ys xs :
  py_range 0 max_y stride_y = inr ys →
  coords_loop max_x max_y shape_x shape_y stride_y xs =
  inr (flat_map (λ x, coords_row max_x max_y shape_x shape_y x ys) xs).
Proof.
  intros Hys. induction xs as [|x xs IH]; simpl; [done|].
  rewrite Hys. simpl. rewrite IH. done.
Qed.

Lemma elem_of_coords_row max_x max_y shape_x shape_y x ys (x' y' : Z) :
  (x', y') ∈ coords_row max_x max_y shape_x shape_y x ys ↔
  x' = x ∧ y' ∈ ys ∧ (x + shape_x < max_x)%Z ∧ (y' + shape_y < max_y)%Z.
Proof.
  unfold coords_row. rewrite !list_elem_of_In, in_map_iff. split.
  - intros (y & [= <- <-] & Hin). apply filter_In in Hin as [Hin Hc].
    apply andb_true_iff in Hc as [H1 H2].
    apply Z.ltb_lt in H1, H2. done.
  - intros (-> & Hin & H1 & H2). exists y'. split; [done|].
    apply filter_In. split; [done|].
    apply andb_true_iff. split; by apply Z.ltb_lt.
Qed.

Lemma NoDup_coords_row max_x max_y shape_x shape_y x ys :
  NoDup ys → NoDup (coords_row max_x max_y shape_x shape_y x ys).
Proof.
  intros Hnd. unfold coords_row. apply NoDup_fmap_2; [by intros ?? [=]|].
  apply NoDup_ListNoDup, List.NoDup_filter, NoDup_ListNoDup, Hnd.
Qed.

Lemma NoDup_flat_map_rows max_x max_y shape_x shape_y ys xs :
  NoDup xs → NoDup ys →
  NoDup (flat_map (λ x, coords_row max_x max_y shape_x shape_y x ys) xs).
Proof.
  intros Hxs Hys. induction Hxs as [|x xs Hnin Hnd IH]; simpl; [constructor|].
  apply NoDup_app. split; [by apply NoDup_coords_row|]. split; [|done].
  intros [x' y'] Hin Hin'. apply elem_of_coords_row in Hin as (-> & _).
  rewrite list_elem_of_In in Hin'. apply in_flat_map in Hin' as (x'' & Hx'' & Hin').
  rewrite <- list_elem_of_In in Hin'. rewrite <- list_elem_of_In in Hx''.
  apply elem_of_coords_row in Hin' as (-> & _). done.
Qed.

Lemma candidate_coords_spec (sw : swath) (shape_x shape_y stride_x stride_y : Z) :
  (0 < stride_x)%Z → (0 < stride_y)%Z → (0 ≤ shape_x)%Z → (0 ≤ shape_y)%Z →
  ∃ coords,
    candidate_coords sw (shape_x, shape_y) (stride_x, stride_y) = inr coords ∧
    NoDup coords ∧
    ∀ x y, (x, y) ∈ coords ↔
      (∃ a b : Z, 0 ≤ a ∧ 0 ≤ b ∧ x = a * stride_x ∧ y = b * stride_y)%Z ∧
      (x + shape_x < Z.of_nat (dim0 sw))%Z ∧ (y + shape_y < Z.of_nat (dim1 sw))%Z.
Proof.
  intros Hsx Hsy Hpx Hpy.
  destruct (py_range_pos (Z.of_nat (dim0 sw)) stride_x Hsx) as (xs & Hxs & Hndx & Hinx); [lia|].
  destruct (py_range_pos (Z.of_nat (dim1 sw)) stride_y Hsy) as (ys & Hys & Hndy & Hiny); [lia|].
  eexists. split; [|split].
  - unfold candidate_coords. rewrite Hxs. simpl. by apply coords_loop_ok.
  - by apply NoDup_flat_map_rows.
  - intros x y. rewrite list_elem_of_In, in_flat_map. split.
    + intros (x' & Hx' & Hin). rewrite <- list_elem_of_In in Hin. rewrite <- list_elem_of_In in Hx'.
      apply elem_of_coords_row in Hin as (-> & Hy & H1 & H2).
      apply Hinx in Hx' as (a & Ha & -> & _). apply Hiny in Hy as (b & Hb & -> & _).
      split; [|done]. exists a, b. done.
    + intros ((a & b & Ha & Hb & -> & ->) & H1 & H2). exists (a * stride_x)%Z.
      split.
      * apply list_elem_of_In, Hinx. exists a. lia.
      * apply list_elem_of_In, elem_of_coords_row. split; [done|]. split; [|done].
        apply Hiny. exists b. lia.
Qed.

(** ** np.unique and the most frequent value *)

Lemma tally_bump v acc u :
  tally (bump v acc) u = tally acc u + (if (v =? u)%Z then 1 else 0).
Proof.
  induction acc as [|[w n] rest IH]; simpl.
  - lia.
  - destruct (Z.ltb_spec v w); simpl.
    + lia.
    + destruct (Z.eqb_spec v w) as [->|Hne]; simpl.
      * destruct (Z.eqb_spec w u); lia.
      * rewrite IH. lia.
Qed.

Lemma tally_np_unique l u : tally (np_unique l) u = count_occ Z.eq_dec l u.
Proof.
  unfold np_unique. induction l as [|v l IH] using rev_ind; [done|].
  rewrite fold_left_app. simpl. rewrite tally_bump, IH, count_occ_app. simpl.
  destruct (Z.eq_dec v u) as [->|Hne].
  - rewrite Z.eqb_refl. done.
  - destruct (Z.eqb_spec v u); [done|lia].
Qed.

Lemma keys_bump v acc k :
  k ∈ map fst (bump v acc) → k = v ∨ k ∈ map fst acc.
Proof.
  induction acc as [|[w n] rest IH]; simpl.
  - intros ?%list_elem_of_singleton. by left.
  - destruct (Z.ltb_spec v w); simpl.
    + intros [->|Hin]%elem_of_cons; [by left|by right].
    + destruct (Z.eqb_spec v w) as [->|Hne]; simpl; [by right|].
      intros [->|Hin]%elem_of_cons; [right; by left|].
      destruct (IH Hin); [by left|right; by right].
Qed.

Lemma sorted_bump v acc :
  StronglySorted Z.lt (map fst acc) → StronglySorted Z.lt (map fst (bump v acc)).
Proof.
  induction acc as [|[w n] rest IH]; simpl; intros Hs.
  - repeat constructor.
  - apply StronglySorted_inv in Hs as [Hs Hall].
    destruct (Z.ltb_spec v w); simpl.
    + constructor; [by constructor|]. constructor; [done|].
      eapply Forall_impl; [exact Hall|]. simpl. lia.
    + destruct (Z.eqb_spec v w) as [->|Hne]; simpl; [by constructor|].
      constructor; [by apply IH|].
      apply Forall_forall. intros k Hk. apply keys_bump in Hk as [->|Hk]; [lia|].
      rewrite Forall_forall in Hall. by apply Hall.
Qed.

Lemma sorted_np_unique l : StronglySorted Z.lt (map fst (np_unique l)).
Proof.
  unfold np_unique. induction l as [|v l IH] using rev_ind; [constructor|].
  rewrite fold_left_app. simpl. by apply sorted_bump.
Qed.

Lemma positive_bump v acc :
  Forall (λ e, 0 < e.2) acc → Forall (λ e, 0 < e.2) (bump v acc).
Proof.
  induction acc as [|[w n] rest IH]; simpl; intros Hs.
  - repeat constructor.
  - apply Forall_cons in Hs as [Hn Hs]. simpl in Hn.
    destruct (Z.ltb_spec v w); simpl.
    + repeat constructor; done.
    + destruct (Z.eqb_spec v w); simpl; constructor; simpl; auto with lia.
Qed.

Lemma positive_np_unique l : Forall (λ e, 0 < e.2) (np_unique l).
Proof.
  unfold np_unique. induction l as [|v l IH] using rev_ind; [constructor|].
  rewrite fold_left_app. simpl. by apply positive_bump.
Qed.

Lemma tally_absent acc u : u ∉ map fst acc → tally acc u = 0.
Proof.
  induction acc as [|[w n] rest IH]; simpl; [done|].
  intros Hnin. apply not_elem_of_cons in Hnin as [Hne Hnin].
  destruct (Z.eqb_spec w u); [done|]. by rewrite IH.
Qed.

Lemma tally_entry acc u n :
  StronglySorted Z.lt (map fst acc) → (u, n) ∈ acc → tally acc u = n.
Proof.
  induction acc as [|[w k] rest IH]; simpl; intros Hs Hin.
  - by apply elem_of_nil in Hin.
  - apply StronglySorted_inv in Hs as [Hs Hall].
    apply elem_of_cons in Hin as [[= <- <-]|Hin].
    + rewrite Z.eqb_refl, tally_absent; [lia|].
      intros Hin. rewrite Forall_forall in Hall. apply Hall in Hin. lia.
    + rewrite IH by done. destruct (Z.eqb_spec w u) as [->|]; [|done].
      rewrite Forall_forall in Hall.
      assert (u ∈ map fst rest) as Hk.
      { apply list_elem_of_In, in_map_iff. exists (u, n). by rewrite <- list_elem_of_In. }
      apply Hall in Hk. lia.
Qed.

Lemma tally_present acc u :
  0 < tally acc u → ∃ n, (u, n) ∈ acc ∧ 0 < n.
Proof.
  induction acc as [|[w k] rest IH]; simpl; [lia|].
  destruct (Z.eqb_spec w u) as [->|Hne].
  - destruct k as [|k].
    + simpl. intros H. destruct (IH H) as (n & Hin & Hn). exists n. split; [by right|done].
    + intros _. exists (S k). split; [by left|lia].
  - simpl. intros H. destruct (IH H) as (n & Hin & Hn). exists n. split; [by right|done].
Qed.

Lemma py_max_spec (l : list nat) :
  l ≠ [] → ∃ m, py_max l = inr m ∧ m ∈ l ∧ ∀ k, k ∈ l → k ≤ m.
Proof.
  destruct l as [|x r]; [done|]. intros _. simpl. eexists. split; [reflexivity|].
  revert x. induction r as [|y r IH]; intros x; simpl.
  - split; [by left|]. intros k ?%list_elem_of_singleton. lia.
  - destruct (IH (Nat.max x y)) as [Hin Hle]. split.
    + apply elem_of_cons in Hin as [Heq|Hin]; [|right; by right].
      rewrite Heq. destruct (Nat.max_spec x y) as [[_ ->]|[_ ->]]; [right; by left|by left].
    + intros k Hk. apply elem_of_cons in Hk as [->|Hk].
      * etrans; [|apply Hle; by left]. lia.
      * apply elem_of_cons in Hk as [->|Hk].
        -- etrans; [|apply Hle; by left]. lia.
        -- apply Hle. by right.
Qed.

Lemma py_max_empty : py_max [] = inl (ValueError "max() arg is an empty sequence").
Proof. done. Qed.

Lemma max_of_counts (l : list Z) :
  l ≠ [] → ∃ m, py_max (map snd (np_unique l)) = inr m ∧ most_frequent_count l m.
Proof.
  intros Hne.
  assert (map snd (np_unique l) ≠ []) as Hne'.
  { destruct l as [|v l]; [done|].
    assert (0 < tally (np_unique (v :: l)) v) as Hpos.
    { rewrite tally_np_unique. simpl. destruct (Z.eq_dec v v); [lia|done]. }
    apply tally_present in Hpos as (n & Hin & _).
    intros Hnil. apply fmap_nil_inv in Hnil. rewrite Hnil in Hin.
    by apply elem_of_nil in Hin. }
  destruct (py_max_spec _ Hne') as (m & Hm & Hin & Hmax).
  exists m. split; [done|]. split.
  - intros v. destruct (count_occ Z.eq_dec l v) as [|c] eqn:Hc; [lia|].
    assert (0 < tally (np_unique l) v) as Hpos by (rewrite tally_np_unique; lia).
    apply tally_present in Hpos as (n & Hn & _).
    pose proof (tally_entry _ _ _ (sorted_np_unique l) Hn) as Ht.
    rewrite tally_np_unique, Hc in Ht. subst n.
    apply Hmax. apply list_elem_of_In, in_map_iff. exists (v, S c).
    by rewrite <- list_elem_of_In.
  - apply list_elem_of_In, in_map_iff in Hin as ([u n] & Hn & Hin). simpl in Hn. subst n.
    rewrite <- list_elem_of_In in Hin. exists u.
    pose proof (tally_entry _ _ _ (sorted_np_unique l) Hin) as Ht.
    rewrite tally_np_unique in Ht.
    pose proof (positive_np_unique l) as Hp. rewrite Forall_forall in Hp.
    apply Hp in Hin. simpl in Hin. split; [|done].
    apply list_elem_of_In, (count_occ_In Z.eq_dec). lia.
Qed.

(** ** The cloud filter and slices *)

Lemma most_frequent_count_unique l m m' :
  most_frequent_count l m → most_frequent_count l m' → m = m'.
Proof.
  intros [Hle (v & _ & Hv)] [Hle' (v' & _ & Hv')].
  pose proof (Hle v'). pose proof (Hle' v). lia.
Qed.

Lemma length_channel {T} (a : ndarray3 T) c : length (channel a c) = dim0 a * dim1 a.
Proof.
  unfold channel. generalize 0 at 2. induction (dim0 a) as [|n IH]; intros s; simpl; [done|].
  rewrite length_app, length_map, length_seq, IH. done.
Qed.

Lemma channel_nonempty {T} (a : ndarray3 T) c :
  0 < dim0 a → 0 < dim1 a → channel a c ≠ [].
Proof.
  intros H0 H1 Hnil. apply (f_equal length) in Hnil.
  rewrite length_channel in Hnil. simpl in Hnil. nia.
Qed.

Lemma elem_of_channel {T} (a : ndarray3 T) c v :
  v ∈ channel a c ↔ ∃ i j, i < dim0 a ∧ j < dim1 a ∧ v = item a i j c.
Proof.
  unfold channel. rewrite list_elem_of_In, in_flat_map. split.
  - intros (i & Hi & Hin). apply in_map_iff in Hin as (j & <- & Hj).
    apply in_seq in Hi, Hj. exists i, j. split_and!; [lia..|done].
  - intros (i & j & Hi & Hj & ->). exists i. split; [apply in_seq; lia|].
    apply in_map_iff. exists j. split; [done|]. apply in_seq. lia.
Qed.

Lemma max_uniq_spec (patch : ndarray3 Z) c :
  0 < dim0 patch → 0 < dim1 patch →
  ∃ m, max_uniq patch c = inr m ∧ most_frequent_count (channel patch c) m.
Proof. intros H0 H1. apply max_of_counts. by apply channel_nonempty. Qed.

Lemma py_any_total {A} (test : A → result bool) (b : A → bool) (l : list A) :
  (∀ a, a ∈ l → test a = inr (b a)) →
  py_any (map test l) = inr (existsb b l).
Proof.
  induction l as [|a l IH]; intros Hall; simpl; [done|].
  rewrite (Hall a) by by left. destruct (b a); simpl; [done|].
  apply IH. intros a' Ha'. apply Hall. by right.
Qed.

Lemma has_clouds_spec (patch : ndarray3 Z) (shape_x shape_y : Z) :
  0 < dim0 patch → 0 < dim1 patch →
  ∃ b : bool, has_clouds patch shape_x shape_y = inr b ∧
    (b = true ↔ ∃ c m, c < dim2 patch ∧ most_frequent_count (channel patch c) m ∧
                       (2 * Z.of_nat m < shape_x * shape_y)%Z).
Proof.
  intros H0 H1.
  set (count c := match max_uniq patch c with inr m => m | inl _ => 0 end).
  assert (∀ c, max_uniq patch c = inr (count c) ∧
               most_frequent_count (channel patch c) (count c)) as Hcount.
  { intros c. destruct (max_uniq_spec patch c H0 H1) as (m & Hm & Hmf).
    unfold count. rewrite Hm. done. }
  exists (existsb (λ c, below_threshold shape_x shape_y (count c)) (seq 0 (dim2 patch))).
  split.
  - unfold has_clouds. apply py_any_total. intros c _.
    rewrite (proj1 (Hcount c)). done.
  - rewrite existsb_exists. split.
    + intros (c & Hc & Hb). apply in_seq in Hc. apply Z.ltb_lt in Hb.
      exists c, (count c). split; [lia|]. split; [apply Hcount|done].
    + intros (c & m & Hc & Hm & Hlt). exists c. split; [apply in_seq; lia|].
      apply Z.ltb_lt. rewrite (most_frequent_count_unique _ _ _ (proj2 (Hcount c)) Hm). done.
Qed.

Lemma slice_indices_inside (len : nat) (start n : Z) :
  (0 ≤ start)%Z → (0 ≤ n)%Z → (start + n ≤ Z.of_nat len)%Z →
  slice_indices len start (start + n) = (Z.to_nat start, Z.to_nat n).
Proof.
  intros Hs Hn Hle. unfold slice_indices, slice_bound.
  destruct (Z.ltb_spec start 0); [lia|].
  destruct (Z.ltb_spec (start + n) 0); [lia|].
  f_equal; lia.
Qed.

Lemma slice2_inside {T} (a : ndarray3 T) (x y shape_x shape_y : Z) :
  (0 ≤ x)%Z → (0 ≤ y)%Z → (0 ≤ shape_x)%Z → (0 ≤ shape_y)%Z →
  (x + shape_x ≤ Z.of_nat (dim0 a))%Z → (y + shape_y ≤ Z.of_nat (dim1 a))%Z →
  slice2 a x (x + shape_x) y (y + shape_y) =
  Ndarray3 (Z.to_nat shape_x) (Z.to_nat shape_y) (dim2 a)
           (λ i j c, item a (Z.to_nat x + i) (Z.to_nat y + j) c).
Proof.
  intros. unfold slice2. rewrite !slice_indices_inside by done. done.
Qed.

(** ** arrays with distinct samples *)
Lemma NoDup_channel {T} (a : ndarray3 T) c :
  (∀ i j i' j', i < dim0 a → i' < dim0 a → j < dim1 a → j' < dim1 a →
                item a i j c = item a i' j' c → i = i' ∧ j = j') →
  NoDup (channel a c).
Proof.
  intros Hinj. unfold channel.
  assert (∀ n s, s + n ≤ dim0 a →
            NoDup (flat_map (λ i, map (λ j, item a i j c) (seq 0 (dim1 a))) (seq s n))) as H.
  { induction n as [|n IH]; intros s Hs; simpl; [constructor|].
    apply NoDup_app. split; [|split].
    - apply NoDup_fmap_2_strong; [|apply NoDup_seq].
      intros j j' Hj%elem_of_seq Hj'%elem_of_seq Heq.
      apply Hinj in Heq; [tauto|lia..].
    - intros v Hv Hv'. apply list_elem_of_In, in_map_iff in Hv as (j & <- & Hj%in_seq).
      apply list_elem_of_In, in_flat_map in Hv' as (i' & Hi'%in_seq & Hv').
      apply in_map_iff in Hv' as (j' & Heq & Hj'%in_seq).
      apply Hinj in Heq; lia.
    - apply IH. lia. }
  apply H. lia.
Qed.

Lemma most_frequent_count_NoDup l m :
  NoDup l → most_frequent_count l m → m ≤ 1.
Proof.
  intros Hnd [_ (v & _ & <-)].
  apply NoDup_ListNoDup in Hnd.
  by apply (NoDup_count_occ Z.eq_dec).
Qed.

Lemma elem_of_ravel {T} (a : ndarray3 T) v :
  v ∈ ravel a ↔ ∃ i j c, i < dim0 a ∧ j < dim1 a ∧ c < dim2 a ∧ v = item a i j c.
Proof.
  unfold ravel. rewrite list_elem_of_In, in_flat_map. split.
  - intros (i & Hi%in_seq & Hin). apply in_flat_map in Hin as (j & Hj%in_seq & Hin).
    apply in_map_iff in Hin as (c & <- & Hc%in_seq). exists i, j, c. split_and!; [lia..|done].
  - intros (i & j & c & Hi & Hj & Hc & ->). exists i. split; [apply in_seq; lia|].
    apply in_flat_map. exists j. split; [apply in_seq; lia|].
    apply in_map_iff. exists c. split; [done|]. apply in_seq. lia.
Qed.

Lemma isnan_any_false (p : ndarray3 float32) :
  isnan_any p = false ↔
  ∀ i j c, i < dim0 p → j < dim1 p → c < dim2 p → np_isnan (item p i j c) = false.
Proof.
  unfold isnan_any. split.
  - intros Hnone i j c Hi Hj Hc. destruct (np_isnan (item p i j c)) eqn:Hn; [|done].
    assert (existsb np_isnan (ravel p) = true) as Hex; [|congruence].
    apply existsb_exists. exists (item p i j c). split; [|done].
    apply list_elem_of_In, elem_of_ravel. exists i, j, c. done.
  - intros Hall. destruct (existsb np_isnan (ravel p)) eqn:Hex; [|done].
    apply existsb_exists in Hex as (v & Hv & Hn).
    apply list_elem_of_In, elem_of_ravel in Hv as (i & j & c & Hi & Hj & Hc & ->).
    rewrite Hall in Hn; done.
Qed.

(** ** float32 results that are not NaN *)

Section Rounding.
Variables prec emax : Z.

Lemma shr_1_nonneg mrs : (0 ≤ shr_m mrs)%Z → (0 ≤ shr_m (shr_1 mrs))%Z.
Proof.
  destruct mrs as [m r s]. simpl. intros Hm.
  destruct m as [|[p|p|]|p]; simpl; lia.
Qed.

Lemma iter_shr_1_nonneg p mrs :
  (0 ≤ shr_m mrs)%Z → (0 ≤ shr_m (SpecFloat.iter_pos shr_1 p mrs))%Z.
Proof.
  revert mrs. induction p as [p IH|p IH|]; intros mrs Hm; simpl.
  - apply IH, IH, shr_1_nonneg, Hm.
  - apply IH, IH, Hm.
  - apply shr_1_nonneg, Hm.
Qed.

Lemma shr_fexp_nonneg m e l :
  (0 ≤ m)%Z → (0 ≤ shr_m (shr_fexp prec emax m e l).1)%Z.
Proof.
  intros Hm. unfold shr_fexp, shr.
  assert (0 ≤ shr_m (shr_record_of_loc m l))%Z as H0.
  { destruct l as [|[]]; simpl; done. }
  destruct (fexp prec emax (Zdigits2 m + e) - e)%Z; simpl; [done| |done].
  by apply iter_shr_1_nonneg.
Qed.

Lemma round_nearest_even_nonneg m l : (0 ≤ m)%Z → (0 ≤ round_nearest_even m l)%Z.
Proof.
  intros Hm. destruct l as [|[]]; simpl; [done| |done|lia].
  destruct (Z.even m); lia.
Qed.

Lemma binary_round_aux_not_nan sx mx ex lx :
  (0 ≤ mx)%Z → binary_round_aux prec emax sx mx ex lx ≠ S754_nan.
Proof.
  intros Hm. unfold binary_round_aux.
  pose proof (shr_fexp_nonneg mx ex lx Hm) as H1.
  destruct (shr_fexp prec emax mx ex lx) as [mrs' e']. simpl in H1.
  pose proof (shr_fexp_nonneg (round_nearest_even (shr_m mrs') (loc_of_shr_record mrs'))
                e' loc_Exact (round_nearest_even_nonneg _ _ H1)) as H2.
  destruct (shr_fexp prec emax _ e' loc_Exact) as [mrs'' e'']. simpl in H2.
  destruct (shr_m mrs''); [done| |lia].
  destruct (e'' <=? emax - prec)%Z; done.
Qed.

Lemma binary_round_not_nan sx mx ex : binary_round prec emax sx mx ex ≠ S754_nan.
Proof.
  unfold binary_round. destruct (shl_align _ _ _) as [mz ez].
  apply binary_round_aux_not_nan. lia.
Qed.

Lemma binary_normalize_not_nan m e szero :
  binary_normalize prec emax m e szero ≠ S754_nan.
Proof. destruct m; simpl; [done|apply binary_round_not_nan..]. Qed.

Lemma SFsub_not_nan x y :
  x ≠ S754_nan → is_finite y = true → SFsub prec emax x y ≠ S754_nan.
Proof.
  intros Hx Hy. destruct x as [sx|sx| |sx mx ex], y as [sy|sy| |sy my ey]; try done.
  - simpl. destruct sx, sy; done.
  - apply binary_normalize_not_nan.
Qed.

Lemma SFdiv_core_binary_nonneg m1 e1 m2 e2 :
  (0 < m1)%Z → (0 < m2)%Z →
  (0 ≤ (SFdiv_core_binary prec emax m1 e1 m2 e2).1.1)%Z.
Proof.
  intros H1 H2. unfold SFdiv_core_binary.
  set (s := (e1 - e2 - _)%Z).
  set (m' := match s with Z0 => m1 | Zpos _ => Z.shiftl m1 s | Zneg _ => 0%Z end).
  assert (0 ≤ m')%Z as Hm'.
  { unfold m'. destruct s; [lia| |lia]. apply Z.shiftl_nonneg. lia. }
  pose proof (Z.div_pos m' m2 Hm' H2) as Hq. unfold Z.div in Hq.
  destruct (Z.div_eucl m' m2) as [q r]. done.
Qed.

Lemma SFdiv_not_nan x y :
  x ≠ S754_nan → is_finite y = true → is_zero y = false →
  SFdiv prec emax x y ≠ S754_nan.
Proof.
  intros Hx Hy Hz. destruct x as [sx|sx| |sx mx ex], y as [sy|sy| |sy my ey]; try done.
  simpl.
  pose proof (SFdiv_core_binary_nonneg (Zpos mx) ex (Zpos my) ey) as Hq.
  destruct (SFdiv_core_binary prec emax (Z.pos mx) ex (Z.pos my) ey) as [[mz ez] lz].
  apply binary_round_aux_not_nan. apply Hq; lia.
Qed.

End Rounding.

Lemma astype_float32_not_nan v : np_isnan (astype_float32 v) = false.
Proof.
  pose proof (binary_normalize_not_nan prec32 emax32 v 0 false) as H.
  unfold astype_float32. destruct (binary_normalize _ _ _ _ _); done.
Qed.

Lemma normalized_not_nan (v : Z) (mean std : float32) :
  is_finite mean = true → is_finite std = true → is_zero std = false →
  np_isnan (f32_div (f32_sub (astype_float32 v) mean) std) = false.
Proof.
  intros Hm Hs Hz.
  assert (f32_sub (astype_float32 v) mean ≠ S754_nan) as H1.
  { apply SFsub_not_nan; [|done]. pose proof (astype_float32_not_nan v).
    destruct (astype_float32 v); done. }
  pose proof (SFdiv_not_nan prec32 emax32 _ std H1 Hs Hz) as H2.
  unfold f32_div. destruct (SFdiv _ _ _ _); done.
Qed.


(** ** Runs of generators *)

Lemma yields_after {A} (pre : list (event + A)) (r : run A) :
  yields (after pre r) = yields (Run pre None) ++ yields r.
Proof. unfold yields, after. simpl. apply omap_app. Qed.

Lemma printed_after {A} (pre : list (event + A)) (r : run A) :
  printed (after pre r) = printed (Run pre None) ++ printed r.
Proof. unfold printed, after. simpl. apply omap_app. Qed.

Lemma raised_after {A} (pre : list (event + A)) (r : run A) :
  raised (after pre r) = raised r.
Proof. done. Qed.

Section GenPatches.
Context `{Ext : Externals}.

Lemma extract_patch_some fname sw mean std shape xy p :
  extract_patch fname sw mean std shape xy = inr (Some p) →
  let patch := slice2 sw xy.1 (xy.1 + shape.1) xy.2 (xy.2 + shape.2) in
  has_clouds patch shape.1 shape.2 = inr true ∧
  isnan_any (normalize patch mean std) = false ∧
  p = PatchItem fname xy (normalize patch mean std).
Proof.
  destruct shape as [shape_x shape_y], xy as [x y]. unfold extract_patch. simpl.
  destruct (has_clouds _ _ _) as [e|[|]]; simpl; [done| |done].
  destruct (isnan_any _); simpl; [done|]. intros [= <-]. done.
Qed.

Lemma extract_patch_accept fname sw mean std shape xy :
  let patch := slice2 sw xy.1 (xy.1 + shape.1) xy.2 (xy.2 + shape.2) in
  has_clouds patch shape.1 shape.2 = inr true →
  isnan_any (normalize patch mean std) = false →
  extract_patch fname sw mean std shape xy =
  inr (Some (PatchItem fname xy (normalize patch mean std))).
Proof.
  destruct shape as [shape_x shape_y], xy as [x y]. unfold extract_patch. simpl.
  intros -> ->. done.
Qed.

Lemma patches_loop_yields fname sw mean std shape coords p :
  p ∈ yields (patches_loop fname sw mean std shape coords) →
  ∃ xy, xy ∈ coords ∧ extract_patch fname sw mean std shape xy = inr (Some p).
Proof.
  induction coords as [|xy rest IH]; simpl.
  - intros Hin. by apply elem_of_nil in Hin.
  - destruct (extract_patch _ _ _ _ _ xy) as [e|[q|]] eqn:Hx.
    + intros Hin. by apply elem_of_nil in Hin.
    + rewrite yields_after. intros [Hin|Hin]%elem_of_app.
      * apply list_elem_of_singleton in Hin as ->. exists xy. split; [by left|done].
      * destruct (IH Hin) as (xy' & ? & ?). exists xy'. split; [by right|done].
    + intros Hin. destruct (IH Hin) as (xy' & ? & ?). exists xy'. split; [by right|done].
Qed.

Lemma patches_loop_total fname sw mean std shape coords (o : Z * Z → option patch_item) :
  (∀ xy, xy ∈ coords → extract_patch fname sw mean std shape xy = inr (o xy)) →
  patches_loop fname sw mean std shape coords = Run (map inr (omap o coords)) None.
Proof.
  induction coords as [|xy rest IH]; intros Hall; simpl; [done|].
  rewrite (Hall xy) by by left.
  rewrite IH by (intros; apply Hall; by right).
  destruct (o xy); done.
Qed.

Lemma patches_loop_prints fname sw mean std shape coords :
  printed (patches_loop fname sw mean std shape coords) = [].
Proof.
  induction coords as [|xy rest IH]; simpl; [done|].
  destruct (extract_patch _ _ _ _ _ xy) as [e|[q|]]; [done| |done].
  rewrite printed_after, IH. done.
Qed.

Lemma swath_patches_yields shape strides fname sw g p :
  p ∈ yields (swath_patches shape strides fname sw g).1 →
  ∃ coords, candidate_coords sw shape strides = inr coords ∧ p_coord p ∈ coords ∧
    extract_patch fname sw (np_mean sw) (np_std sw) shape (p_coord p) = inr (Some p).
Proof.
  unfold swath_patches. destruct (candidate_coords sw shape strides) as [e|coords].
  - simpl. intros Hin. by apply elem_of_nil in Hin.
  - pose proof (np_random_shuffle_perm g coords) as Hperm.
    destruct (np_random_shuffle g coords) as [coords' g']. simpl in *.
    intros Hin. apply patches_loop_yields in Hin as (xy & Hxy & Hx).
    exists coords. split; [done|].
    pose proof (extract_patch_some _ _ _ _ _ _ _ Hx) as (_ & _ & ->). simpl.
    split; [by rewrite <- Hperm|done].
Qed.

Lemma patches_of_steps_yields shape strides upstream g p :
  p ∈ yields (patches_of_steps shape strides upstream g).1 →
  ∃ sw coords, inr (p_fname p, sw) ∈ upstream ∧
    candidate_coords sw shape strides = inr coords ∧ p_coord p ∈ coords ∧
    extract_patch (p_fname p) sw (np_mean sw) (np_std sw) shape (p_coord p) = inr (Some p).
Proof.
  revert g. induction upstream as [|[ev|[fname sw]] rest IH]; intros g; simpl.
  - intros Hin. by apply elem_of_nil in Hin.
  - specialize (IH g). destruct (patches_of_steps shape strides rest g) as [r g'].
    simpl in *. rewrite yields_after. simpl. intros Hin.
    destruct (IH Hin) as (sw & coords & ? & ?). exists sw, coords. split; [by right|done].
  - pose proof (swath_patches_yields shape strides fname sw g p) as H1.
    destruct (swath_patches shape strides fname sw g) as [r1 g1]. simpl in *.
    assert (p ∈ yields r1 → ∃ sw0 coords, inr (p_fname p, sw0) ∈ inr (fname, sw) :: rest ∧
      candidate_coords sw0 shape strides = inr coords ∧ p_coord p ∈ coords ∧
      extract_patch (p_fname p) sw0 (np_mean sw0) (np_std sw0) shape (p_coord p) = inr (Some p))
      as Hfirst.
    { intros Hin. destruct (H1 Hin) as (coords & Hc & Hin' & Hx).
      pose proof (extract_patch_some _ _ _ _ _ _ _ Hx) as (_ & _ & Hp).
      assert (p_fname p = fname) as Hf by (rewrite Hp; done).
      exists sw, coords. rewrite Hf. split; [by left|done]. }
    destruct (raised r1); [done|].
    specialize (IH g1). destruct (patches_of_steps shape strides rest g1) as [r2 g2].
    simpl in *. unfold after, yields. simpl. rewrite omap_app.
    intros [Hin|Hin]%elem_of_app; [by apply Hfirst|].
    destruct (IH Hin) as (sw0 & coords & ? & ?). exists sw0, coords. split; [by right|done].
Qed.

Lemma elem_of_steps_yields {A} (r : run A) (a : A) : inr a ∈ steps r ↔ a ∈ yields r.
Proof.
  unfold yields. rewrite list_elem_of_omap. split.
  - intros Hin. exists (inr a). done.
  - intros ([ev|a'] & Hin & [= ->]). done.
Qed.

Lemma gen_patches_yields swaths shape strides g p :
  p ∈ yields (gen_patches swaths shape strides g).1 →
  ∃ sw coords, (p_fname p, sw) ∈ yields swaths ∧
    candidate_coords sw shape strides = inr coords ∧ p_coord p ∈ coords ∧
    extract_patch (p_fname p) sw (np_mean sw) (np_std sw) shape (p_coord p) = inr (Some p).
Proof.
  unfold gen_patches.
  pose proof (patches_of_steps_yields shape strides (steps swaths) g p) as H.
  destruct (patches_of_steps shape strides (steps swaths) g) as [r g']. simpl in *.
  intros Hin. destruct (H Hin) as (sw & coords & Hsw & ?). exists sw, coords.
  split; [by apply elem_of_steps_yields|done].
Qed.

End GenPatches.

(** ** gen_swaths *)

Section Swaths.
Context `{Ext : Externals}.

Lemma omap_inl_fmap {A} (evs : list event) :
  omap (λ s : event + A, match s with inl ev => Some ev | inr _ => None end) (map inl evs) = evs.
Proof. induction evs as [|ev evs IH]; simpl; [done|]. f_equal. exact IH. Qed.

Lemma omap_inr_fmap_inl {A} (evs : list event) :
  omap (λ s : event + A, match s with inr a => Some a | inl _ => None end) (map inl evs) = [].
Proof. induction evs as [|ev evs IH]; simpl; [done|]. exact IH. Qed.

Lemma swaths_loop_spec rank read resize fnames :
  (∀ t raw, t ∈ fnames → (read t).2 = inr raw →
            ∃ sw, apply_resize resize (np_rollaxis_0_3 raw) = inr sw) →
  raised (swaths_loop rank read resize fnames) = None ∧
  yields (swaths_loop rank read resize fnames) = omap (read_swath read resize) fnames ∧
  printed (swaths_loop rank read resize fnames) = flat_map (read_lines rank read) fnames.
Proof.
  induction fnames as [|t rest IH]; intros Hresize; [done|].
  destruct IH as (IH1 & IH2 & IH3).
  { intros t' raw Hin. apply Hresize. by right. }
  cbn [swaths_loop omap flat_map list_omap]. unfold read_swath at 1, read_lines at 1.
  pose proof (Hresize t) as Ht.
  destruct (read t) as [evs [e|raw]] eqn:Hread; simpl in *.
  - split; [done|]. split.
    + rewrite yields_after, IH2. unfold yields. simpl.
      rewrite omap_app, omap_inr_fmap_inl. done.
    + rewrite printed_after, IH3. unfold printed. simpl.
      rewrite omap_app, omap_inl_fmap. simpl. by rewrite <- app_assoc.
  - destruct (Ht raw) as [sw Hsw]; [by left|done|]. rewrite Hsw. simpl.
    split; [done|]. split.
    + rewrite yields_after, IH2. unfold yields. simpl.
      rewrite omap_app, omap_inr_fmap_inl. done.
    + rewrite printed_after, IH3. unfold printed. simpl.
      rewrite omap_app, omap_inl_fmap. simpl. by rewrite app_nil_r.
Qed.

End Swaths.

Lemma swaths_loop_app `{Ext : Externals} rank read resize (pre post : list string) :
  raised (swaths_loop rank read resize pre) = None →
  swaths_loop rank read resize (pre ++ post) =
  after (steps (swaths_loop rank read resize pre)) (swaths_loop rank read resize post).
Proof.
  induction pre as [|t pre IH]; simpl.
  - intros _. by destruct (swaths_loop rank read resize post).
  - destruct (read t) as [evs [e|raw]]; simpl.
    + intros Hr. rewrite IH by done. unfold after. simpl. by rewrite <- !app_assoc.
    + destruct (apply_resize resize (np_rollaxis_0_3 raw)) as [e|sw]; simpl; [done|].
      intros Hr. rewrite IH by done. unfold after. simpl. by rewrite <- !app_assoc.
Qed.




(** ** Record names *)

Lemma string_app_length a b : String.length (a +:+ b) = String.length a + String.length b.
Proof. induction a as [|c a IH]; simpl; [done|]. by rewrite IH. Qed.

Lemma string_app_inj_r a b c : a +:+ c = b +:+ c → a = b.
Proof.
  revert b. induction a as [|x a IH]; intros [|y b] Heq; simpl in *.
  - done.
  - apply (f_equal String.length) in Heq. simpl in Heq.
    rewrite !string_app_length in Heq. simpl in Heq. lia.
  - apply (f_equal String.length) in Heq. simpl in Heq.
    rewrite !string_app_length in Heq. simpl in Heq. lia.
  - injection Heq as -> Heq. f_equal. by apply IH.
Qed.

Lemma record_name_inj rank j j' : record_name rank j = record_name rank j' → j = j'.
Proof.
  unfold record_name. intros Heq.
  apply (inj (String.app _)) in Heq. apply (inj (String.app _)) in Heq.
  apply string_app_inj_r in Heq. by apply (inj pretty) in Heq.
Qed.

Lemma os_path_join_inj dir a b : os_path_join dir a = os_path_join dir b → a = b.
Proof.
  unfold os_path_join. destruct (_ || _); intros Heq.
  - by apply (inj (String.app _)) in Heq.
  - apply (inj (String.app _)) in Heq. by apply (inj (String.app _)) in Heq.
Qed.

Lemma shard_path_inj rank out_dir j j' :
  shard_path rank out_dir j = shard_path rank out_dir j' → j = j'.
Proof.
  unfold shard_path. intros Heq. apply os_path_join_inj, record_name_inj in Heq. lia.
Qed.

(** ** The loop of write_patches *)

Section SharderStep.
Variables (rank : Z) (out_dir : string) (K : Z) (fs0 : gmap string (list example)).
Hypothesis HK : (0 < K)%Z.

Lemma div_mod_nat (n : nat) :
  (Z.of_nat n / K)%Z = Z.of_nat (n / Z.to_nat K) ∧
  ((Z.of_nat n mod K)%Z = 0%Z ↔ n mod Z.to_nat K = 0).
Proof.
  rewrite <- (Z2Nat.id K) at 1 3 by lia.
  rewrite <- Nat2Z.inj_div, <- Nat2Z.inj_mod. split; [done|lia].
Qed.

Lemma shard_full ps p j :
  j * Z.to_nat K + Z.to_nat K ≤ length ps → shard (ps ++ [p]) K j = shard ps K j.
Proof.
  intros Hle. unfold shard. f_equal.
  rewrite drop_app_le by lia. apply take_app_le. rewrite length_drop. lia.
Qed.

Lemma shard_last ps p j :
  j * Z.to_nat K ≤ length ps → length ps < j * Z.to_nat K + Z.to_nat K →
  shard (ps ++ [p]) K j = shard ps K j ++ [make_example p].
Proof.
  intros Hle Hlt. unfold shard.
  rewrite drop_app_le by lia.
  rewrite (take_ge (drop _ ps)) by (rewrite length_drop; lia).
  rewrite take_ge by (rewrite length_app, length_drop; simpl; lia).
  by rewrite map_app.
Qed.

Lemma shard_empty ps j : length ps ≤ j * Z.to_nat K → shard ps K j = [].
Proof. intros Hle. unfold shard. rewrite drop_ge by lia. by rewrite take_nil. Qed.

Lemma write_step_inv ps p s :
  sharder_inv rank out_dir K fs0 ps s →
  ∃ s', write_step rank out_dir K (Z.of_nat (length ps)) p s = inr s' ∧
        sharder_inv rank out_dir K fs0 (ps ++ [p]) s' ∧
        stdout s' = stdout s ++ shard_lines rank K (length ps).
Proof.
  intros (Hf & Hin & Hout).
  set (n := length ps) in *. set (Kn := Z.to_nat K) in *.
  assert (0 < Kn) as HKn by (unfold Kn; lia).
  pose proof (div_mod_nat n) as [Hdiv Hmod]. fold Kn in Hdiv, Hmod.
  pose proof (Nat.div_mod_eq n Kn) as Hdm.
  pose proof (Nat.mod_upper_bound n Kn ltac:(lia)) as Hub.
  unfold write_step, shard_lines.
  destruct (Z.eqb_spec K 0) as [|_]; [lia|].
  destruct (Z.eqb_spec (Z.of_nat n mod K) 0) as [Hz|Hnz]; simpl.
  - (* a new record *)
    apply Hmod in Hz. rewrite Hdiv.
    change (os_path_join out_dir (record_name rank (Z.of_nat (n / Kn))))
      with (shard_path rank out_dir (n / Kn)).
    eexists. split; [reflexivity|]. split; [|by rewrite <- app_assoc].
    unfold sharder_inv. simpl. rewrite length_app. simpl. fold n Kn. split; [|split].
    + destruct (decide (n + 1 = 0)); [lia|]. do 3 f_equal. lia.
    + intros j Hj. unfold write_feature.
      destruct (decide (j = n / Kn)) as [->|Hne].
      * rewrite lookup_alter_eq, lookup_insert_eq. simpl.
        rewrite shard_last by (fold n Kn; nia).
        rewrite shard_empty by (fold n Kn; nia). done.
      * rewrite lookup_alter_ne, lookup_insert_ne
          by (intros Heq; apply shard_path_inj in Heq; done).
        rewrite Hin by nia. symmetry. f_equal. apply shard_full. fold n Kn. nia.
    + intros q Hq. unfold write_feature.
      assert (q ≠ shard_path rank out_dir (n / Kn)) as Hne by (apply Hq; nia).
      rewrite lookup_alter_ne, lookup_insert_ne by done.
      apply Hout. intros j Hj. apply Hq. lia.
  - (* the record at hand *)
    assert (n mod Kn ≠ 0) as Hnz' by (intros H0; apply Hnz, Hmod, H0).
    assert (n ≠ 0) as Hn0 by (intros ->; by rewrite Nat.Div0.mod_0_l in Hnz').
    assert ((n - 1) / Kn = n / Kn) as Hsame.
    { symmetry. apply (Nat.div_unique _ _ _ (n mod Kn - 1)); lia. }
    rewrite Hf. destruct (decide (n = 0)) as [|_]; [done|]. rewrite Hsame.
    eexists. split; [reflexivity|]. split; [|done].
    unfold sharder_inv. simpl. rewrite length_app. simpl. fold n Kn. split; [|split].
    + destruct (decide (n + 1 = 0)); [lia|]. do 3 f_equal. lia.
    + intros j Hj. unfold write_feature.
      destruct (decide (j = n / Kn)) as [->|Hne].
      * rewrite lookup_alter_eq, Hin by nia. simpl.
        rewrite shard_last by (fold n Kn; nia). done.
      * rewrite lookup_alter_ne
          by (intros Heq; apply shard_path_inj in Heq; done).
        assert (j < n / Kn) by nia.
        rewrite Hin by nia. symmetry. f_equal. apply shard_full. fold n Kn. nia.
    + intros q Hq. unfold write_feature.
      assert (q ≠ shard_path rank out_dir (n / Kn)) as Hne by (apply Hq; nia).
      rewrite lookup_alter_ne by done.
      apply Hout. intros j Hj. apply Hq. lia.
Qed.

End SharderStep.

Section Sharder.
Variables (rank : Z) (out_dir : string) (K : Z) (fs0 : gmap string (list example)).
Hypothesis HK : (0 < K)%Z.

Lemma write_loop_inv upstream ps s :
  sharder_inv rank out_dir K fs0 ps s →
  ∃ s', write_loop rank out_dir K (Z.of_nat (length ps)) upstream s = (s', None) ∧
        sharder_inv rank out_dir K fs0 (ps ++ yields (Run upstream None)) s' ∧
        stdout s' = stdout s ++ sharder_output rank K (length ps) upstream.
Proof.
  revert ps s. induction upstream as [|[ev|p] rest IH]; intros ps s Hinv; simpl.
  - exists s. by rewrite !app_nil_r.
  - destruct (IH ps (WState (files s) (f s) (stdout s ++ [ev]))) as (s' & Hs' & Hinv' & Hout).
    { exact Hinv. }
    exists s'. split; [done|]. split; [done|]. rewrite Hout. simpl. by rewrite <- app_assoc.
  - destruct (write_step_inv rank out_dir K fs0 HK ps p s Hinv) as (s1 & Hs1 & Hinv1 & Hout1).
    rewrite Hs1.
    destruct (IH (ps ++ [p]) s1 Hinv1) as (s' & Hs' & Hinv' & Hout').
    rewrite length_app in Hs', Hout'. simpl in Hs', Hout'.
    replace (Z.of_nat (length ps) + 1)%Z with (Z.of_nat (length ps + 1)) by lia.
    exists s'. split; [done|]. split.
    + unfold yields in *. simpl in *. by rewrite <- app_assoc in Hinv'.
    + rewrite Hout', Hout1, <- app_assoc. by replace (length ps + 1) with (S (length ps)) by lia.
Qed.

Lemma ceil_div_lt (N j : nat) : j < ceil_div N K ↔ j * Z.to_nat K < N.
Proof.
  unfold ceil_div. set (Kn := Z.to_nat K). assert (0 < Kn) by (unfold Kn; lia).
  pose proof (Nat.div_mod_eq (N + Kn - 1) Kn).
  pose proof (Nat.mod_upper_bound (N + Kn - 1) Kn ltac:(lia)).
  split; intros; nia.
Qed.

Lemma length_shard ps j :
  j < ceil_div (length ps) K →
  length (shard ps K j) =
  if decide (j < length ps / Z.to_nat K) then Z.to_nat K else length ps mod Z.to_nat K.
Proof.
  intros Hj%ceil_div_lt. unfold shard. set (Kn := Z.to_nat K) in *.
  assert (0 < Kn) by (unfold Kn; lia).
  pose proof (Nat.div_mod_eq (length ps) Kn).
  pose proof (Nat.mod_upper_bound (length ps) Kn ltac:(lia)).
  rewrite length_map, length_take, length_drop.
  destruct (decide _) as [Hlt|Hge].
  - assert (j * Kn + Kn ≤ length ps `div` Kn * Kn) by nia. lia.
  - assert (j = length ps `div` Kn) as -> by nia. lia.
Qed.

End Sharder.

(** ** write_patches on a stream without patches *)
Lemma write_loop_no_patches rank out_dir K i upstream s :
  yields (Run upstream None) = [] →
  write_loop rank out_dir K i upstream s =
  (WState (files s) (f s) (stdout s ++ printed (Run upstream None)), None).
Proof.
  revert s. induction upstream as [|[ev|p] rest IH]; intros s Hnone; simpl.
  - unfold printed. simpl. rewrite app_nil_r. by destruct s.
  - rewrite IH by done. simpl. unfold printed. simpl. by rewrite <- app_assoc.
  - done.
Qed.

(** ** the records opened *)
Section Opens.
Variables (rank K : Z).
Hypothesis HK : (0 < K)%Z.

Lemma sharder_output_patches i (ps : list patch_item) :
  sharder_output rank K i (map inr ps) = flat_map (shard_lines rank K) (seq i (length ps)).
Proof.
  revert i. induction ps as [|p ps IH]; intros i; simpl; [done|]. by rewrite IH.
Qed.

Lemma ceil_div_S (N : nat) :
  ceil_div (S N) K = ceil_div N K + (if decide (N mod Z.to_nat K = 0) then 1 else 0) ∧
  (N mod Z.to_nat K = 0 → N / Z.to_nat K = ceil_div N K).
Proof.
  unfold ceil_div. set (Kn := Z.to_nat K). assert (0 < Kn) by (unfold Kn; lia).
  pose proof (Nat.div_mod_eq N Kn). pose proof (Nat.mod_upper_bound N Kn ltac:(lia)).
  set (q := N / Kn) in *. set (r := N mod Kn) in *.
  assert (r = 0 → (N + Kn - 1) / Kn = q) as Hzero.
  { intros Hr. destruct (decide (N = 0)) as [->|].
    - assert (q = 0) as -> by nia. apply Nat.div_small. lia.
    - symmetry. apply (Nat.div_unique _ _ _ (Kn - 1)); [lia|]. nia. }
  split; [|intros Hr; by rewrite Hzero].
  destruct (decide (r = 0)) as [Hr|Hr].
  - rewrite (Hzero Hr). symmetry. apply (Nat.div_unique _ _ _ 0); lia.
  - assert ((N + Kn - 1) / Kn = q + 1) as ->.
    { symmetry. apply (Nat.div_unique _ _ _ (r - 1)); nia. }
    symmetry. apply (Nat.div_unique _ _ _ r); [lia|]. nia.
Qed.

Lemma opened_expected (N : nat) :
  omap opened_record (flat_map (shard_lines rank K) (seq 0 N)) =
  map (λ j, record_name rank (Z.of_nat j)) (seq 0 (ceil_div N K)).
Proof.
  induction N as [|N IH].
  - simpl. unfold ceil_div. rewrite Nat.div_small by lia. done.
  - rewrite seq_S, flat_map_app, omap_app, IH. simpl. rewrite app_nil_r.
    destruct (ceil_div_S N) as [-> Hq].
    destruct (div_mod_nat K HK N) as [Hdiv Hmod].
    unfold shard_lines. destruct (decide (N mod Z.to_nat K = 0)) as [Hz|Hnz].
    + rewrite (proj2 Hmod Hz), Nat.add_1_r, seq_S, map_app, Hdiv, (Hq Hz). done.
    + destruct (Z.eqb_spec (Z.of_nat N mod K) 0) as [Hz'|_]; [by apply Hmod in Hz'|].
      simpl. by rewrite Nat.add_0_r, app_nil_r.
Qed.

End Opens.


(** ** sorted *)
Lemma insert_sorted_perm s l : insert_sorted s l ≡ₚ s :: l.
Proof.
  induction l as [|h t IH]; simpl; [done|].
  destruct (String.leb s h); [done|]. rewrite IH. apply Permutation_swap.
Qed.

Lemma sorted_perm l : sorted l ≡ₚ l.
Proof.
  induction l as [|s l IH]; simpl; [done|].
  rewrite insert_sorted_perm. by constructor.
Qed.

Lemma insert_sorted_Sorted s l :
  Sorted String.le l → Sorted String.le (insert_sorted s l).
Proof.
  induction l as [|h t IH]; simpl; intros Hs.
  - repeat constructor.
  - destruct (String.leb s h) eqn:Hle.
    + constructor; [done|]. constructor. unfold String.le. by rewrite Hle.
    + apply Sorted_inv in Hs as [Hs Hhd]. constructor; [by apply IH|].
      assert (String.le h s) as Hhs.
      { destruct (total String.le h s) as [|Hsh]; [done|].
        unfold String.le in Hsh. rewrite Hle in Hsh. done. }
      destruct t as [|h' t']; simpl; [by constructor|].
      destruct (String.leb s h'); constructor; [done|].
      by apply HdRel_inv in Hhd.
Qed.

Lemma sorted_Sorted l : Sorted String.le (sorted l).
Proof. induction l as [|s l IH]; simpl; [constructor|by apply insert_sorted_Sorted]. Qed.

Lemma sorted_order_independent l1 l2 : l1 ≡ₚ l2 → sorted l1 = sorted l2.
Proof.
  intros Hp. apply (Sorted_unique String.le); [apply sorted_Sorted..|].
  by rewrite !sorted_perm.
Qed.

Section Assign.
Context `{Ext : Externals}.
Variable size : Z.
Hypothesis Hsize : (0 < size)%Z.

Lemma fnames_loop_lookup rank names (i : Z) (d k : nat) :
  (Z.of_nat d < size)%Z → ((i + Z.of_nat d) mod size = rank)%Z →
  ∃ l, fnames_loop size rank i names = inr l ∧
       l !! k = os_path_abspath <$> names !! (d + k * Z.to_nat size).
Proof.
  revert i d k. induction names as [|name rest IH]; intros i d k Hd Hr; simpl.
  - eexists. split; [done|]. by rewrite !lookup_nil.
  - destruct (Z.eqb_spec size 0) as [|_]; [lia|].
    destruct (Z.eqb_spec (i mod size) rank) as [Hi|Hi].
    + assert (d = 0) as ->.
      { pose proof (Zminus_mod (i + Z.of_nat d) i size) as Hm.
        rewrite Hr, Hi, Z.sub_diag, Z.mod_0_l in Hm by lia.
        replace (i + Z.of_nat d - i)%Z with (Z.of_nat d) in Hm by lia.
        rewrite Z.mod_small in Hm by lia. lia. }
      destruct k as [|k].
      * destruct (IH (i + 1)%Z (Z.to_nat size - 1) 0) as (l & Hl & _).
        { lia. }
        { rewrite <- Hi.
          replace (i + 1 + Z.of_nat (Z.to_nat size - 1))%Z with (i + 1 * size)%Z by lia.
          by rewrite Z.mod_add by lia. }
        rewrite Hl. simpl. eexists. split; [done|]. done.
      * destruct (IH (i + 1)%Z (Z.to_nat size - 1) k) as (l & Hl & Hlk).
        { lia. }
        { rewrite <- Hi.
          replace (i + 1 + Z.of_nat (Z.to_nat size - 1))%Z with (i + 1 * size)%Z by lia.
          by rewrite Z.mod_add by lia. }
        rewrite Hl. eexists. split; [done|]. change ((os_path_abspath name :: l) !! S k) with (l !! k). rewrite Hlk.
        rewrite (lookup_cons_ne_0 rest name (0 + S k * Z.to_nat size)) by lia.
        do 2 f_equal. lia.
    + destruct d as [|d]; [by rewrite Z.add_0_r in Hr|].
      destruct (IH (i + 1)%Z d k) as (l & Hl & Hlk).
      { lia. }
      { rewrite <- Hr. f_equal. lia. }
      rewrite Hl. eexists. split; [done|]. rewrite Hlk.
      rewrite (lookup_cons_ne_0 rest name (S d + k * Z.to_nat size)) by lia.
      do 2 f_equal.
Qed.

Lemma worker_fnames_ok rank names :
  worker_fnames size rank names = inr (assigned size rank names).
Proof.
  unfold assigned, worker_fnames. generalize 0%Z.
  induction names as [|name rest IH]; intros i; simpl; [done|].
  destruct (Z.eqb_spec size 0) as [|_]; [lia|].
  specialize (IH (i + 1)%Z). destruct (fnames_loop size rank (i + 1) rest); [done|].
  simpl. by destruct (_ =? _)%Z.
Qed.

Lemma assigned_lookup rank names k :
  (0 ≤ rank < size)%Z →
  assigned size rank names !! k =
  os_path_abspath <$> names !! (Z.to_nat rank + k * Z.to_nat size).
Proof.
  intros Hr.
  destruct (fnames_loop_lookup rank names 0 (Z.to_nat rank) k) as (l & Hl & Hlk).
  { lia. }
  { rewrite Z.add_0_l, Z2Nat.id by lia. apply Z.mod_small. lia. }
  unfold assigned, worker_fnames. rewrite Hl. done.
Qed.

End Assign.

(** ** The partition of the files *)

Lemma concat_map_app {A B} (f g : A → list B) (l : list A) :
  concat (map (λ a, f a ++ g a) l) ≡ₚ concat (map f l) ++ concat (map g l).
Proof.
  induction l as [|a l IH]; simpl; [done|].
  rewrite IH, <- !app_assoc. f_equiv. apply Permutation_app_swap_app.
Qed.

Lemma concat_map_single {B} (r0 : Z) (b : B) (rs : list Z) :
  NoDup rs → r0 ∈ rs →
  concat (map (λ r, if (r0 =? r)%Z then [b] else []) rs) = [b].
Proof.
  induction 1 as [|r rs Hnin Hnd IH]; simpl.
  - intros Hin. by apply elem_of_nil in Hin.
  - intros [->|Hin]%elem_of_cons.
    + rewrite Z.eqb_refl. simpl. f_equal.
      clear IH Hnd. induction rs as [|r' rs IH]; simpl; [done|].
      apply not_elem_of_cons in Hnin as [Hne Hnin].
      destruct (Z.eqb_spec r r'); [done|]. simpl. by apply IH.
    + destruct (Z.eqb_spec r0 r) as [->|_]; [done|]. simpl. by apply IH.
Qed.

Lemma NoDup_ranks size : NoDup (ranks size).
Proof. apply NoDup_fmap_2; [intros ?? ?; lia|apply NoDup_seq]. Qed.

Lemma elem_of_ranks size r : r ∈ ranks size ↔ (0 ≤ r < size)%Z.
Proof.
  unfold ranks. rewrite list_elem_of_In, in_map_iff. split.
  - intros (k & <- & Hk%in_seq). lia.
  - intros Hr. exists (Z.to_nat r). split; [lia|]. apply in_seq. lia.
Qed.

Section Partition.
Context `{Ext : Externals}.
Variable size : Z.
Hypothesis Hsize : (0 < size)%Z.

Lemma fnames_loop_cons rank i name rest :
  fnames_loop size rank i (name :: rest) =
  let* others := fnames_loop size rank (i + 1) rest in
  ret ((if (i mod size =? rank)%Z then [os_path_abspath name] else []) ++ others).
Proof.
  simpl. destruct (Z.eqb_spec size 0) as [|_]; [lia|].
  destruct (fnames_loop size rank (i + 1) rest); simpl; [done|].
  by destruct (_ =? _)%Z.
Qed.

Lemma fnames_loop_total rank i names : ∃ l, fnames_loop size rank i names = inr l.
Proof.
  revert i. induction names as [|name rest IH]; intros i; [by eexists|].
  rewrite fnames_loop_cons. destruct (IH (i + 1)%Z) as [l ->]. by eexists.
Qed.

Lemma fnames_loop_partition i names :
  concat (map (λ r, match fnames_loop size r i names with inr l => l | inl _ => [] end)
              (ranks size))
  ≡ₚ map os_path_abspath names.
Proof.
  revert i. induction names as [|name rest IH]; intros i.
  - simpl. induction (ranks size); simpl; [done|]. done.
  - transitivity (concat (map (λ r, (if (i mod size =? r)%Z then [os_path_abspath name] else [])
        ++ match fnames_loop size r (i + 1) rest with inr l => l | inl _ => [] end) (ranks size))).
    { apply reflexive_eq. f_equal. apply map_ext. intros r. rewrite fnames_loop_cons.
      destruct (fnames_loop_total r (i + 1) rest) as [l ->]. done. }
    rewrite concat_map_app, IH, concat_map_single; [done|apply NoDup_ranks|].
    apply elem_of_ranks. apply Z.mod_pos_bound. lia.
Qed.

Lemma assigned_partition names :
  concat (map (λ r, assigned size r names) (ranks size)) ≡ₚ map os_path_abspath names.
Proof. apply fnames_loop_partition. Qed.

Lemma assigned_disjoint names r r' name :
  NoDup (map os_path_abspath names) →
  (0 ≤ r < size)%Z → (0 ≤ r' < size)%Z → r ≠ r' →
  name ∈ assigned size r names → name ∉ assigned size r' names.
Proof.
  intros Hnd Hr Hr' Hne Hin Hin'.
  apply list_elem_of_lookup in Hin as [k Hk]. apply list_elem_of_lookup in Hin' as [k' Hk'].
  rewrite assigned_lookup in Hk, Hk' by done.
  rewrite <- list_lookup_fmap in Hk. rewrite <- list_lookup_fmap in Hk'.
  pose proof (NoDup_lookup _ _ _ _ Hnd Hk Hk') as Heq.
  assert (k = k') by nia. subst k'. lia.
Qed.

Lemma assigned_out_of_files names r :
  (Z.of_nat (length names) ≤ r < size)%Z → assigned size r names = [].
Proof.
  intros Hr. apply list_eq. intros k. rewrite assigned_lookup by lia.
  rewrite lookup_nil, lookup_ge_None_2; [done|]. lia.
Qed.

End Partition.

(** ** Lemmas for the claims *)

Lemma most_frequent_count_constant (l : list Z) (v : Z) (m : nat) :
  l ≠ [] → (∀ u, u ∈ l → u = v) → most_frequent_count l m → m = length l.
Proof.
  intros Hne Hall [Hle (u & Hu & Hm)].
  assert (count_occ Z.eq_dec l v = length l) as Hcount.
  { clear -Hall. induction l as [|w l IH]; simpl; [done|].
    rewrite (Hall w) by by left. destruct (Z.eq_dec v v); [|done].
    rewrite IH; [done|]. intros u Hu. apply Hall. by right. }
  pose proof (Hle v). pose proof (count_occ_bound Z.eq_dec u l). lia.
Qed.

(** The patch a yielded item carries is the normalised slice of a swath that
    [swaths] yielded under the item's file name, taken at the item's
    coordinate, with the mean and the std of that same swath. *)
Lemma yielded_patch_normalized `{Ext : Externals}
    (swaths : run (string * swath)) (shape strides : Z * Z) (g : rng) p :
  p ∈ yields (gen_patches swaths shape strides g).1 →
  ∃ sw, (p_fname p, sw) ∈ yields swaths ∧
    p_patch p =
    normalize (slice2 sw (p_coord p).1 ((p_coord p).1 + shape.1)
                         (p_coord p).2 ((p_coord p).2 + shape.2))
              (np_mean sw) (np_std sw) ∧
    isnan_any (p_patch p) = false.
Proof.
  intros Hp. apply gen_patches_yields in Hp as (sw & coords & Hsw & _ & _ & Hx).
  exists sw. split; [done|].
  apply extract_patch_some in Hx as (_ & Hnan & Hp). simpl in Hnan, Hp.
  assert (p_patch p = normalize
            (slice2 sw (p_coord p).1 ((p_coord p).1 + shape.1)
                       (p_coord p).2 ((p_coord p).2 + shape.2))
            (np_mean sw) (np_std sw)) as Hpatch by (by rewrite Hp at 1).
  split; [done|]. by rewrite Hpatch.
Qed.

Lemma gen_swaths_spec `{Ext : Externals} rank fnames mode resize read :
  reader mode = inr read →
  (∀ t raw, t ∈ fnames → (read t).2 = inr raw →
            ∃ sw, apply_resize resize (np_rollaxis_0_3 raw) = inr sw) →
  raised (gen_swaths rank fnames mode resize) = None ∧
  yields (gen_swaths rank fnames mode resize) = omap (read_swath read resize) fnames ∧
  printed (gen_swaths rank fnames mode resize) = flat_map (read_lines rank read) fnames.
Proof.
  intros Hread Hresize. unfold gen_swaths. rewrite Hread.
  by apply swaths_loop_spec.
Qed.

Lemma sharder_inv_init rank out_dir K fs out :
  sharder_inv rank out_dir K fs [] (WState fs None out).
Proof.
  unfold sharder_inv. simpl. split; [done|]. split; [intros; lia|done].
Qed.

Lemma write_patches_spec rank (patches : run patch_item) out_dir K fs out :
  (0 < K)%Z →
  ∃ s, write_patches rank patches out_dir K fs out = (s, raised patches) ∧
    stdout s = out ++ sharder_output rank K 0 (steps patches) ∧
    (∀ j, j < ceil_div (length (yields patches)) K →
       files s !! shard_path rank out_dir j = Some (shard (yields patches) K j)) ∧
    (∀ p, (∀ j, j < ceil_div (length (yields patches)) K → p ≠ shard_path rank out_dir j) →
       files s !! p = fs !! p).
Proof.
  intros HK. unfold write_patches.
  destruct (write_loop_inv rank out_dir K fs HK (steps patches) [] (WState fs None out))
    as (s & Hs & (Hf & Hin & Hout) & Hstd).
  { apply sharder_inv_init. }
  simpl in Hs, Hin, Hout, Hstd. change (Z.of_nat 0) with 0%Z in Hs. rewrite Hs. exists s. split; [done|]. split; [done|].
  change (yields {| steps := steps patches; raised := None |}) with (yields patches) in *.
  split.
  - intros j Hj. apply Hin. by apply ceil_div_lt.
  - intros p Hp. apply Hout. intros j Hj. apply Hp. by apply ceil_div_lt.
Qed.

Lemma main_raises_on_no_files `{Ext : Externals} iw size rank FLAGS fs g :
  worker_fnames size rank (sorted (glob_glob (source_glob FLAGS))) = inr [] →
  main iw size rank FLAGS fs g =
  Outcome fs [] (Some (ValueError "source_glob does not match any files")) g.
Proof. intros H. unfold main. by rewrite H. Qed.

Section Distinct.
Context `{Ext : Externals}.

(** A candidate patch of a swath with a channel of distinct samples and
    finite statistics, the std not zero, is yielded. *)
Lemma extract_patch_distinct fname (sw : swath) (shape_x shape_y x y : Z) (c0 : nat) :
  (0 < shape_x)%Z → (0 < shape_y)%Z → (2 < shape_x * shape_y)%Z →
  (0 ≤ x)%Z → (0 ≤ y)%Z →
  (x + shape_x ≤ Z.of_nat (dim0 sw))%Z → (y + shape_y ≤ Z.of_nat (dim1 sw))%Z →
  c0 < dim2 sw →
  (∀ i j i' j', i < dim0 sw → i' < dim0 sw → j < dim1 sw → j' < dim1 sw →
     item sw i j c0 = item sw i' j' c0 → i = i' ∧ j = j') →
  (∀ c, c < dim2 sw → is_finite (np_mean sw c) = true ∧
                      is_finite (np_std sw c) = true ∧ is_zero (np_std sw c) = false) →
  extract_patch fname sw (np_mean sw) (np_std sw) (shape_x, shape_y) (x, y) =
  inr (Some (PatchItem fname (x, y)
               (normalize (slice2 sw x (x + shape_x) y (y + shape_y))
                          (np_mean sw) (np_std sw)))).
Proof.
  intros Hsx Hsy Hbig Hx Hy Hbx Hby Hc0 Hinj Hstats.
  apply (extract_patch_accept fname sw (np_mean sw) (np_std sw) (shape_x, shape_y) (x, y));
    simpl; rewrite slice2_inside by lia; set (patch := Ndarray3 _ _ _ _).
  - assert (0 < dim0 patch) as H0 by (simpl; lia).
    assert (0 < dim1 patch) as H1 by (simpl; lia).
    destruct (has_clouds_spec patch shape_x shape_y H0 H1) as (b & Hb & Hiff).
    rewrite Hb. f_equal. apply Hiff.
    destruct (max_uniq_spec patch c0 H0 H1) as (m & _ & Hm).
    exists c0, m. split; [done|]. split; [done|].
    assert (m ≤ 1); [|lia].
    apply (most_frequent_count_NoDup (channel patch c0)); [|done].
    apply NoDup_channel. simpl. intros i j i' j' Hi Hi' Hj Hj' Heq.
    apply Hinj in Heq; lia.
  - apply isnan_any_false. simpl. intros i j c _ _ Hc.
    destruct (Hstats c Hc) as (Hm & Hs & Hz). by apply normalized_not_nan.
Qed.

End Distinct.

Lemma candidate_coords_256 (sw : swath) :
  dim0 sw = 256 → dim1 sw = 256 →
  candidate_coords sw (64, 64)%Z (64, 64)%Z = inr grid9.
Proof. intros H0 H1. unfold candidate_coords. rewrite H0, H1. reflexivity. Qed.

Lemma map_inr_steps {A} (l : list A) :
  omap (λ s : event + A, match s with inr a => Some a | inl _ => None end) (map inr l) = l.
Proof. induction l as [|a l IH]; simpl; [done|]. f_equal. exact IH. Qed.

(** * The claims *)

(** C1, as the code has it. For a candidate patch (a patch shape above zero,
    inside the swath), the filter raises nothing and accepts the patch exactly
    when for at least one channel the count of the most frequent value of the
    channel's sub-patch is strictly less than half of shape_x * shape_y; so a
    patch in which every channel is one repeated value is rejected. *)
Theorem cloud_filter_accepts_on_any_channel
    (sw : swath) (shape_x shape_y x y : Z) :
  (0 < shape_x)%Z → (0 < shape_y)%Z → (0 ≤ x)%Z → (0 ≤ y)%Z →
  (x + shape_x < Z.of_nat (dim0 sw))%Z → (y + shape_y < Z.of_nat (dim1 sw))%Z →
  ∃ accepted : bool,
    has_clouds (slice2 sw x (x + shape_x) y (y + shape_y)) shape_x shape_y
      = inr accepted ∧
    (accepted = true ↔
       ∃ c m, c < dim2 sw ∧
         most_frequent_count (channel (slice2 sw x (x + shape_x) y (y + shape_y)) c) m ∧
         (2 * Z.of_nat m < shape_x * shape_y)%Z) ∧
    ((∀ c, c < dim2 sw → ∃ v, ∀ u,
          u ∈ channel (slice2 sw x (x + shape_x) y (y + shape_y)) c → u = v) →
     accepted = false).
Proof.
  intros Hsx Hsy Hx Hy Hbx Hby.
  rewrite slice2_inside by lia.
  set (patch := Ndarray3 _ _ _ _).
  assert (0 < dim0 patch) as H0 by (simpl; lia).
  assert (0 < dim1 patch) as H1 by (simpl; lia).
  destruct (has_clouds_spec patch shape_x shape_y H0 H1) as (b & Hb & Hiff).
  exists b. split; [done|]. split; [done|].
  intros Hconst. destruct b; [|done]. exfalso.
  destruct (proj1 Hiff eq_refl) as (c & m & Hc & Hm & Hlt).
  destruct (Hconst c Hc) as [v Hv].
  apply (most_frequent_count_constant _ v) in Hm; [|by apply channel_nonempty|done].
  rewrite length_channel in Hm. simpl in Hm. nia.
Qed.

Lemma cloud_filter_accepts_on_any_channel_witness :
  (0 < 2)%Z ∧ (0 < 2)%Z ∧ (0 ≤ 0)%Z ∧ (0 ≤ 0)%Z ∧
  (0 + 2 < Z.of_nat (dim0 (np_rollaxis_0_3 half_flat_raster)))%Z ∧
  (0 + 2 < Z.of_nat (dim1 (np_rollaxis_0_3 half_flat_raster)))%Z ∧
  ∃ accepted : bool,
    has_clouds (slice2 (np_rollaxis_0_3 half_flat_raster) 0 (0 + 2) 0 (0 + 2)) 2 2
      = inr accepted ∧
    (accepted = true ↔
       ∃ c m, c < dim2 (np_rollaxis_0_3 half_flat_raster) ∧
         most_frequent_count
           (channel (slice2 (np_rollaxis_0_3 half_flat_raster) 0 (0 + 2) 0 (0 + 2)) c) m ∧
         (2 * Z.of_nat m < 2 * 2)%Z) ∧
    ((∀ c, c < dim2 (np_rollaxis_0_3 half_flat_raster) → ∃ v, ∀ u,
          u ∈ channel (slice2 (np_rollaxis_0_3 half_flat_raster) 0 (0 + 2) 0 (0 + 2)) c →
          u = v) →
     accepted = false).
Proof.
  split_and!; [simpl; lia..|].
  apply (cloud_filter_accepts_on_any_channel (np_rollaxis_0_3 half_flat_raster) 2 2 0 0);
    simpl; lia.
Defined.

(** C1 as the spec states it fails: the patch at (0, 0) of shape 2 by 2 of the
    half-flat swath is accepted, although its first channel is the value 7
    four times over. *)
Lemma cloud_filter_every_channel_counterexample :
  ¬ (has_clouds (slice2 (np_rollaxis_0_3 half_flat_raster) 0 2 0 2) 2 2 = inr true ↔
     ∀ c, c < 2 → ∃ m,
       max_uniq (slice2 (np_rollaxis_0_3 half_flat_raster) 0 2 0 2) c = inr m ∧
       (2 * Z.of_nat m < 2 * 2)%Z).
Proof.
  intros [Hall _].
  destruct (Hall eq_refl 0) as (m & Hm & Hlt); [lia|].
  assert (m = 4) as -> by (by injection Hm).
  lia.
Qed.

(** C2. For a worker count above zero the assignment raises nothing, and the
    files of rank r, for r from 0 to size - 1, are the absolute paths of the
    names at the indices r, r + size, r + 2 size, ... of the list, in that
    order; no index belongs to two ranks; put together over the ranks, the
    subsets are the absolute paths of the list, each index once; when these
    paths differ, no path is given to two ranks; and the sorted list, hence
    the assignment, is the same for every order in which [glob] returns its
    matches. *)
Theorem files_are_partitioned_round_robin `{Ext : Externals}
    (size : Z) (names : list string) :
  (0 < size)%Z →
  (∀ rank, worker_fnames size rank names = inr (assigned size rank names)) ∧
  (∀ rank k, (0 ≤ rank < size)%Z →
     assigned size rank names !! k =
     os_path_abspath <$> names !! (Z.to_nat rank + k * Z.to_nat size)) ∧
  (∀ r r' k k', (0 ≤ r < size)%Z → (0 ≤ r' < size)%Z → r ≠ r' →
     Z.to_nat r + k * Z.to_nat size ≠ Z.to_nat r' + k' * Z.to_nat size) ∧
  concat (map (λ rank, assigned size rank names) (ranks size))
    ≡ₚ map os_path_abspath names ∧
  (NoDup (map os_path_abspath names) →
   ∀ r r' name, (0 ≤ r < size)%Z → (0 ≤ r' < size)%Z → r ≠ r' →
     name ∈ assigned size r names → name ∉ assigned size r' names) ∧
  (∀ globbed globbed' rank, globbed ≡ₚ globbed' →
     worker_fnames size rank (sorted globbed) = worker_fnames size rank (sorted globbed')).
Proof.
  intros Hsize. split; [intros; by apply worker_fnames_ok|].
  split; [intros; by apply assigned_lookup|].
  split.
  { intros r r' k k' Hr Hr' Hne Heq. apply Hne.
    assert (k = k') by nia. subst k'. lia. }
  split; [by apply assigned_partition|].
  split.
  - intros Hnd r r' name Hr Hr' Hne. by apply assigned_disjoint.
  - intros globbed globbed' rank Hperm. by rewrite (sorted_order_independent _ _ Hperm).
Qed.

Lemma files_are_partitioned_round_robin_witness :
  (0 < 2)%Z ∧
  assigned (Ext := demo) 2 0 (sorted (glob_glob "*")) = ["/data/a.tif"; "/data/half_flat.tif"] ∧
  assigned (Ext := demo) 2 1 (sorted (glob_glob "*")) = ["/data/bad.tif"] ∧
  concat (map (λ rank, assigned (Ext := demo) 2 rank (sorted (glob_glob "*"))) (ranks 2))
    ≡ₚ map os_path_abspath (sorted (glob_glob "*")).
Proof.
  split; [lia|]. split; [reflexivity|]. split; [reflexivity|].
  apply (files_are_partitioned_round_robin (Ext := demo) 2 (sorted (glob_glob "*"))). lia.
Defined.

(** C3. For strides above zero and a patch shape that is not negative, the
    candidate coordinates of a swath of height H and width W are, each once,
    exactly the points (x, y) of the stride grid from (0, 0) with
    x + shape_x < H and y + shape_y < W, so that an offset with
    x + shape_x = H or y + shape_y = W is left out; and every coordinate
    that [gen_patches] yields is such a point of the swath it comes from. *)
Theorem patch_coordinates_strictly_inside `{Ext : Externals}
    (swaths : run (string * swath)) (shape_x shape_y stride_x stride_y : Z) (g : rng) :
  (0 < stride_x)%Z → (0 < stride_y)%Z → (0 ≤ shape_x)%Z → (0 ≤ shape_y)%Z →
  (∀ sw : swath, ∃ coords,
      candidate_coords sw (shape_x, shape_y) (stride_x, stride_y) = inr coords ∧
      NoDup coords ∧
      ∀ x y, (x, y) ∈ coords ↔
        on_grid stride_x stride_y x y ∧
        (x + shape_x < Z.of_nat (dim0 sw))%Z ∧ (y + shape_y < Z.of_nat (dim1 sw))%Z) ∧
  (∀ p, p ∈ yields (gen_patches swaths (shape_x, shape_y) (stride_x, stride_y) g).1 →
      ∃ sw, (p_fname p, sw) ∈ yields swaths ∧
        on_grid stride_x stride_y (p_coord p).1 (p_coord p).2 ∧
        ((p_coord p).1 + shape_x < Z.of_nat (dim0 sw))%Z ∧
        ((p_coord p).2 + shape_y < Z.of_nat (dim1 sw))%Z).
Proof.
  intros Hsx Hsy Hpx Hpy. split.
  - intros sw. by apply candidate_coords_spec.
  - intros p Hp.
    apply gen_patches_yields in Hp as (sw & coords & Hsw & Hcoords & Hin & _).
    exists sw. split; [done|].
    destruct (candidate_coords_spec sw shape_x shape_y stride_x stride_y)
      as (coords' & Hcoords' & _ & Hiff); [done..|].
    rewrite Hcoords in Hcoords'. injection Hcoords' as <-.
    destruct (p_coord p) as [x y]. by apply Hiff.
Qed.

Lemma patch_coordinates_strictly_inside_witness :
  (0 < 64)%Z ∧ (0 < 64)%Z ∧ (0 ≤ 64)%Z ∧ (0 ≤ 64)%Z ∧
  (∀ sw : swath, ∃ coords,
      candidate_coords sw (64, 64)%Z (64, 64)%Z = inr coords ∧
      NoDup coords ∧
      ∀ x y, (x, y) ∈ coords ↔
        on_grid 64 64 x y ∧
        (x + 64 < Z.of_nat (dim0 sw))%Z ∧ (y + 64 < Z.of_nat (dim1 sw))%Z) ∧
  (∀ p, p ∈ yields (gen_patches (gen_swaths 0 ["/data/a.tif"] "mod09_tif" None)
                                (64, 64)%Z (64, 64)%Z 0).1 →
      ∃ sw, (p_fname p, sw) ∈ yields (gen_swaths 0 ["/data/a.tif"] "mod09_tif" None) ∧
        on_grid 64 64 (p_coord p).1 (p_coord p).2 ∧
        ((p_coord p).1 + 64 < Z.of_nat (dim0 sw))%Z ∧
        ((p_coord p).2 + 64 < Z.of_nat (dim1 sw))%Z).
Proof.
  split_and!; [lia..| |];
    apply (patch_coordinates_strictly_inside (Ext := demo)
             (gen_swaths 0 ["/data/a.tif"] "mod09_tif" None) 64 64 64 64 0); lia.
Defined.

(** C4. For K above zero and a stream that yields N patches, [write_patches]
    raises nothing of its own, and it prints, at the patch of count i, the
    line that it writes to the record named from the rank and i / K exactly
    when i mod K = 0, and then the line that it wrote i + 1 patches. The
    records it opens are, in order, those of index 0 to ceil(N / K) - 1; their
    paths differ; the record of index j holds the examples of the patches of
    count j K to j K + K - 1 in order, K of them if j < N / K and N mod K of
    them in the last record otherwise; every other file is as it was. *)
Theorem shards_hold_K_patches_each
    (rank : Z) (patches : run patch_item) (out_dir : string) (K : Z)
    (fs : gmap string (list example)) (out : list event) :
  (0 < K)%Z →
  ∃ s, write_patches rank patches out_dir K fs out = (s, raised patches) ∧
    stdout s = out ++ sharder_output rank K 0 (steps patches) ∧
    omap opened_record (sharder_output rank K 0 (map inr (yields patches))) =
      map (λ j, record_name rank (Z.of_nat j))
          (seq 0 (ceil_div (length (yields patches)) K)) ∧
    (∀ j j', shard_path rank out_dir j = shard_path rank out_dir j' → j = j') ∧
    (∀ j, j < ceil_div (length (yields patches)) K →
       files s !! shard_path rank out_dir j = Some (shard (yields patches) K j) ∧
       length (shard (yields patches) K j) =
         if decide (j < length (yields patches) / Z.to_nat K) then Z.to_nat K
         else length (yields patches) mod Z.to_nat K) ∧
    (∀ p, (∀ j, j < ceil_div (length (yields patches)) K → p ≠ shard_path rank out_dir j) →
       files s !! p = fs !! p).
Proof.
  intros HK.
  destruct (write_patches_spec rank patches out_dir K fs out HK)
    as (s & Hs & Hstd & Hin & Hout).
  exists s. split; [done|]. split; [done|]. split.
  { rewrite sharder_output_patches. by apply opened_expected. }
  split; [apply shard_path_inj|]. split; [|done].
  intros j Hj. split; [by apply Hin|]. by apply length_shard.
Qed.

Lemma shards_hold_K_patches_each_witness :
  (0 < 2)%Z ∧
  ∃ s, write_patches 3 (Run [inr (PatchItem "a" (0, 0)%Z (Ndarray3 0 0 0 (λ _ _ _, S754_nan)));
                             inl (Reading 3 "b");
                             inr (PatchItem "b" (0, 0)%Z (Ndarray3 0 0 0 (λ _ _ _, S754_nan)));
                             inr (PatchItem "b" (0, 1)%Z (Ndarray3 0 0 0 (λ _ _ _, S754_nan)))]
                            None) "/out" 2 ∅ [] = (s, None) ∧
    stdout s = [WritingTo "3-0.tfrecord"; Wrote 3 1; Reading 3 "b"; Wrote 3 2;
                WritingTo "3-1.tfrecord"; Wrote 3 3] ∧
    length <$> files s !! "/out/3-0.tfrecord" = Some 2 ∧
    length <$> files s !! "/out/3-1.tfrecord" = Some 1.
Proof.
  split; [lia|].
  destruct (shards_hold_K_patches_each 3
    (Run [inr (PatchItem "a" (0, 0)%Z (Ndarray3 0 0 0 (λ _ _ _, S754_nan)));
          inl (Reading 3 "b");
          inr (PatchItem "b" (0, 0)%Z (Ndarray3 0 0 0 (λ _ _ _, S754_nan)));
          inr (PatchItem "b" (0, 1)%Z (Ndarray3 0 0 0 (λ _ _ _, S754_nan)))] None)
    "/out" 2 ∅ [] ltac:(lia)) as (s & Hs & Hstd & _ & _ & Hin & _).
  exists s. split; [exact Hs|]. split; [exact Hstd|]. split.
  - destruct (Hin 0) as [H0 _]; [cbv; lia|]. exact (f_equal (fmap length) H0).
  - destruct (Hin 1) as [H1 _]; [cbv; lia|]. exact (f_equal (fmap length) H1).
Defined.

(** C5. No patch that [gen_patches] yields has a not-a-number element; and a
    coordinate whose normalised patch has one yields nothing. *)
Theorem nan_patches_are_not_yielded `{Ext : Externals}
    (swaths : run (string * swath)) (shape strides : Z * Z) (g : rng) :
  (∀ p, p ∈ yields (gen_patches swaths shape strides g).1 →
     ∀ i j c, i < dim0 (p_patch p) → j < dim1 (p_patch p) → c < dim2 (p_patch p) →
       np_isnan (item (p_patch p) i j c) = false) ∧
  (∀ fname sw xy,
     isnan_any (normalize (slice2 sw xy.1 (xy.1 + shape.1) xy.2 (xy.2 + shape.2))
                          (np_mean sw) (np_std sw)) = true →
     extract_patch fname sw (np_mean sw) (np_std sw) shape xy = inr None ∨
     ∃ e, extract_patch fname sw (np_mean sw) (np_std sw) shape xy = inl e).
Proof.
  split.
  - intros p Hp. apply yielded_patch_normalized in Hp as (sw & _ & _ & Hnan).
    by apply isnan_any_false.
  - intros fname sw xy Hnan.
    destruct (extract_patch fname sw (np_mean sw) (np_std sw) shape xy)
      as [e|[p|]] eqn:Hx; [by right; exists e| |by left].
    apply extract_patch_some in Hx as (_ & Hnone & _). congruence.
Qed.

(** The flat swath: its first channel has std zero, every normalised patch
    has 0/0 there, and nothing is yielded. *)
Example flat_swath_yields_nothing :
  yields (gen_patches (Ext := demo) (gen_swaths 0 ["/data/flat.tif"] "mod09_tif" None)
                      (2, 2)%Z (1, 1)%Z 0).1 = [] ∧
  isnan_any (normalize (slice2 (np_rollaxis_0_3 flat_raster) 0 2 0 2)
                       (np_mean (np_rollaxis_0_3 flat_raster))
                       (np_std (np_rollaxis_0_3 flat_raster))) = true.
Proof. split; reflexivity. Qed.

(** The half-flat swath: the patch at (0, 0), whose first channel is
    constant, is yielded. *)
Example half_flat_patch_is_yielded :
  map p_coord
    (yields (gen_patches (Ext := demo) (gen_swaths 0 ["/data/half_flat.tif"] "mod09_tif" None)
                         (2, 2)%Z (1, 1)%Z 0).1) = [(0, 0)%Z].
Proof. reflexivity. Qed.

(** In float32 the recombination [x * std + mean] need not give back the
    sample bit for bit: with mean 1/3 and std 22/7 the sample 2 comes back as
    its neighbour below. *)
Example recombination_is_not_exact :
  recombine 2 (f32_div (astype_float32 1) (astype_float32 3))
              (f32_div (astype_float32 22) (astype_float32 7))
    = S754_finite false 16777215 (-23) ∧
  astype_float32 2 = S754_finite false 8388608 (-22).
Proof. split; reflexivity. Qed.




(** C8. One worker (rank 0 of 1) whose glob matches one file, read in mode
    mod09_tif as a raster of 2 bands of 256 by 256 samples that differ within
    each band, with a finite mean and a finite std that is not zero for each
    band; patches of 64 by 64 every 64 pixels, 4 patches per record, no
    resize. The candidate coordinates are the nine points of
    {0, 64, 128} x {0, 64, 128}; a patch is yielded at each of them, in the
    order the shuffle gives; the run ends without an exception; and it opens
    the records 0-0, 0-1 and 0-2, which hold the first four patches, the next
    four and the last one, and touches no other file. *)
Theorem end_to_end_scenario `{Ext : Externals}
    (interactive_writer :
       run patch_item → list string → string →
       gmap string (list example) → list event → wstate * option exn)
    (pattern out name : string) (raw : ndarray3 Z)
    (fs : gmap string (list example)) (g : rng) :
  glob_glob pattern = [name] →
  gdal_ReadAsArray (os_path_abspath name) = inr raw →
  dim0 raw = 2 → dim1 raw = 256 → dim2 raw = 256 →
  (∀ c i j i' j', c < 2 → i < 256 → i' < 256 → j < 256 → j' < 256 →
     item raw c i j = item raw c i' j' → i = i' ∧ j = j') →
  (∀ c, c < 2 →
     is_finite (np_mean (np_rollaxis_0_3 raw) c) = true ∧
     is_finite (np_std (np_rollaxis_0_3 raw) c) = true ∧
     is_zero (np_std (np_rollaxis_0_3 raw) c) = false) →
  candidate_coords (np_rollaxis_0_3 raw) (64, 64)%Z (64, 64)%Z = inr grid9 ∧
  ∃ ps : list patch_item,
    map p_coord ps ≡ₚ grid9 ∧
    Forall (λ p, p_fname p = os_path_abspath name) ps ∧
    let o := main interactive_writer 1 0
               (Flags pattern out "mod09_tif" (64, 64)%Z None (64, 64)%Z 4 None) fs g in
    o_raised o = None ∧
    omap opened_record (o_stdout o) = ["0-0.tfrecord"; "0-1.tfrecord"; "0-2.tfrecord"] ∧
    o_files o !! os_path_join out "0-0.tfrecord" = Some (map make_example (take 4 ps)) ∧
    o_files o !! os_path_join out "0-1.tfrecord"
      = Some (map make_example (take 4 (drop 4 ps))) ∧
    o_files o !! os_path_join out "0-2.tfrecord" = Some (map make_example (drop 8 ps)) ∧
    length (take 4 ps) = 4 ∧ length (take 4 (drop 4 ps)) = 4 ∧ length (drop 8 ps) = 1 ∧
    (∀ p, p ≠ os_path_join out "0-0.tfrecord" → p ≠ os_path_join out "0-1.tfrecord" →
          p ≠ os_path_join out "0-2.tfrecord" → o_files o !! p = fs !! p).
Proof.
  intros Hglob Hread Hd0 Hd1 Hd2 Hinj Hstats.
  set (sw := np_rollaxis_0_3 raw) in *. set (t := os_path_abspath name).
  assert (dim0 sw = 256 ∧ dim1 sw = 256 ∧ dim2 sw = 2) as (Hs0 & Hs1 & Hs2) by done.
  pose proof (candidate_coords_256 sw Hs0 Hs1) as Hcoords.
  split; [done|].
  pose proof (np_random_shuffle_perm g grid9) as Hperm.
  destruct (np_random_shuffle g grid9) as [coords' g'] eqn:Hshuffle. simpl in Hperm.
  set (mk := λ xy : Z * Z,
         PatchItem t xy (normalize (slice2 sw xy.1 (xy.1 + 64) xy.2 (xy.2 + 64))
                                   (np_mean sw) (np_std sw))).
  exists (map mk coords').
  assert (length coords' = 9) as Hlen by (by rewrite Hperm).
  split; [by rewrite map_map, map_id|].
  split; [apply Forall_forall; intros p (xy & -> & _)%list_elem_of_fmap; done|].
  (* the patches *)
  assert (patches_loop t sw (np_mean sw) (np_std sw) (64, 64)%Z coords' =
          Run (map inr (map mk coords')) None) as Hloop.
  { assert (omap (λ xy, Some (mk xy)) coords' = map mk coords') as <-.
    { clear. induction coords' as [|xy l IH]; simpl; [done|]. by f_equal. }
    apply patches_loop_total.
    intros [x y] Hxy. rewrite Hperm in Hxy.
    assert (0 ≤ x ≤ 128 ∧ 0 ≤ y ≤ 128)%Z as [Hx Hy].
    { unfold grid9 in Hxy. set_unfold in Hxy.
      destruct Hxy as [[= -> ->]|[[= -> ->]|[[= -> ->]|[[= -> ->]|[[= -> ->]|
        [[= -> ->]|[[= -> ->]|[[= -> ->]|[[= -> ->]|[]]]]]]]]]]; lia. }
    apply (extract_patch_distinct t sw 64 64 x y 0); try lia.
    - intros i j i' j' Hi Hi' Hj Hj'. apply Hinj; lia.
    - intros c Hc. apply Hstats. lia. }
  (* the run of main *)
  unfold main. cbn [source_glob mode resize shape stride out_dir patches_per_record
                    interactive_categories].
  rewrite Hglob.
  assert (worker_fnames 1 0 (sorted [name]) = inr [t]) as -> by done.
  assert (gen_swaths 0 [t] "mod09_tif" None = Run [inl (Reading 0 t); inr (t, sw)] None) as ->.
  { unfold gen_swaths. change (reader "mod09_tif") with (inr gdOpen : result _).
    cbn [swaths_loop]. unfold gdOpen at 1. fold t in Hread. rewrite Hread. done. }
  unfold gen_patches. cbn [steps patches_of_steps]. unfold swath_patches.
  rewrite Hcoords, Hshuffle, Hloop. cbn [raised steps after app].
  destruct (write_patches_spec 0
              (Run (inl (Reading 0 t) :: map inr (map mk coords')) None) out 4 fs [])
    as (s & Hs & Hstd & Hin & Hout); [lia|].
  rewrite app_nil_r. rewrite Hs. cbn [raised o_raised o_stdout o_files].
  assert (yields (Run (inl (Reading 0 t) :: map inr (map mk coords')) None) = map mk coords')
    as Hyields by apply map_inr_steps.
  rewrite Hyields, length_map, Hlen in Hin, Hout.
  split; [done|]. split.
  { rewrite Hstd, omap_app. cbn [steps sharder_output app omap list_omap opened_record].
    rewrite sharder_output_patches, (opened_expected 0 4) by lia.
    rewrite length_map, Hlen. reflexivity. }
  pose proof (Hin 0 ltac:(cbv; lia)) as H0.
  pose proof (Hin 1 ltac:(cbv; lia)) as H1.
  pose proof (Hin 2 ltac:(cbv; lia)) as H2.
  split; [exact H0|]. split; [exact H1|]. split.
  { etrans; [exact H2|]. unfold shard. do 2 f_equal.
    apply take_ge. rewrite length_drop, length_map. lia. }
  rewrite length_take, !length_drop, !length_map, length_take, length_drop, length_map, Hlen.
  split; [done|]. split; [done|]. split; [done|].
  intros p Hp0 Hp1 Hp2. apply Hout. intros j Hj.
  assert (j < 3) as Hj3 by exact Hj.
  destruct j as [|[|[|j]]]; [exact Hp0|exact Hp1|exact Hp2|lia].
Qed.

Lemma end_to_end_scenario_witness :
  glob_glob (Externals := demo) "*.tif" = ["a.tif"] ∧
  gdal_ReadAsArray (Externals := demo) (os_path_abspath "a.tif") = inr distinct_raster ∧
  dim0 distinct_raster = 2 ∧ dim1 distinct_raster = 256 ∧ dim2 distinct_raster = 256 ∧
  (∀ c i j i' j', c < 2 → i < 256 → i' < 256 → j < 256 → j' < 256 →
     item distinct_raster c i j = item distinct_raster c i' j' → i = i' ∧ j = j') ∧
  (∀ c, c < 2 →
     is_finite (np_mean (Externals := demo) (np_rollaxis_0_3 distinct_raster) c) = true ∧
     is_finite (np_std (Externals := demo) (np_rollaxis_0_3 distinct_raster) c) = true ∧
     is_zero (np_std (Externals := demo) (np_rollaxis_0_3 distinct_raster) c) = false) ∧
  ∃ ps : list patch_item,
    map p_coord ps ≡ₚ grid9 ∧
    o_raised (main (Ext := demo) no_interactive 1 0
                (Flags "*.tif" "/out" "mod09_tif" (64, 64)%Z None (64, 64)%Z 4 None) ∅ 0)
      = None ∧
    omap opened_record
      (o_stdout (main (Ext := demo) no_interactive 1 0
                   (Flags "*.tif" "/out" "mod09_tif" (64, 64)%Z None (64, 64)%Z 4 None) ∅ 0))
      = ["0-0.tfrecord"; "0-1.tfrecord"; "0-2.tfrecord"] ∧
    o_files (main (Ext := demo) no_interactive 1 0
               (Flags "*.tif" "/out" "mod09_tif" (64, 64)%Z None (64, 64)%Z 4 None) ∅ 0)
      !! "/out/0-2.tfrecord" = Some (map make_example (drop 8 ps)) ∧
    length (drop 8 ps) = 1.
Proof.
  assert (∀ c i j i' j', c < 2 → i < 256 → i' < 256 → j < 256 → j' < 256 →
     item distinct_raster c i j = item distinct_raster c i' j' → i = i' ∧ j = j') as Hinj.
  { intros c i j i' j' Hc Hi Hi' Hj Hj'. simpl. lia. }
  assert (∀ c, c < 2 →
     is_finite (np_mean (Externals := demo) (np_rollaxis_0_3 distinct_raster) c) = true ∧
     is_finite (np_std (Externals := demo) (np_rollaxis_0_3 distinct_raster) c) = true ∧
     is_zero (np_std (Externals := demo) (np_rollaxis_0_3 distinct_raster) c) = false) as Hstats.
  { intros [|[|c]] Hc; [split_and!; reflexivity..|lia]. }
  split_and!; [reflexivity..|exact Hinj|exact Hstats|].
  destruct (end_to_end_scenario (Ext := demo) no_interactive "*.tif" "/out" "a.tif"
              distinct_raster ∅ 0 eq_refl eq_refl eq_refl eq_refl eq_refl Hinj Hstats)
    as (_ & ps & Hperm & _ & Hraised & Hopened & _ & _ & H2 & _ & _ & Hlen & _).
  exists ps. split_and!; [exact Hperm|exact Hraised|exact Hopened|exact H2|exact Hlen].
Defined.

(** C9. A worker whose assigned files are none raises the [ValueError] of an
    unmatched glob before it reads or writes anything; this is so of every
    rank from the number of matched files on, when the pool is larger than
    that number, also when the glob did match files. *)
Theorem empty_assignment_aborts_worker `{Ext : Externals}
    (interactive_writer :
       run patch_item → list string → string →
       gmap string (list example) → list event → wstate * option exn)
    (size rank : Z) (FLAGS : flags) (fs : gmap string (list example)) (g : rng) :
  (0 < size)%Z →
  assigned size rank (sorted (glob_glob (source_glob FLAGS))) = [] ∨
  (Z.of_nat (length (glob_glob (source_glob FLAGS))) ≤ rank < size)%Z →
  assigned size rank (sorted (glob_glob (source_glob FLAGS))) = [] ∧
  main interactive_writer size rank FLAGS fs g =
  Outcome fs [] (Some (ValueError "source_glob does not match any files")) g.
Proof.
  intros Hsize Hcase.
  assert (assigned size rank (sorted (glob_glob (source_glob FLAGS))) = []) as Hnone.
  { destruct Hcase as [|Hr]; [done|]. apply assigned_out_of_files; [done|].
    by rewrite (Permutation_length (sorted_perm _)). }
  split; [done|]. apply main_raises_on_no_files.
  by rewrite worker_fnames_ok, Hnone.
Qed.

Lemma empty_assignment_aborts_worker_witness :
  (0 < 2)%Z ∧
  (assigned (Ext := demo) 2 1 (sorted (glob_glob (source_glob demo_flags))) = [] ∨
   (Z.of_nat (length (glob_glob (Externals := demo) (source_glob demo_flags))) ≤ 1 < 2)%Z) ∧
  glob_glob (Externals := demo) (source_glob demo_flags) = ["a.tif"] ∧
  main (Ext := demo) no_interactive 2 1 demo_flags ∅ 0 =
  Outcome ∅ [] (Some (ValueError "source_glob does not match any files")) 0.
Proof.
  assert (assigned (Ext := demo) 2 1 (sorted (glob_glob (source_glob demo_flags))) = [] ∨
   (Z.of_nat (length (glob_glob (Externals := demo) (source_glob demo_flags))) ≤ 1 < 2)%Z) as H.
  { right. simpl. lia. }
  split; [lia|]. split; [exact H|]. split; [reflexivity|].
  apply (empty_assignment_aborts_worker (Ext := demo) no_interactive 2 1 demo_flags ∅ 0); [lia|exact H].
Defined.

(** C10. On a stream that yields no patch, [write_patches] opens no record and
    leaves the files as they were, whatever [patches_per_record] is; it only
    passes on what the stream printed. *)
Theorem no_patches_no_shard
    (rank : Z) (patches : run patch_item) (out_dir : string) (K : Z)
    (fs : gmap string (list example)) (out : list event) :
  yields patches = [] →
  ∃ s, write_patches rank patches out_dir K fs out = (s, raised patches) ∧
    files s = fs ∧ f s = None ∧
    stdout s = out ++ printed patches ∧
    omap opened_record (stdout s) = omap opened_record out ++ omap opened_record (printed patches).
Proof.
  intros Hnone. unfold write_patches.
  rewrite write_loop_no_patches by done. simpl.
  eexists. split; [reflexivity|]. simpl. split; [done|]. split; [done|]. split; [done|].
  apply omap_app.
Qed.

Lemma no_patches_no_shard_witness :
  yields (Run [inl (Reading 0 "/data/flat.tif")] None : run patch_item) = [] ∧
  ∃ s, write_patches 0 (Run [inl (Reading 0 "/data/flat.tif")] None) "/out" 4 ∅ [] = (s, None) ∧
       files s = ∅ ∧ omap opened_record (stdout s) = [].
Proof.
  split; [reflexivity|].
  destruct (no_patches_no_shard 0 (Run [inl (Reading 0 "/data/flat.tif")] None) "/out" 4 ∅ []
              eq_refl) as (s & Hs & Hfiles & _ & _ & Hopened).
  exists s. split; [exact Hs|]. split; [exact Hfiles|exact Hopened].
Defined.

(** * Further properties of the code *)

(** ** read_hdf *)

Lemma take_bands_inr (src : ndarray3 Z) (idxs : list nat) (a : ndarray3 Z) :
  take_bands src idxs = inr a ↔
  Forall (λ k, k < dim0 src) idxs ∧
  a = Ndarray3 (length idxs) (dim1 src) (dim2 src) (λ k i j, item src (nth k idxs 0) i j).
Proof.
  unfold take_bands. destruct (forallb _ idxs) eqn:Hall.
  - rewrite forallb_forall in Hall. split.
    + intros [= <-]. split; [|done]. apply Forall_forall. intros k Hk.
      apply list_elem_of_In, Hall in Hk. by apply Nat.ltb_lt in Hk.
    + intros [_ ->]. done.
  - split; [done|]. intros [Hf _]. exfalso.
    assert (forallb (λ k, k <? dim0 src) idxs = true); [|congruence].
    apply forallb_forall. intros k Hk. apply Nat.ltb_lt.
    rewrite Forall_forall in Hf. by apply Hf, list_elem_of_In.
Qed.

Lemma select_fields_length hdf fields arrs :
  select_fields hdf fields = inr arrs → length arrs = length fields.
Proof.
  revert arrs. induction fields as [|[f idxs] rest IH]; intros arrs; simpl.
  - by intros [= <-].
  - destruct (hdf f) as [e|src]; simpl; [done|].
    destruct (take_bands src idxs) as [e|bands]; simpl; [done|].
    destruct (select_fields hdf rest) as [e|others]; simpl; [done|].
    intros [= <-]. simpl. f_equal. by apply IH.
Qed.

(** Stacking: the leading axis of the result lists the (field, band) pairs. *)
Lemma stack_fields_spec (hdf : string → result (ndarray3 Z))
    (fields : list (string * list nat)) (a : ndarray3 Z) :
  (let* sw := select_fields hdf fields in np_concatenate_0 sw) = inr a →
  fields ≠ [] ∧
  dim0 a = length (flat_bands fields) ∧
  ∀ k f b, flat_bands fields !! k = Some (f, b) →
    ∃ src, hdf f = inr src ∧ b < dim0 src ∧
           dim1 src = dim1 a ∧ dim2 src = dim2 a ∧
           ∀ i j, item a k i j = item src b i j.
Proof.
  revert a. induction fields as [|[f idxs] rest IH]; intros a; [done|].
  cbn [select_fields flat_bands flat_map fst snd]. intros Hrun. split; [done|].
  destruct (hdf f) as [e|src] eqn:Hf; simpl in Hrun; [done|].
  destruct (take_bands src idxs) as [e|bands] eqn:Hb; simpl in Hrun; [done|].
  apply take_bands_inr in Hb as [Hidx ->].
  destruct (select_fields hdf rest) as [e|others] eqn:Hsel; simpl in Hrun; [done|].
  assert (∀ k b, map (pair f) idxs !! k = Some (f, b) →
            b < dim0 src ∧ k < length idxs ∧ nth k idxs 0 = b) as Hhere.
  { intros k b Hk. rewrite list_lookup_fmap in Hk.
    destruct (idxs !! k) as [b'|] eqn:Hk'; [|done]. injection Hk as ->.
    rewrite Forall_forall in Hidx. split; [eapply Hidx, list_elem_of_lookup_2, Hk'|].
    split; [by eapply lookup_lt_Some|]. by apply nth_lookup_Some with (d := 0) in Hk'. }
  destruct others as [|o os].
  - (* the last field *)
    injection Hrun as <-. apply select_fields_length in Hsel.
    destruct rest; [|done]. simpl. rewrite app_nil_r, length_map. split; [done|].
    intros k f' b Hk. pose proof Hk as Hk0.
    apply list_elem_of_lookup_2, list_elem_of_fmap in Hk0 as (b' & [= -> ->] & _).
    destruct (Hhere k b' Hk) as (Hlt & _ & Hnth).
    exists src. split; [done|]. split; [done|]. split; [done|]. split; [done|].
    intros i j. simpl. by rewrite Hnth.
  - (* more fields follow *)
    destruct (np_concatenate_0 (o :: os)) as [e|rest_a] eqn:Hcat; simpl in Hrun; [done|].
    destruct (IH rest_a) as (_ & Hdim & Hmap).
    { simpl. exact Hcat. }
    simpl in Hrun. case_bool_decide as Hdims; [|done]. destruct Hdims as [Hd1 Hd2].
    injection Hrun as <-. simpl in Hd1, Hd2. simpl.
    rewrite length_app, length_map, Hdim. split; [done|].
    intros k f' b Hk. destruct (decide (k < length idxs)) as [Hlt|Hge].
    + rewrite lookup_app_l in Hk by by rewrite length_map.
      pose proof Hk as Hk0.
      apply list_elem_of_lookup_2, list_elem_of_fmap in Hk0 as (b' & [= -> ->] & _).
      destruct (Hhere k b' Hk) as (Hb & _ & Hnth).
      exists src. split; [done|]. split; [done|]. split; [done|]. split; [done|].
      intros i j. apply Nat.ltb_lt in Hlt. rewrite Hlt. by rewrite Hnth.
    + rewrite lookup_app_r in Hk by (rewrite length_map; lia).
      rewrite length_map in Hk.
      destruct (Hmap _ _ _ Hk) as (src' & Hf' & Hb & Hs1 & Hs2 & Hitem).
      exists src'. split; [done|]. split; [done|].
      split; [congruence|]. split; [congruence|].
      intros i j. assert ((k <? length idxs) = false) as -> by (apply Nat.ltb_ge; lia).
      apply Hitem.
Qed.

Lemma np_concatenate_0_cons2 (a o : ndarray3 Z) (os : list (ndarray3 Z)) :
  np_concatenate_0 (a :: o :: os) =
  let* b := np_concatenate_0 (o :: os) in
  if bool_decide (dim1 a = dim1 b ∧ dim2 a = dim2 b) then
    ret (Ndarray3 (dim0 a + dim0 b) (dim1 a) (dim2 a)
           (λ k i j, if k <? dim0 a then item a k i j else item b (k - dim0 a) i j))
  else raise (ValueError "all the input array dimensions must match").
Proof. reflexivity. Qed.

Lemma stack_fields_inv (hdf : string → result (ndarray3 Z))
    (fields : list (string * list nat)) (a : ndarray3 Z) :
  (let* sw := select_fields hdf fields in np_concatenate_0 sw) = inr a →
  Forall (λ fi, ∃ src, hdf fi.1 = inr src ∧ Forall (λ k, k < dim0 src) fi.2 ∧
                       dim1 src = dim1 a ∧ dim2 src = dim2 a) fields.
Proof.
  revert a. induction fields as [|[f idxs] rest IH]; intros a; [done|].
  cbn [select_fields]. intros Hrun.
  destruct (hdf f) as [e|src] eqn:Hf; simpl in Hrun; [done|].
  destruct (take_bands src idxs) as [e|bands] eqn:Hb; simpl in Hrun; [done|].
  apply take_bands_inr in Hb as [Hidx ->].
  destruct (select_fields hdf rest) as [e|others] eqn:Hsel; simpl in Hrun; [done|].
  destruct others as [|o os].
  - injection Hrun as <-. apply select_fields_length in Hsel.
    destruct rest; [|done]. constructor; [|done]. exists src. done.
  - destruct (np_concatenate_0 (o :: os)) as [e|rest_a] eqn:Hcat; simpl in Hrun; [done|].
    simpl in Hrun. case_bool_decide as Hdims; [|done]. destruct Hdims as [Hd1 Hd2].
    injection Hrun as <-. simpl in Hd1, Hd2. constructor.
    + exists src. done.
    + eapply Forall_impl; [apply (IH rest_a); simpl; exact Hcat|].
      intros fi (src' & ? & ? & ? & ?). exists src'. simpl. split_and!; [done..|congruence|congruence].
Qed.

Lemma stack_fields_ok (hdf : string → result (ndarray3 Z))
    (fields : list (string * list nat)) (h w : nat) :
  fields ≠ [] →
  Forall (λ fi, ∃ src, hdf fi.1 = inr src ∧ Forall (λ k, k < dim0 src) fi.2 ∧
                       dim1 src = h ∧ dim2 src = w) fields →
  ∃ a, (let* sw := select_fields hdf fields in np_concatenate_0 sw) = inr a ∧
       dim1 a = h ∧ dim2 a = w.
Proof.
  induction fields as [|[f idxs] rest IH]; [done|]. intros _ Hall.
  apply Forall_cons in Hall as [(src & Hf & Hidx & Hh & Hw) Hall]. simpl in Hf, Hidx.
  cbn [select_fields]. rewrite Hf. simpl.
  assert (take_bands src idxs = inr (Ndarray3 (length idxs) (dim1 src) (dim2 src)
            (λ k i j, item src (nth k idxs 0) i j))) as -> by (by apply take_bands_inr).
  simpl. destruct rest as [|fi rest'].
  - simpl. eexists. split; [reflexivity|]. done.
  - destruct IH as (rest_a & Hrun & Hh' & Hw'); [done|done|].
    destruct (select_fields hdf (fi :: rest')) as [e|others] eqn:Hsel; [done|].
    simpl in Hrun. pose proof (select_fields_length _ _ _ Hsel) as Hlen.
    destruct others as [|o os]; [done|]. cbn [bind ret].
    rewrite np_concatenate_0_cons2, Hrun. cbn [bind].
    rewrite bool_decide_eq_true_2 by (simpl; split; congruence).
    eexists. split; [reflexivity|]. done.
Qed.

Lemma read_hdf_stacks_selected_bands_aux `{Ext : Externals}
    (hdf_file : string) (fields : list (string * list nat)) (a : ndarray3 Z) :
  read_hdf hdf_file fields = inr a →
  ∃ hdf, SD_open hdf_file = inr hdf ∧
    dim0 a = length (flat_bands fields) ∧
    ∀ k f b, flat_bands fields !! k = Some (f, b) →
      ∃ src, hdf f = inr src ∧ b < dim0 src ∧
             dim1 src = dim1 a ∧ dim2 src = dim2 a ∧
             ∀ i j, item a k i j = item src b i j.
Proof.
  unfold read_hdf. intros Hrun.
  destruct (SD_open hdf_file) as [e|hdf]; simpl in Hrun; [done|].
  exists hdf. split; [done|].
  by destruct (stack_fields_spec hdf fields a Hrun) as (_ & ? & ?).
Qed.

(** X1. A swath that [read_hdf] returns lists, along its leading axis, the
    selected bands of the fields in the order of the field table: position k
    holds band b of field f for the k-th pair (f, b), read from a file that
    opened, and all fields share the two other extents of the result. *)
Theorem read_hdf_stacks_selected_bands `{Ext : Externals}
    (hdf_file : string) (fields : list (string * list nat)) (a : ndarray3 Z) :
  read_hdf hdf_file fields = inr a →
  ∃ hdf, SD_open hdf_file = inr hdf ∧
    dim0 a = length (flat_bands fields) ∧
    ∀ k f b, flat_bands fields !! k = Some (f, b) →
      ∃ src, hdf f = inr src ∧ b < dim0 src ∧
             dim1 src = dim1 a ∧ dim2 src = dim2 a ∧
             ∀ i j, item a k i j = item src b i j.
Proof.
  unfold read_hdf. intros Hrun.
  destruct (SD_open hdf_file) as [e|hdf]; simpl in Hrun; [done|].
  exists hdf. split; [done|].
  by destruct (stack_fields_spec hdf fields a Hrun) as (_ & ? & ?).
Qed.

Lemma read_hdf_stacks_selected_bands_witness :
  (∃ a, read_hdf (Ext := demo_hdf) "/data/granule.hdf" names_1km = inr a ∧
        dim0 a = 23 ∧ dim1 a = 4 ∧ dim2 a = 5 ∧
        flat_bands names_1km !! 16 = Some ("EV_1KM_RefSB", 13) ∧
        item a 16 2 3 = item (hdf_dataset 15 3) 13 2 3).
Proof.
  destruct (read_hdf (Ext := demo_hdf) "/data/granule.hdf" names_1km) as [e|a] eqn:Hrun;
    [discriminate Hrun|].
  destruct (read_hdf_stacks_selected_bands (Ext := demo_hdf) _ _ _ Hrun)
    as (hdf & Hopen & Hdim & Hmap).
  injection Hopen as <-.
  destruct (Hmap 16 "EV_1KM_RefSB" 13 eq_refl) as (src & Hsrc & _ & Hd1 & Hd2 & Hitem).
  injection Hsrc as <-.
  exists a. split; [reflexivity|]. split; [exact Hdim|].
  split; [symmetry; exact Hd1|]. split; [symmetry; exact Hd2|]. split; [reflexivity|].
  apply Hitem.
Defined.

(** X2. [read_hdf] returns a swath exactly when the file opens, the field
    table is not empty, every field of the table can be selected and has all
    the bands the table asks of it, and all fields have the same two trailing
    extents; in every other case it raises. *)
Theorem read_hdf_succeeds_iff `{Ext : Externals}
    (hdf_file : string) (fields : list (string * list nat)) :
  (∃ a, read_hdf hdf_file fields = inr a) ↔
  ∃ hdf h w, SD_open hdf_file = inr hdf ∧ fields ≠ [] ∧
    Forall (λ fi, ∃ src, hdf fi.1 = inr src ∧ Forall (λ k, k < dim0 src) fi.2 ∧
                         dim1 src = h ∧ dim2 src = w) fields.
Proof.
  unfold read_hdf. split.
  - intros [a Hrun]. destruct (SD_open hdf_file) as [e|hdf]; simpl in Hrun; [done|].
    exists hdf, (dim1 a), (dim2 a). split; [done|].
    split; [by destruct (stack_fields_spec hdf fields a Hrun)|].
    by apply stack_fields_inv.
  - intros (hdf & h & w & -> & Hne & Hall). simpl.
    destruct (stack_fields_ok hdf fields h w Hne Hall) as (a & Hrun & _).
    by exists a.
Qed.

(** ** gen_swaths *)

Lemma reader_mod02_1km `{Ext : Externals} :
  reader "mod02_1km" = inr (λ hdf_file, ([], read_hdf hdf_file names_1km)).
Proof. reflexivity. Qed.

Lemma reader_mod09_tif `{Ext : Externals} : reader "mod09_tif" = inr gdOpen.
Proof. reflexivity. Qed.

Lemma reader_invalid `{Ext : Externals} (mode : string) :
  mode ≠ "mod09_tif" → mode ≠ "mod02_1km" →
  reader mode = inl (ValueError "Invalid reader mode").
Proof.
  intros H1 H2. unfold reader.
  rewrite !bool_decide_eq_false_2 by done. done.
Qed.

(** X3. In mode mod02_1km without resize, every swath that [gen_swaths]
    yields has 23 channels, and its channel k is, pixel for pixel, band b of
    field f of the file it is yielded with, for the k-th pair (f, b) of the
    table [names_1km]; its height and width are the trailing extents of every
    one of these fields. *)
Theorem mod02_1km_swath_channels `{Ext : Externals}
    (rank : Z) (fnames : list string) (t : string) (sw : swath) :
  (t, sw) ∈ yields (gen_swaths rank fnames "mod02_1km" None) →
  t ∈ fnames ∧
  ∃ hdf, SD_open t = inr hdf ∧ dim2 sw = 23 ∧
    ∀ k f b, flat_bands names_1km !! k = Some (f, b) →
      ∃ src, hdf f = inr src ∧ b < dim0 src ∧
             dim1 src = dim0 sw ∧ dim2 src = dim1 sw ∧
             ∀ i j, item sw i j k = item src b i j.
Proof.
  intros Hin.
  destruct (gen_swaths_spec rank fnames "mod02_1km" None _ reader_mod02_1km) as (_ & Hy & _).
  { intros t' raw _ _. by eexists. }
  rewrite Hy in Hin. apply list_elem_of_omap in Hin as (t' & Ht' & Hsome).
  unfold read_swath in Hsome. simpl in Hsome.
  destruct (read_hdf t' names_1km) as [e|raw] eqn:Hread; [done|].
  injection Hsome as -> <-. split; [done|].
  destruct (read_hdf_stacks_selected_bands_aux _ _ _ Hread) as (hdf & Hopen & Hdim & Hmap).
  exists hdf. split; [done|]. split; [exact Hdim|].
  intros k f b Hk. destruct (Hmap k f b Hk) as (src & ? & ? & ? & ? & Hitem).
  exists src. split_and!; [done..|]. intros i j. apply Hitem.
Qed.

Lemma mod02_1km_swath_channels_witness :
  ∃ sw, ("/data/granule.hdf", sw) ∈
          yields (gen_swaths (Ext := demo_hdf) 0
                    ["/data/short.hdf"; "/data/granule.hdf"] "mod02_1km" None) ∧
        dim0 sw = 4 ∧ dim1 sw = 5 ∧ dim2 sw = 23.
Proof.
  assert (∃ sw, yields (gen_swaths (Ext := demo_hdf) 0
                    ["/data/short.hdf"; "/data/granule.hdf"] "mod02_1km" None)
                = [("/data/granule.hdf", sw)]) as [sw Hsw].
  { eexists. reflexivity. }
  assert (("/data/granule.hdf", sw) ∈
          yields (gen_swaths (Ext := demo_hdf) 0
                    ["/data/short.hdf"; "/data/granule.hdf"] "mod02_1km" None)) as Hin.
  { rewrite Hsw. apply list_elem_of_singleton. reflexivity. }
  exists sw. split; [exact Hin|].
  destruct (mod02_1km_swath_channels (Ext := demo_hdf) _ _ _ _ Hin)
    as (_ & hdf & Hopen & Hdim & Hmap).
  injection Hopen as <-.
  destruct (Hmap 0 "EV_250_Aggr1km_RefSB" 0 eq_refl) as (src & Hsrc & _ & Hd1 & Hd2 & _).
  injection Hsrc as <-.
  split; [symmetry; exact Hd1|]. split; [symmetry; exact Hd2|exact Hdim].
Defined.

(** X4. The resize is not covered by the [try]: at the first file that is
    read but whose resize raises, [gen_swaths] ends with that exception. The
    files before it are handled as usual, the file itself is announced and
    not yielded, and the files after it are not touched. *)
Theorem resize_failure_ends_gen_swaths `{Ext : Externals}
    (rank : Z) (pre post : list string) (t : string) (mode : string)
    (resize : option spec_float) (read : string → list event * result (ndarray3 Z))
    (raw : ndarray3 Z) (e : exn) :
  reader mode = inr read →
  (∀ t' raw', t' ∈ pre → (read t').2 = inr raw' →
              ∃ sw, apply_resize resize (np_rollaxis_0_3 raw') = inr sw) →
  (read t).2 = inr raw →
  apply_resize resize (np_rollaxis_0_3 raw) = inl e →
  raised (gen_swaths rank (pre ++ t :: post) mode resize) = Some e ∧
  yields (gen_swaths rank (pre ++ t :: post) mode resize)
    = omap (read_swath read resize) pre ∧
  printed (gen_swaths rank (pre ++ t :: post) mode resize)
    = flat_map (read_lines rank read) pre ++ Reading rank t :: (read t).1.
Proof.
  intros Hread Hpre Hraw Hresize. unfold gen_swaths. rewrite Hread.
  destruct (swaths_loop_spec rank read resize pre Hpre) as (Hr & Hy & Hp).
  rewrite swaths_loop_app by done.
  assert (swaths_loop rank read resize (t :: post)
          = Run (inl (Reading rank t) :: map inl (read t).1) (Some e)) as ->.
  { simpl. destruct (read t) as [evs r]. simpl in *. subst r. by rewrite Hresize. }
  split; [done|]. split.
  - change (yields (after ?a ?b)) with (yields (after a b)).
    rewrite yields_after. change (yields (Run (steps ?r) None)) with (yields r).
    rewrite Hy. unfold yields. simpl. rewrite omap_inr_fmap_inl. by rewrite app_nil_r.
  - rewrite printed_after. change (printed (Run (steps ?r) None)) with (printed r).
    rewrite Hp. unfold printed. simpl. by rewrite omap_inl_fmap.
Qed.

Lemma resize_failure_ends_gen_swaths_witness :
  reader (Ext := demo_hdf) "mod09_tif" = inr (gdOpen (Ext := demo_hdf)) ∧
  (gdOpen (Ext := demo_hdf) "/data/empty.tif").2 = inr (Ndarray3 1 0 0 (λ _ _ _, 0%Z)) ∧
  apply_resize (Ext := demo_hdf) (Some (S754_zero false))
    (np_rollaxis_0_3 (Ndarray3 1 0 0 (λ _ _ _, 0%Z))) = inl (LibraryError "cv2.error") ∧
  raised (gen_swaths (Ext := demo_hdf) 0
            (["/data/bad.tif"; "/data/flat.tif"] ++ "/data/empty.tif" :: ["/data/a.tif"])
            "mod09_tif" (Some (S754_zero false))) = Some (LibraryError "cv2.error") ∧
  map fst (yields (gen_swaths (Ext := demo_hdf) 0
            (["/data/bad.tif"; "/data/flat.tif"] ++ "/data/empty.tif" :: ["/data/a.tif"])
            "mod09_tif" (Some (S754_zero false)))) = ["/data/flat.tif"].
Proof.
  split; [reflexivity|]. split; [reflexivity|]. split; [reflexivity|].
  destruct (resize_failure_ends_gen_swaths (Ext := demo_hdf) 0
              ["/data/bad.tif"; "/data/flat.tif"] ["/data/a.tif"] "/data/empty.tif"
              "mod09_tif" (Some (S754_zero false)) (gdOpen (Ext := demo_hdf))
              (Ndarray3 1 0 0 (λ _ _ _, 0%Z)) (LibraryError "cv2.error")
              reader_mod09_tif) as (Hr & Hy & _); [|reflexivity|reflexivity|].
  { intros t' raw' Hin Hraw'. set_unfold in Hin. destruct Hin as [->|[->|[]]].
    - discriminate Hraw'.
    - injection Hraw' as <-. by eexists. }
  split; [exact Hr|]. rewrite Hy. reflexivity.
Defined.

(** X5. In mode mod09_tif an [IOError] of gdal is never what the log gives as
    the cause: for a file whose read raises it, [gen_swaths] prints the line
    of [gdOpen] that the file could not be opened and then names the unbound
    local [output] as the reason; the file is skipped like any other that
    fails. *)
Theorem io_error_is_reported_as_unbound_local `{Ext : Externals}
    (rank : Z) (fnames : list string) (resize : option spec_float)
    (t : string) (msg : string) :
  (∀ t' raw, t' ∈ fnames → (gdOpen t').2 = inr raw →
             ∃ sw, apply_resize resize (np_rollaxis_0_3 raw) = inr sw) →
  t ∈ fnames →
  gdal_ReadAsArray t = inl (IOError msg) →
  ErrorOpening t ∈ printed (gen_swaths rank fnames "mod09_tif" resize) ∧
  CouldNotRead rank t (UnboundLocalError "output")
    ∈ printed (gen_swaths rank fnames "mod09_tif" resize) ∧
  (∀ msg', CouldNotRead rank t (IOError msg')
     ∉ printed (gen_swaths rank fnames "mod09_tif" resize)) ∧
  (∀ sw, (t, sw) ∉ yields (gen_swaths rank fnames "mod09_tif" resize)).
Proof.
  intros Hresize Ht Hio.
  destruct (gen_swaths_spec rank fnames "mod09_tif" resize gdOpen reader_mod09_tif Hresize)
    as (_ & Hy & Hp).
  assert (gdOpen t = ([ErrorOpening t], inl (UnboundLocalError "output"))) as Hopen.
  { unfold gdOpen. by rewrite Hio. }
  rewrite Hp, Hy. split_and!.
  - apply list_elem_of_In, in_flat_map. exists t. split; [by apply list_elem_of_In|].
    unfold read_lines. rewrite Hopen. simpl. auto.
  - apply list_elem_of_In, in_flat_map. exists t. split; [by apply list_elem_of_In|].
    unfold read_lines. rewrite Hopen. simpl. auto.
  - intros msg' Hin. apply list_elem_of_In, in_flat_map in Hin as (t' & _ & Hin).
    unfold read_lines, gdOpen in Hin.
    destruct (gdal_ReadAsArray t') as [[]|raw]; simpl in Hin;
      intuition (try discriminate; congruence).
  - intros sw Hin. apply list_elem_of_omap in Hin as (t' & _ & Hsome).
    unfold read_swath in Hsome.
    destruct (gdOpen t').2 as [e|raw] eqn:Hr; [done|].
    destruct (apply_resize resize (np_rollaxis_0_3 raw)); [done|].
    injection Hsome as -> _. rewrite Hopen in Hr. done.
Qed.

Lemma io_error_is_reported_as_unbound_local_witness :
  (∀ t' raw, t' ∈ ["/data/bad.tif"; "/data/flat.tif"] →
             (gdOpen (Ext := demo) t').2 = inr raw →
             ∃ sw, apply_resize (Ext := demo) None (np_rollaxis_0_3 raw) = inr sw) ∧
  "/data/bad.tif" ∈ ["/data/bad.tif"; "/data/flat.tif"] ∧
  gdal_ReadAsArray (Externals := demo) "/data/bad.tif"
    = inl (IOError "not a supported file format") ∧
  CouldNotRead 0 "/data/bad.tif" (UnboundLocalError "output")
    ∈ printed (gen_swaths (Ext := demo) 0 ["/data/bad.tif"; "/data/flat.tif"]
                          "mod09_tif" None).
Proof.
  assert (∀ t' raw, t' ∈ ["/data/bad.tif"; "/data/flat.tif"] →
             (gdOpen (Ext := demo) t').2 = inr raw →
             ∃ sw, apply_resize (Ext := demo) None (np_rollaxis_0_3 raw) = inr sw) as Hres.
  { intros t' raw _ _. by eexists. }
  assert ("/data/bad.tif" ∈ ["/data/bad.tif"; "/data/flat.tif"]) as Hin by (by left).
  split; [exact Hres|]. split; [exact Hin|]. split; [reflexivity|].
  apply (io_error_is_reported_as_unbound_local (Ext := demo) 0
           ["/data/bad.tif"; "/data/flat.tif"] None "/data/bad.tif"
           "not a supported file format" Hres Hin eq_refl).
Defined.

(** ** gen_patches *)

Lemma elem_of_py_range (stop step : Z) (l : list Z) (x : Z) :
  (0 ≤ stop)%Z → py_range 0 stop step = inr l → x ∈ l →
  (0 < step ∧ 0 ≤ x < stop)%Z.
Proof.
  intros Hstop. unfold py_range. destruct (Z.eqb_spec step 0) as [|Hne]; [done|].
  intros [= <-] Hin. apply list_elem_of_In, in_map_iff in Hin as (k & <- & Hk%in_seq).
  unfold range_len in Hk. destruct (Z.ltb_spec 0 step) as [Hpos|Hneg].
  - destruct (Z.ltb_spec 0 stop) as [Hs|Hs]; [|lia].
    pose proof (range_len_pos stop step Hpos Hstop (Z.of_nat k) ltac:(lia)) as Hiff.
    unfold range_len in Hiff.
    destruct (Z.ltb_spec 0 step); [|lia]. destruct (Z.ltb_spec 0 stop); [|lia].
    split; [done|]. split; [lia|]. apply Hiff. lia.
  - destruct (Z.ltb_spec stop 0); lia.
Qed.

Lemma candidate_coords_inside (sw : swath) (shape strides : Z * Z) coords x y :
  candidate_coords sw shape strides = inr coords → (x, y) ∈ coords →
  (0 < strides.1 ∧ 0 < strides.2 ∧ 0 ≤ x < Z.of_nat (dim0 sw) ∧ 0 ≤ y < Z.of_nat (dim1 sw) ∧
   x + shape.1 < Z.of_nat (dim0 sw) ∧ y + shape.2 < Z.of_nat (dim1 sw))%Z.
Proof.
  destruct shape as [shape_x shape_y], strides as [stride_x stride_y].
  unfold candidate_coords. simpl.
  destruct (py_range 0 (Z.of_nat (dim0 sw)) stride_x) as [e|xs] eqn:Hxs; simpl; [done|].
  intros Hloop Hin.
  assert (∃ ys, py_range 0 (Z.of_nat (dim1 sw)) stride_y = inr ys ∧
                x ∈ xs ∧ (x, y) ∈ coords_row (Z.of_nat (dim0 sw)) (Z.of_nat (dim1 sw))
                                             shape_x shape_y x ys) as (ys & Hys & Hx & Hrow).
  { clear Hxs. revert coords Hloop Hin. induction xs as [|x' xs IH]; intros coords; simpl.
    - intros [= <-] Hin. by apply elem_of_nil in Hin.
    - destruct (py_range 0 (Z.of_nat (dim1 sw)) stride_y) as [e|ys] eqn:Hys; simpl; [done|].
      destruct (coords_loop _ _ _ _ _ xs) as [e|others]; simpl; [done|].
      intros [= <-] [Hin|Hin]%elem_of_app.
      + pose proof Hin as Hin'. apply elem_of_coords_row in Hin' as (-> & _).
        exists ys. split; [done|]. split; [by left|done].
      + destruct (IH others eq_refl Hin) as (ys' & Hys' & ? & ?).
        exists ys'. split; [done|]. split; [by right|done]. }
  apply elem_of_coords_row in Hrow as (_ & Hy & H1 & H2).
  pose proof (elem_of_py_range (Z.of_nat (dim0 sw)) stride_x xs x ltac:(lia) Hxs Hx).
  pose proof (elem_of_py_range (Z.of_nat (dim1 sw)) stride_y ys y ltac:(lia) Hys Hy).
  simpl. lia.
Qed.

Section Laziness.
Context `{Ext : Externals}.

Lemma patches_of_steps_events shape strides (evs : list event) rest g :
  patches_of_steps shape strides (map inl evs ++ rest) g =
  (after (map inl evs) (patches_of_steps shape strides rest g).1,
   (patches_of_steps shape strides rest g).2).
Proof.
  induction evs as [|ev evs IH]; simpl.
  - by destruct (patches_of_steps shape strides rest g) as [[] ?].
  - rewrite IH. destruct (patches_of_steps shape strides rest g) as [r g']. done.
Qed.

Lemma shuffle_nil (g : rng) : (np_random_shuffle g []).1 = [].
Proof. apply Permutation_nil. symmetry. apply np_random_shuffle_perm. Qed.

(** Swaths without candidates give nothing, and the stream is read to its end. *)
Lemma patches_of_steps_no_candidates shape strides upstream g :
  (∀ fname sw, inr (fname, sw) ∈ upstream → candidate_coords sw shape strides = inr []) →
  steps (patches_of_steps shape strides upstream g).1
    = map inl (printed (Run upstream None)) ∧
  raised (patches_of_steps shape strides upstream g).1 = None.
Proof.
  revert g. induction upstream as [|[ev|[fname sw]] rest IH]; intros g Hall; simpl.
  - done.
  - destruct (IH g) as [Hs Hr]; [intros fn s Hin; apply (Hall fn s); by right|].
    destruct (patches_of_steps shape strides rest g) as [r g']. simpl in *.
    split; [|done]. unfold printed in *. simpl. by rewrite Hs.
  - unfold swath_patches. rewrite (Hall fname sw) by by left.
    pose proof (shuffle_nil g) as Hnil.
    destruct (np_random_shuffle g []) as [coords' g1]. simpl in Hnil. subst coords'.
    simpl. destruct (IH g1) as [Hs Hr]; [intros fn s Hin; apply (Hall fn s); by right|].
    destruct (patches_of_steps shape strides rest g1) as [r g']. simpl in *.
    split; [|done]. unfold printed in *. simpl. done.
Qed.

Lemma gen_patches_no_candidates (swaths : run (string * swath)) shape strides g :
  (∀ fname sw, (fname, sw) ∈ yields swaths → candidate_coords sw shape strides = inr []) →
  yields (gen_patches swaths shape strides g).1 = [] ∧
  printed (gen_patches swaths shape strides g).1 = printed swaths ∧
  raised (gen_patches swaths shape strides g).1 = raised swaths.
Proof.
  intros Hall. unfold gen_patches.
  destruct (patches_of_steps_no_candidates shape strides (steps swaths) g) as [Hs Hr].
  { intros fname sw Hin. apply (Hall fname sw). by apply elem_of_steps_yields. }
  destruct (patches_of_steps shape strides (steps swaths) g) as [r g']. simpl in *.
  rewrite Hr. unfold yields, printed. simpl. rewrite Hs. split_and!; [|by rewrite omap_inl_fmap|done].
  by rewrite omap_inr_fmap_inl.
Qed.

End Laziness.

(** X6. A zero stride makes [range] raise: with stride_x = 0, or with
    stride_y = 0 under a positive stride_x when the swath has rows,
    [gen_patches] ends with the [ValueError] at the first swath it receives.
    It yields nothing, passes on only what was printed before that swath,
    and pulls nothing more from the stream. *)
Theorem zero_stride_raises_at_first_swath `{Ext : Externals}
    (evs : list event) (fname : string) (sw : swath)
    (post : list (event + (string * swath))) (upstream_raised : option exn)
    (shape : Z * Z) (stride_x stride_y : Z) (g : rng) :
  stride_x = 0%Z ∨ ((0 < stride_x)%Z ∧ 0 < dim0 sw ∧ stride_y = 0%Z) →
  gen_patches (Run (map inl evs ++ inr (fname, sw) :: post) upstream_raised)
              shape (stride_x, stride_y) g
  = (Run (map inl evs) (Some (ValueError "range() arg 3 must not be zero")), g).
Proof.
  intros Hzero.
  assert (candidate_coords sw shape (stride_x, stride_y)
          = inl (ValueError "range() arg 3 must not be zero")) as Hc.
  { destruct shape as [shape_x shape_y]. unfold candidate_coords.
    destruct Hzero as [->|(Hpos & Hrows & ->)]; [done|].
    destruct (py_range_pos (Z.of_nat (dim0 sw)) stride_x Hpos ltac:(lia)) as (xs & -> & _ & Hin).
    simpl. destruct xs as [|x xs]; [|done].
    exfalso. apply (elem_of_nil 0%Z), Hin. exists 0%Z. lia. }
  unfold gen_patches. cbn [steps]. rewrite patches_of_steps_events.
  cbn [patches_of_steps]. unfold swath_patches. rewrite Hc. simpl.
  unfold after. simpl. by rewrite app_nil_r.
Qed.

Lemma zero_stride_raises_at_first_swath_witness :
  (0%Z = 0%Z ∨ ((0 < 0)%Z ∧ 0 < dim0 (np_rollaxis_0_3 flat_raster) ∧ 64%Z = 0%Z)) ∧
  gen_patches (Ext := demo)
    (Run (map inl [Reading 0 "/data/flat.tif"]
          ++ inr ("/data/flat.tif", np_rollaxis_0_3 flat_raster)
          :: [inl (Reading 0 "/data/a.tif");
              inr ("/data/a.tif", np_rollaxis_0_3 distinct_raster)]) None)
    (2, 2)%Z (0, 64)%Z 7
  = (Run [inl (Reading 0 "/data/flat.tif")]
         (Some (ValueError "range() arg 3 must not be zero")), 7).
Proof.
  assert (0%Z = 0%Z ∨ ((0 < 0)%Z ∧ 0 < dim0 (np_rollaxis_0_3 flat_raster) ∧ 64%Z = 0%Z))
    as H by (by left).
  split; [exact H|].
  apply (zero_stride_raises_at_first_swath (Ext := demo) [Reading 0 "/data/flat.tif"]
           "/data/flat.tif" (np_rollaxis_0_3 flat_raster) _ None (2, 2)%Z 0 64 7 H).
Defined.

(** X7. A negative stride is not an error: with stride_x < 0, or stride_y < 0
    under a positive stride_x, every range is empty, and [gen_patches] reads
    the whole stream and yields no patch at all. *)
Theorem negative_stride_yields_nothing `{Ext : Externals}
    (swaths : run (string * swath)) (shape : Z * Z) (stride_x stride_y : Z) (g : rng) :
  (stride_x < 0)%Z ∨ ((0 < stride_x)%Z ∧ (stride_y < 0)%Z) →
  yields (gen_patches swaths shape (stride_x, stride_y) g).1 = [] ∧
  printed (gen_patches swaths shape (stride_x, stride_y) g).1 = printed swaths ∧
  raised (gen_patches swaths shape (stride_x, stride_y) g).1 = raised swaths.
Proof.
  intros Hneg. apply gen_patches_no_candidates. intros fname sw _.
  destruct (candidate_coords sw shape (stride_x, stride_y)) as [e|coords] eqn:Hc.
  - exfalso. destruct shape as [shape_x shape_y]. unfold candidate_coords in Hc.
    unfold py_range in Hc at 1. destruct (Z.eqb_spec stride_x 0) as [|_]; [lia|].
    simpl in Hc. destruct Hneg as [Hx|[Hx Hy]].
    + unfold range_len in Hc. destruct (Z.ltb_spec 0 stride_x); [lia|].
      destruct (Z.ltb_spec (Z.of_nat (dim0 sw)) 0); [lia|]. done.
    + rewrite (coords_loop_ok _ _ _ _ _
                 (map (λ k : nat, (0 + Z.of_nat k * stride_y)%Z)
                      (seq 0 (Z.to_nat (range_len 0 (Z.of_nat (dim1 sw)) stride_y))))) in Hc.
      * done.
      * unfold py_range. destruct (Z.eqb_spec stride_y 0); [lia|done].
  - f_equal. destruct coords as [|[x y] coords]; [done|]. exfalso.
    pose proof (candidate_coords_inside sw shape (stride_x, stride_y) _ x y Hc) as Hin.
    simpl in Hin. destruct Hin; [by left|]. lia.
Qed.

Lemma negative_stride_yields_nothing_witness :
  ((-64 < 0)%Z ∨ ((0 < -64)%Z ∧ (64 < 0)%Z)) ∧
  yields (gen_patches (Ext := demo)
            (gen_swaths 0 ["/data/a.tif"] "mod09_tif" None) (64, 64)%Z (-64, 64)%Z 0).1 = [] ∧
  raised (gen_patches (Ext := demo)
            (gen_swaths 0 ["/data/a.tif"] "mod09_tif" None) (64, 64)%Z (-64, 64)%Z 0).1 = None.
Proof.
  assert ((-64 < 0)%Z ∨ ((0 < -64)%Z ∧ (64 < 0)%Z)) as H by (left; lia).
  split; [exact H|].
  destruct (negative_stride_yields_nothing (Ext := demo)
              (gen_swaths 0 ["/data/a.tif"] "mod09_tif" None) (64, 64)%Z (-64) 64 0 H)
    as (Hy & _ & Hr).
  split; [exact Hy|exact Hr].
Defined.

(** X8. A swath that is not larger than the patch along one axis gives no
    patch, because of the strict comparison: if every swath of the stream has
    a height of at most shape_x or a width of at most shape_y (a swath of
    exactly the patch size among them), [gen_patches] yields nothing, whatever
    the nonzero strides. *)
Theorem swath_of_patch_size_yields_nothing `{Ext : Externals}
    (swaths : run (string * swath)) (shape_x shape_y stride_x stride_y : Z) (g : rng) :
  stride_x ≠ 0%Z → stride_y ≠ 0%Z →
  (∀ fname sw, (fname, sw) ∈ yields swaths →
     (Z.of_nat (dim0 sw) ≤ shape_x)%Z ∨ (Z.of_nat (dim1 sw) ≤ shape_y)%Z) →
  yields (gen_patches swaths (shape_x, shape_y) (stride_x, stride_y) g).1 = [] ∧
  printed (gen_patches swaths (shape_x, shape_y) (stride_x, stride_y) g).1 = printed swaths ∧
  raised (gen_patches swaths (shape_x, shape_y) (stride_x, stride_y) g).1 = raised swaths.
Proof.
  intros Hx Hy Hsmall. apply gen_patches_no_candidates. intros fname sw Hin.
  destruct (candidate_coords sw (shape_x, shape_y) (stride_x, stride_y))
    as [e|coords] eqn:Hc.
  - exfalso. unfold candidate_coords in Hc. unfold py_range in Hc at 1.
    destruct (Z.eqb_spec stride_x 0) as [|_]; [done|]. simpl in Hc.
    rewrite (coords_loop_ok _ _ _ _ _
               (map (λ k : nat, (0 + Z.of_nat k * stride_y)%Z)
                    (seq 0 (Z.to_nat (range_len 0 (Z.of_nat (dim1 sw)) stride_y))))) in Hc.
    + done.
    + unfold py_range. destruct (Z.eqb_spec stride_y 0); done.
  - f_equal. destruct coords as [|[x y] coords]; [done|]. exfalso.
    pose proof (candidate_coords_inside sw (shape_x, shape_y) (stride_x, stride_y) _ x y Hc)
      as Hins.
    simpl in Hins. destruct Hins; [by left|]. destruct (Hsmall fname sw Hin); lia.
Qed.

Lemma swath_of_patch_size_yields_nothing_witness :
  (1%Z ≠ 0%Z) ∧ (1%Z ≠ 0%Z) ∧
  (∀ fname sw,
     (fname, sw) ∈ yields (gen_swaths (Ext := demo) 0 ["/data/half_flat.tif"] "mod09_tif" None) →
     (Z.of_nat (dim0 sw) ≤ 3)%Z ∨ (Z.of_nat (dim1 sw) ≤ 3)%Z) ∧
  yields (gen_patches (Ext := demo)
            (gen_swaths 0 ["/data/half_flat.tif"] "mod09_tif" None) (3, 3)%Z (1, 1)%Z 0).1 = [].
Proof.
  assert (∀ fname sw,
     (fname, sw) ∈ yields (gen_swaths (Ext := demo) 0 ["/data/half_flat.tif"] "mod09_tif" None) →
     (Z.of_nat (dim0 sw) ≤ 3)%Z ∨ (Z.of_nat (dim1 sw) ≤ 3)%Z) as Hsmall.
  { intros fname sw Hin. apply list_elem_of_singleton in Hin. injection Hin as _ ->.
    left. simpl. lia. }
  split; [lia|]. split; [lia|]. split; [exact Hsmall|].
  apply (swath_of_patch_size_yields_nothing (Ext := demo)
           (gen_swaths 0 ["/data/half_flat.tif"] "mod09_tif" None) 3 3 1 1 0); [lia|lia|exact Hsmall].
Defined.

Lemma py_range_length (stop step : Z) (l : list Z) :
  py_range 0 stop step = inr l → length l = Z.to_nat (range_len 0 stop step).
Proof.
  unfold py_range. destruct (step =? 0)%Z; [done|].
  intros [= <-]. by rewrite length_map, length_seq.
Qed.

Lemma range_len_grid_count (n p s : Z) :
  (0 < s)%Z → (0 ≤ n)%Z → (0 ≤ p)%Z →
  Z.to_nat (range_len 0 (Z.max 0 (n - p)) s) = grid_count n p s.
Proof.
  intros Hs Hn Hp. unfold range_len, grid_count.
  destruct (Z.ltb_spec 0 s); [|lia].
  destruct (Z.ltb_spec p n); destruct (Z.ltb_spec 0 (Z.max 0 (n - p))); try lia.
  do 3 f_equal. lia.
Qed.

Lemma NoDup_list_prod {A B} (l : list A) (k : list B) :
  NoDup l → NoDup k → NoDup (list_prod l k).
Proof.
  intros Hl Hk. induction Hl as [|a l Hnin Hl IH]; simpl; [constructor|].
  apply NoDup_app. split; [|split; [|done]].
  - apply NoDup_fmap_2; [|done]. by intros ?? [=].
  - intros [a' b] Hin Hin'. apply list_elem_of_In, in_map_iff in Hin as (b' & [= <- <-] & _).
    apply list_elem_of_In, in_prod_iff in Hin' as [Hin' _]. by apply list_elem_of_In in Hin'.
Qed.

(** X9. For positive strides and a patch shape that is not negative, the
    number of candidate coordinates of a swath of height H and width W is the
    product of the numbers of offsets along the two axes,
    ((H - shape_x - 1) / stride_x + 1) when shape_x < H and 0 otherwise, and
    likewise for the width; no swath yields more patches than that. *)
Theorem number_of_candidates `{Ext : Externals}
    (fname : string) (sw : swath) (shape_x shape_y stride_x stride_y : Z) (g : rng) :
  (0 < stride_x)%Z → (0 < stride_y)%Z → (0 ≤ shape_x)%Z → (0 ≤ shape_y)%Z →
  ∃ coords,
    candidate_coords sw (shape_x, shape_y) (stride_x, stride_y) = inr coords ∧
    length coords = grid_count (Z.of_nat (dim0 sw)) shape_x stride_x
                    * grid_count (Z.of_nat (dim1 sw)) shape_y stride_y ∧
    length (yields (gen_patches (Run [inr (fname, sw)] None)
                                (shape_x, shape_y) (stride_x, stride_y) g).1)
      ≤ length coords.
Proof.
  intros Hsx Hsy Hpx Hpy.
  destruct (candidate_coords_spec sw shape_x shape_y stride_x stride_y Hsx Hsy Hpx Hpy)
    as (coords & Hc & Hnd & Hiff).
  exists coords. split; [done|]. split.
  - destruct (py_range_pos (Z.max 0 (Z.of_nat (dim0 sw) - shape_x)) stride_x Hsx)
      as (xs & Hxs & Hndx & Hinx); [lia|].
    destruct (py_range_pos (Z.max 0 (Z.of_nat (dim1 sw) - shape_y)) stride_y Hsy)
      as (ys & Hys & Hndy & Hiny); [lia|].
    rewrite <- !range_len_grid_count by lia.
    rewrite <- (py_range_length _ _ _ Hxs), <- (py_range_length _ _ _ Hys), <- length_prod.
    apply Permutation_length, NoDup_Permutation; [done|by apply NoDup_list_prod|].
    intros [x y]. rewrite Hiff. rewrite (list_elem_of_In _ (x, y)), in_prod_iff.
    rewrite <- !list_elem_of_In, Hinx, Hiny. unfold on_grid. split.
    + intros ((a & b & Ha & Hb & -> & ->) & H1 & H2). split; [exists a|exists b]; lia.
    + intros [(a & Ha & -> & H1) (b & Hb & -> & H2)]. split; [exists a, b|]; lia.
  - unfold gen_patches. cbn [steps patches_of_steps]. unfold swath_patches. rewrite Hc.
    pose proof (np_random_shuffle_perm g coords) as Hperm.
    destruct (np_random_shuffle g coords) as [coords' g']. simpl in Hperm.
    rewrite <- Hperm. clear Hperm.
    set (loop := patches_loop fname sw (np_mean sw) (np_std sw) (shape_x, shape_y)).
    assert (length (yields (loop coords')) ≤ length coords') as Hle.
    { unfold loop. induction coords' as [|xy l IH]; [done|]. cbn [patches_loop length].
      destruct (extract_patch fname sw (np_mean sw) (np_std sw) (shape_x, shape_y) xy)
        as [e|[p|]].
      - change (yields (Run [] (Some e))) with (@nil patch_item). simpl. lia.
      - rewrite yields_after, length_app.
        change (length (yields (Run [inr p] None))) with 1. lia.
      - lia. }
    destruct (raised (loop coords')) eqn:Hr; simpl.
    + done.
    + unfold yields in *. simpl. by rewrite app_nil_r.
Qed.

Lemma number_of_candidates_witness :
  (0 < 64)%Z ∧ (0 < 100)%Z ∧ (0 ≤ 64)%Z ∧ (0 ≤ 56)%Z ∧
  ∃ coords,
    candidate_coords (np_rollaxis_0_3 distinct_raster) (64, 56)%Z (64, 100)%Z = inr coords ∧
    length coords = 3 * 2.
Proof.
  split; [lia|]. split; [lia|]. split; [lia|]. split; [lia|].
  destruct (number_of_candidates (Ext := demo) "/data/a.tif" (np_rollaxis_0_3 distinct_raster)
              64 56 64 100 0) as (coords & Hc & Hlen & _); [lia..|].
  exists coords. split; [exact Hc|exact Hlen].
Defined.

(** ** Row-major layout *)

Lemma lookup_flat_map_blocks {T} (f : nat → list T) (m n s i r : nat) :
  (∀ k, length (f k) = m) → i < n → r < m →
  flat_map f (seq s n) !! (i * m + r) = f (s + i) !! r.
Proof.
  intros Hlen. revert s i. induction n as [|n IH]; intros s i Hi Hr; [lia|].
  simpl. destruct i as [|i].
  - change (0 * m + r) with r.
    rewrite lookup_app_l by (by rewrite Hlen). by rewrite Nat.add_0_r.
  - change (S i * m + r) with (m + i * m + r).
    rewrite lookup_app_r by (rewrite Hlen; lia). rewrite Hlen.
    replace (m + i * m + r - m) with (i * m + r) by lia.
    rewrite IH by lia. by replace (S s + i) with (s + S i) by lia.
Qed.

Lemma length_flat_map_blocks {T} (f : nat → list T) (m n s : nat) :
  (∀ k, length (f k) = m) → length (flat_map f (seq s n)) = n * m.
Proof.
  intros Hlen. revert s. induction n as [|n IH]; intros s; simpl; [done|].
  by rewrite length_app, Hlen, IH.
Qed.

Lemma length_ravel {T} (a : ndarray3 T) : length (ravel a) = dim0 a * dim1 a * dim2 a.
Proof.
  unfold ravel. rewrite (length_flat_map_blocks _ (dim1 a * dim2 a)); [lia|].
  intros i. rewrite (length_flat_map_blocks _ (dim2 a)); [done|].
  intros j. by rewrite length_map, length_seq.
Qed.

Lemma ravel_lookup {T} (a : ndarray3 T) (i j c : nat) :
  i < dim0 a → j < dim1 a → c < dim2 a →
  ravel a !! ((i * dim1 a + j) * dim2 a + c) = Some (item a i j c).
Proof.
  intros Hi Hj Hc. unfold ravel.
  replace ((i * dim1 a + j) * dim2 a + c) with (i * (dim1 a * dim2 a) + (j * dim2 a + c)) by lia.
  rewrite (lookup_flat_map_blocks _ (dim1 a * dim2 a)); [|
    intros k; rewrite (length_flat_map_blocks _ (dim2 a)); [done|];
    intros j'; by rewrite length_map, length_seq | done | nia ].
  rewrite (lookup_flat_map_blocks _ (dim2 a)); [|
    intros j'; by rewrite length_map, length_seq | done | done ].
  simpl. rewrite list_lookup_fmap, lookup_seq_lt by done. done.
Qed.

(** X10. The example that [write_feature] builds from a patch item holds the
    two coordinates, the three extents of the patch, and the elements of the
    patch in row-major order: as many as the product of the extents, element
    (i, j, c) at position (i * width + j) * channels + c. *)
Theorem example_is_row_major (p : patch_item) :
  ex_filename (make_example p) = p_fname p ∧
  ex_coordinate (make_example p) = [(p_coord p).1; (p_coord p).2] ∧
  ex_shape (make_example p) = [Z.of_nat (dim0 (p_patch p)); Z.of_nat (dim1 (p_patch p));
                               Z.of_nat (dim2 (p_patch p))] ∧
  length (ex_patch (make_example p))
    = dim0 (p_patch p) * dim1 (p_patch p) * dim2 (p_patch p) ∧
  ∀ i j c, i < dim0 (p_patch p) → j < dim1 (p_patch p) → c < dim2 (p_patch p) →
    ex_patch (make_example p) !! ((i * dim1 (p_patch p) + j) * dim2 (p_patch p) + c)
    = Some (item (p_patch p) i j c).
Proof.
  unfold make_example. simpl. split_and!; [done..|apply length_ravel|].
  intros i j c. apply ravel_lookup.
Qed.

(** X11. Under positive strides and a patch shape that is not negative,
    every patch that [gen_patches] yields has exactly the extents shape_x by
    shape_y by the channels of the swath it comes from, and its element
    (i, j, c) is the float32 value (v - mean[c]) / std[c] of the sample v at
    (x + i, y + j, c) of that swath, with the mean and the std of that very
    swath. *)
Theorem yielded_patch_has_requested_shape `{Ext : Externals}
    (swaths : run (string * swath)) (shape_x shape_y stride_x stride_y : Z) (g : rng)
    (p : patch_item) :
  (0 < stride_x)%Z → (0 < stride_y)%Z → (0 ≤ shape_x)%Z → (0 ≤ shape_y)%Z →
  p ∈ yields (gen_patches swaths (shape_x, shape_y) (stride_x, stride_y) g).1 →
  ∃ sw, (p_fname p, sw) ∈ yields swaths ∧
    dim0 (p_patch p) = Z.to_nat shape_x ∧ dim1 (p_patch p) = Z.to_nat shape_y ∧
    dim2 (p_patch p) = dim2 sw ∧
    ∀ i j c,
      item (p_patch p) i j c =
      f32_div (f32_sub (astype_float32
                          (item sw (Z.to_nat (p_coord p).1 + i) (Z.to_nat (p_coord p).2 + j) c))
                       (np_mean sw c))
              (np_std sw c).
Proof.
  intros Hsx Hsy Hpx Hpy Hp.
  apply gen_patches_yields in Hp as (sw & coords & Hsw & Hc & Hin & Hx).
  exists sw. split; [done|].
  destruct (p_coord p) as [x y] eqn:Hxy.
  pose proof (candidate_coords_inside sw (shape_x, shape_y) (stride_x, stride_y) _ x y Hc Hin)
    as Hins. simpl in Hins.
  apply extract_patch_some in Hx as (_ & _ & Hpatch). simpl in Hpatch.
  rewrite slice2_inside in Hpatch by lia.
  rewrite Hpatch. simpl. done.
Qed.

Lemma yielded_patch_has_requested_shape_witness :
  (0 < 1)%Z ∧ (0 < 1)%Z ∧ (0 ≤ 2)%Z ∧ (0 ≤ 2)%Z ∧
  ∃ p, p ∈ yields (gen_patches (Ext := demo)
                     (gen_swaths 0 ["/data/half_flat.tif"] "mod09_tif" None)
                     (2, 2)%Z (1, 1)%Z 0).1 ∧
       dim0 (p_patch p) = 2 ∧ dim1 (p_patch p) = 2 ∧ dim2 (p_patch p) = 2.
Proof.
  split; [lia|]. split; [lia|]. split; [lia|]. split; [lia|].
  assert (∃ p, yields (gen_patches (Ext := demo)
                     (gen_swaths 0 ["/data/half_flat.tif"] "mod09_tif" None)
                     (2, 2)%Z (1, 1)%Z 0).1 = [p]) as [p Hp].
  { eexists. reflexivity. }
  assert (p ∈ yields (gen_patches (Ext := demo)
                     (gen_swaths 0 ["/data/half_flat.tif"] "mod09_tif" None)
                     (2, 2)%Z (1, 1)%Z 0).1) as Hin.
  { rewrite Hp. by apply list_elem_of_singleton. }
  exists p. split; [exact Hin|].
  destruct (yielded_patch_has_requested_shape (Ext := demo) _ 2 2 1 1 0 p
              ltac:(lia) ltac:(lia) ltac:(lia) ltac:(lia) Hin)
    as (sw & Hsw & H0 & H1 & H2 & _).
  apply list_elem_of_singleton in Hsw. injection Hsw as _ ->.
  split; [exact H0|]. split; [exact H1|exact H2].
Defined.

(** ** A channel without spread *)

Lemma py_any_true_inv (tests : list (result bool)) :
  py_any tests = inr true → inr true ∈ tests.
Proof.
  induction tests as [|[e|[|]] rest IH]; simpl; [done|done|by left|].
  intros H. right. by apply IH.
Qed.

Lemma has_clouds_true_nonempty (patch : ndarray3 Z) (shape_x shape_y : Z) :
  has_clouds patch shape_x shape_y = inr true → 0 < dim0 patch ∧ 0 < dim1 patch.
Proof.
  unfold has_clouds. intros H%py_any_true_inv.
  apply list_elem_of_In, in_map_iff in H as (c & Hc & _).
  unfold max_uniq in Hc.
  destruct (channel patch c) as [|v l] eqn:Hch; [done|].
  pose proof (length_channel patch c) as Hlen. rewrite Hch in Hlen. simpl in Hlen. nia.
Qed.

Lemma slice_indices_bounds (len : nat) (start stop : Z) :
  (slice_indices len start stop).1 + (slice_indices len start stop).2 ≤ len.
Proof.
  unfold slice_indices, slice_bound. simpl.
  destruct (Z.ltb_spec start 0); destruct (Z.ltb_spec stop 0); lia.
Qed.

Lemma f32_sub_self_div_zero (v : Z) (s : bool) :
  np_isnan (f32_div (f32_sub (astype_float32 v) (astype_float32 v)) (S754_zero s)) = true.
Proof.
  destruct (astype_float32 v) as [sx|sx| |sx mx ex]; simpl.
  - by destruct sx.
  - by destruct sx.
  - done.
  - unfold f32_sub, SFsub. rewrite Z.min_id. unfold shl_align. rewrite Z.sub_diag.
    cbn [fst]. done.
Qed.

(** X12. No yielded patch comes from a swath with a channel without spread:
    if a channel of a swath holds one value everywhere, and numpy returns
    that value as its mean and zero as its std, every accepted patch of the
    swath has 0/0 in that channel and is dropped. *)
Theorem flat_channel_swath_yields_nothing `{Ext : Externals}
    (swaths : run (string * swath)) (shape strides : Z * Z) (g : rng) :
  (∀ fname sw, (fname, sw) ∈ yields swaths →
     ∃ c v s, c < dim2 sw ∧
       (∀ i j, i < dim0 sw → j < dim1 sw → item sw i j c = v) ∧
       np_mean sw c = astype_float32 v ∧ np_std sw c = S754_zero s) →
  yields (gen_patches swaths shape strides g).1 = [].
Proof.
  intros Hflat. apply elem_of_nil_inv. intros p Hp.
  apply gen_patches_yields in Hp as (sw & coords & Hsw & _ & _ & Hx).
  destruct (Hflat _ _ Hsw) as (c & v & s & Hc & Hconst & Hmean & Hstd).
  apply extract_patch_some in Hx as (Hclouds & Hnan & _).
  apply has_clouds_true_nonempty in Hclouds as [H0 H1].
  rewrite isnan_any_false in Hnan.
  specialize (Hnan 0 0 c).
  set (x := (p_coord p).1) in *. set (y := (p_coord p).2) in *.
  unfold slice2 in *.
  pose proof (slice_indices_bounds (dim0 sw) x (x + shape.1)) as Hbx.
  pose proof (slice_indices_bounds (dim1 sw) y (y + shape.2)) as Hby.
  destruct (slice_indices (dim0 sw) x (x + shape.1)) as [lo_x n_x].
  destruct (slice_indices (dim1 sw) y (y + shape.2)) as [lo_y n_y].
  simpl in *. rewrite Hconst, Hmean, Hstd, f32_sub_self_div_zero in Hnan by lia.
  by specialize (Hnan H0 H1 Hc).
Qed.

Lemma flat_channel_swath_yields_nothing_witness :
  (∀ fname sw,
     (fname, sw) ∈ yields (gen_swaths (Ext := demo) 0 ["/data/flat.tif"] "mod09_tif" None) →
     ∃ c v s, c < dim2 sw ∧
       (∀ i j, i < dim0 sw → j < dim1 sw → item sw i j c = v) ∧
       np_mean (Externals := demo) sw c = astype_float32 v ∧
       np_std (Externals := demo) sw c = S754_zero s) ∧
  yields (gen_patches (Ext := demo)
            (gen_swaths 0 ["/data/flat.tif"] "mod09_tif" None) (2, 2)%Z (1, 1)%Z 0).1 = [].
Proof.
  assert (∀ fname sw,
     (fname, sw) ∈ yields (gen_swaths (Ext := demo) 0 ["/data/flat.tif"] "mod09_tif" None) →
     ∃ c v s, c < dim2 sw ∧
       (∀ i j, i < dim0 sw → j < dim1 sw → item sw i j c = v) ∧
       np_mean (Externals := demo) sw c = astype_float32 v ∧
       np_std (Externals := demo) sw c = S754_zero s) as Hflat.
  { intros fname sw Hin. apply list_elem_of_singleton in Hin. injection Hin as _ ->.
    exists 0, 7%Z, false. split; [simpl; lia|]. split; [done|]. split; reflexivity. }
  split; [exact Hflat|].
  apply (flat_channel_swath_yields_nothing (Ext := demo) _ (2, 2)%Z (1, 1)%Z 0 Hflat).
Defined.

(** ** No patch twice *)

Lemma py_range_NoDup (stop step : Z) (l : list Z) :
  py_range 0 stop step = inr l → NoDup l.
Proof.
  unfold py_range. destruct (Z.eqb_spec step 0) as [|Hne]; [done|].
  intros [= <-]. apply NoDup_fmap_2; [|apply NoDup_seq].
  intros a b Hab. nia.
Qed.

Lemma candidate_coords_NoDup (sw : swath) (shape strides : Z * Z) coords :
  candidate_coords sw shape strides = inr coords → NoDup coords.
Proof.
  destruct shape as [shape_x shape_y], strides as [stride_x stride_y].
  unfold candidate_coords.
  destruct (py_range 0 (Z.of_nat (dim0 sw)) stride_x) as [e|xs] eqn:Hxs; simpl; [done|].
  destruct xs as [|x xs]; [by intros [= <-]; constructor|].
  destruct (py_range 0 (Z.of_nat (dim1 sw)) stride_y) as [e|ys] eqn:Hys.
  - simpl. by rewrite Hys.
  - rewrite (coords_loop_ok _ _ _ _ _ ys _ Hys). intros [= <-].
    apply (NoDup_flat_map_rows _ _ _ _ ys (x :: xs));
      [by eapply py_range_NoDup|by eapply py_range_NoDup].
Qed.

Section NoTwice.
Context `{Ext : Externals}.

Lemma patches_loop_coords fname sw mean std shape coords :
  NoDup coords →
  NoDup (map p_coord (yields (patches_loop fname sw mean std shape coords))) ∧
  ∀ p, p ∈ yields (patches_loop fname sw mean std shape coords) →
       p_coord p ∈ coords ∧ p_fname p = fname.
Proof.
  induction 1 as [|xy rest Hnin Hnd [IH1 IH2]]; simpl.
  - split; [constructor|]. intros p Hp. by apply elem_of_nil in Hp.
  - destruct (extract_patch fname sw mean std shape xy) as [e|[q|]] eqn:Hx.
    + split; [constructor|]. intros p Hp. by apply elem_of_nil in Hp.
    + apply extract_patch_some in Hx as (_ & _ & Hq).
      rewrite yields_after. change (yields (Run [inr q] None)) with [q]. simpl. split.
      * constructor; [|done]. intros Hin.
        apply list_elem_of_fmap in Hin as (p & Hp & Hin). apply IH2 in Hin as [Hin _].
        rewrite <- Hp, Hq in Hin. done.
      * intros p [->|Hp]%elem_of_cons.
        -- rewrite Hq. simpl. split; [by left|done].
        -- destruct (IH2 p Hp). split; [by right|done].
    + split; [done|]. intros p Hp. destruct (IH2 p Hp). split; [by right|done].
Qed.

Lemma patches_of_steps_NoDup shape strides upstream g :
  NoDup (map fst (yields (Run upstream None))) →
  NoDup (map (λ p, (p_fname p, p_coord p))
             (yields (patches_of_steps shape strides upstream g).1)) ∧
  ∀ p, p ∈ yields (patches_of_steps shape strides upstream g).1 →
       p_fname p ∈ map fst (yields (Run upstream None)).
Proof.
  revert g. induction upstream as [|[ev|[fname sw]] rest IH]; intros g; simpl.
  - intros _. split; [constructor|]. intros p Hp. by apply elem_of_nil in Hp.
  - intros Hnd. specialize (IH g Hnd).
    destruct (patches_of_steps shape strides rest g) as [r g']. simpl in *.
    rewrite yields_after. exact IH.
  - change (yields (Run (inr (fname, sw) :: rest) None))
      with ((fname, sw) :: yields (Run rest None)).
    simpl. intros [Hnin Hnd]%NoDup_cons.
    assert (NoDup (map (λ p, (p_fname p, p_coord p))
                       (yields (swath_patches shape strides fname sw g).1)) ∧
            ∀ p, p ∈ yields (swath_patches shape strides fname sw g).1 → p_fname p = fname)
      as [Hnd1 Hname1].
    { unfold swath_patches.
      destruct (candidate_coords sw shape strides) as [e|coords] eqn:Hc; simpl.
      - split; [constructor|]. intros p Hp. by apply elem_of_nil in Hp.
      - pose proof (np_random_shuffle_perm g coords) as Hperm.
        destruct (np_random_shuffle g coords) as [coords' g1]. simpl in *.
        destruct (patches_loop_coords fname sw (np_mean sw) (np_std sw) shape coords')
          as [Hn Hall].
        { rewrite Hperm. by eapply candidate_coords_NoDup. }
        split; [|intros p Hp; by apply Hall].
        eapply (NoDup_fmap_1 snd). rewrite <- list_fmap_compose. exact Hn. }
    destruct (swath_patches shape strides fname sw g) as [r1 g1]. simpl in *.
    destruct (raised r1).
    + split; [done|]. intros p Hp. apply elem_of_cons. left. by apply Hname1.
    + specialize (IH g1 Hnd).
      destruct (patches_of_steps shape strides rest g1) as [r2 g2]. simpl in *.
      destruct IH as [Hnd2 Hname2].
      assert (yields (after (steps r1) r2) = yields r1 ++ yields r2) as ->.
      { unfold after, yields. simpl. apply omap_app. }
      split.
      * rewrite map_app. apply NoDup_app. split; [done|]. split; [|done].
        intros [f c] Hin1 Hin2.
        apply list_elem_of_fmap in Hin1 as (p1 & [= -> ->] & Hp1).
        apply list_elem_of_fmap in Hin2 as (p2 & [= Hf _] & Hp2).
        apply Hnin. rewrite <- (Hname1 p1 Hp1), Hf. by apply Hname2.
      * intros p [Hp|Hp]%elem_of_app; apply elem_of_cons;
          [left; by apply Hname1|right; by apply Hname2].
Qed.

End NoTwice.

(** X13. No patch comes out twice: when the files of the stream have
    different names, the pairs of file name and coordinate of the patches
    that [gen_patches] yields are all different. *)
Theorem no_patch_is_yielded_twice `{Ext : Externals}
    (swaths : run (string * swath)) (shape strides : Z * Z) (g : rng) :
  NoDup (map fst (yields swaths)) →
  NoDup (map (λ p, (p_fname p, p_coord p)) (yields (gen_patches swaths shape strides g).1)).
Proof.
  intros Hnd. unfold gen_patches.
  destruct (patches_of_steps_NoDup shape strides (steps swaths) g Hnd) as [H _].
  destruct (patches_of_steps shape strides (steps swaths) g) as [r g']. exact H.
Qed.

Lemma no_patch_is_yielded_twice_witness :
  NoDup (map fst (yields (Run [inr ("/data/x.tif", np_rollaxis_0_3 small_raster);
                               inl (Reading 0 "/data/y.tif");
                               inr ("/data/y.tif", np_rollaxis_0_3 small_raster)] None))) ∧
  map (λ p, (p_fname p, p_coord p))
      (yields (gen_patches (Ext := demo)
                 (Run [inr ("/data/x.tif", np_rollaxis_0_3 small_raster);
                       inl (Reading 0 "/data/y.tif");
                       inr ("/data/y.tif", np_rollaxis_0_3 small_raster)] None)
                 (2, 2)%Z (1, 1)%Z 0).1)
  = [("/data/x.tif", (1, 1)%Z); ("/data/x.tif", (1, 0)%Z);
     ("/data/x.tif", (0, 1)%Z); ("/data/x.tif", (0, 0)%Z);
     ("/data/y.tif", (1, 1)%Z); ("/data/y.tif", (1, 0)%Z);
     ("/data/y.tif", (0, 1)%Z); ("/data/y.tif", (0, 0)%Z)] ∧
  NoDup (map (λ p, (p_fname p, p_coord p))
             (yields (gen_patches (Ext := demo)
                        (Run [inr ("/data/x.tif", np_rollaxis_0_3 small_raster);
                              inl (Reading 0 "/data/y.tif");
                              inr ("/data/y.tif", np_rollaxis_0_3 small_raster)] None)
                        (2, 2)%Z (1, 1)%Z 0).1)).
Proof.
  assert (NoDup (map fst (yields (Run [inr ("/data/x.tif", np_rollaxis_0_3 small_raster);
                               inl (Reading 0 "/data/y.tif");
                               inr ("/data/y.tif", np_rollaxis_0_3 small_raster)] None))))
    as Hnd.
  { change (NoDup ["/data/x.tif"; "/data/y.tif"]).
    apply NoDup_cons. split; [|apply NoDup_singleton].
    intros Hin%list_elem_of_singleton. discriminate Hin. }
  split; [exact Hnd|]. split; [reflexivity|].
  apply (no_patch_is_yielded_twice (Ext := demo) _ (2, 2)%Z (1, 1)%Z 0 Hnd).
Defined.

(** ** write_patches *)

Lemma write_loop_zero rank out_dir (l : list (event + patch_item)) s i :
  omap (λ x : event + patch_item, match x with inr a => Some a | inl _ => None end) l ≠ [] →
  ∃ s' evs, write_loop rank out_dir 0 i l s = (s', Some ZeroDivisionError) ∧
    files s' = files s ∧ f s' = f s ∧ stdout s' = stdout s ++ evs ∧
    evs `prefix_of` omap (λ x : event + patch_item,
                            match x with inl ev => Some ev | inr _ => None end) l.
Proof.
  revert s. induction l as [|[ev|p] l IH]; intros s Hne.
  - done.
  - simpl in *.
    destruct (IH (WState (files s) (f s) (stdout s ++ [ev])) Hne)
      as (s' & evs & -> & Hf & Hw & Ho & Hp).
    exists s', (ev :: evs). simpl in *. repeat split; try done.
    + by rewrite Ho, <- app_assoc.
    + by apply prefix_cons.
  - simpl. exists s, []. repeat split; try done.
    + by rewrite app_nil_r.
    + apply prefix_nil.
Qed.

(** X14. With [patches_per_record] zero, a stream that yields at least one
    patch makes [write_patches] raise [ZeroDivisionError] at the first patch,
    whatever the stream would have done after it: no record is opened, the
    files are as they were, and the output is lines the stream printed. *)
Theorem zero_patches_per_record_raises
    (rank : Z) (patches : run patch_item) (out_dir : string)
    (fs : gmap string (list example)) (out : list event) :
  yields patches ≠ [] →
  ∃ s evs, write_patches rank patches out_dir 0 fs out = (s, Some ZeroDivisionError) ∧
    files s = fs ∧ f s = None ∧ stdout s = out ++ evs ∧
    evs `prefix_of` printed patches.
Proof.
  intros Hy. unfold write_patches.
  destruct (write_loop_zero rank out_dir (steps patches) (WState fs None out) 0 Hy)
    as (s' & evs & -> & ? & ? & ? & ?).
  by exists s', evs.
Qed.

Lemma zero_patches_per_record_raises_witness :
  yields (Run [inl (Reading 3 "a");
               inr (PatchItem "a" (0, 0)%Z (Ndarray3 0 0 0 (λ _ _ _, S754_nan)))]
              (Some (LibraryError "later"))) ≠ [] ∧
  ∃ s evs, write_patches 3
      (Run [inl (Reading 3 "a");
            inr (PatchItem "a" (0, 0)%Z (Ndarray3 0 0 0 (λ _ _ _, S754_nan)))]
           (Some (LibraryError "later"))) "/out" 0 ∅ []
      = (s, Some ZeroDivisionError) ∧
    files s = ∅ ∧ f s = None ∧ stdout s = [] ++ evs ∧
    evs `prefix_of` printed (Run [inl (Reading 3 "a");
            inr (PatchItem "a" (0, 0)%Z (Ndarray3 0 0 0 (λ _ _ _, S754_nan)))]
           (Some (LibraryError "later"))).
Proof.
  split; [done|]. apply zero_patches_per_record_raises. done.
Defined.

Lemma concat_chunks {A} (K n : nat) (l : list A) :
  0 < K → length l ≤ n * K →
  concat (map (λ j, take K (drop (j * K) l)) (seq 0 n)) = l.
Proof.
  intros HK. revert l. induction n as [|n IH]; intros l Hlen.
  - destruct l; [done|simpl in Hlen; lia].
  - rewrite <- cons_seq, <- fmap_S_seq. simpl. rewrite drop_0.
    trans (take K l ++ drop K l); [|apply take_drop]. f_equal.
    etrans; [|apply (IH (drop K l)); rewrite length_drop; lia].
    f_equal. rewrite <- list_fmap_compose. apply map_ext. intros j. simpl.
    rewrite drop_drop. do 2 f_equal; lia.
Qed.

(** X15. Sharding loses and reorders nothing: for K above zero, the records
    of index 0 to ceil(N / K) - 1 that [write_patches] leaves, read one after
    the other, are the examples of all the patches of the stream in the order
    they were yielded. *)
Theorem shards_concatenate_to_the_stream
    (rank : Z) (patches : run patch_item) (out_dir : string) (K : Z)
    (fs : gmap string (list example)) (out : list event) :
  (0 < K)%Z →
  ∃ s, write_patches rank patches out_dir K fs out = (s, raised patches) ∧
    concat (map (λ j, default [] (files s !! shard_path rank out_dir j))
                (seq 0 (ceil_div (length (yields patches)) K)))
    = map make_example (yields patches).
Proof.
  intros HK.
  destruct (write_patches_spec rank patches out_dir K fs out HK) as (s & Hs & _ & Hin & _).
  exists s. split; [done|].
  trans (concat (map (shard (yields patches) K)
                     (seq 0 (ceil_div (length (yields patches)) K)))).
  { f_equal. apply map_ext_in. intros j Hj%in_seq. rewrite Hin by lia. done. }
  unfold shard.
  rewrite <- (concat_chunks (Z.to_nat K) (ceil_div (length (yields patches)) K)
                            (yields patches)) at 2; [| lia |].
  - rewrite concat_map. f_equal. by rewrite map_map.
  - unfold ceil_div. set (N := length (yields patches)). set (Kn := Z.to_nat K).
    assert (0 < Kn) by (unfold Kn; lia).
    pose proof (Nat.div_mod_eq (N + Kn - 1) Kn).
    pose proof (Nat.mod_upper_bound (N + Kn - 1) Kn ltac:(lia)). nia.
Qed.

Lemma shards_concatenate_to_the_stream_witness :
  (0 < 2)%Z ∧
  ∃ s, write_patches 3 (Run [inr (PatchItem "a" (0, 0)%Z (Ndarray3 0 0 0 (λ _ _ _, S754_nan)));
                             inr (PatchItem "b" (0, 0)%Z (Ndarray3 0 0 0 (λ _ _ _, S754_nan)));
                             inr (PatchItem "b" (0, 1)%Z (Ndarray3 0 0 0 (λ _ _ _, S754_nan)))]
                            None) "/out" 2 ∅ [] = (s, None) ∧
    concat (map (λ j, default [] (files s !! shard_path 3 "/out" j)) (seq 0 2))
    = map make_example
        [PatchItem "a" (0, 0)%Z (Ndarray3 0 0 0 (λ _ _ _, S754_nan));
         PatchItem "b" (0, 0)%Z (Ndarray3 0 0 0 (λ _ _ _, S754_nan));
         PatchItem "b" (0, 1)%Z (Ndarray3 0 0 0 (λ _ _ _, S754_nan))].
Proof.
  split; [lia|].
  apply (shards_concatenate_to_the_stream 3
    (Run [inr (PatchItem "a" (0, 0)%Z (Ndarray3 0 0 0 (λ _ _ _, S754_nan)));
          inr (PatchItem "b" (0, 0)%Z (Ndarray3 0 0 0 (λ _ _ _, S754_nan)));
          inr (PatchItem "b" (0, 1)%Z (Ndarray3 0 0 0 (λ _ _ _, S754_nan)))] None)
    "/out" 2 ∅ []). lia.
Defined.

(** ** gen_patches raises nothing of its own *)

Lemma extract_patch_total fname (sw : swath) mean std (shape_x shape_y x y : Z) :
  (0 < shape_x)%Z → (0 < shape_y)%Z → (0 ≤ x)%Z → (0 ≤ y)%Z →
  (x + shape_x < Z.of_nat (dim0 sw))%Z → (y + shape_y < Z.of_nat (dim1 sw))%Z →
  ∃ o, extract_patch fname sw mean std (shape_x, shape_y) (x, y) = inr o.
Proof.
  intros Hpx Hpy Hx Hy Hxin Hyin. unfold extract_patch.
  rewrite slice2_inside by lia.
  destruct (has_clouds_spec
              (Ndarray3 (Z.to_nat shape_x) (Z.to_nat shape_y) (dim2 sw)
                        (λ i j c, item sw (Z.to_nat x + i) (Z.to_nat y + j) c))
              shape_x shape_y) as (b & -> & _); [simpl; lia..|].
  simpl. destruct b; [|by eexists]. destruct (negb _); by eexists.
Qed.

Lemma patches_loop_raises_nothing fname sw mean std shape coords :
  (∀ xy, xy ∈ coords → ∃ o, extract_patch fname sw mean std shape xy = inr o) →
  raised (patches_loop fname sw mean std shape coords) = None.
Proof.
  induction coords as [|xy rest IH]; intros Hall; simpl; [done|].
  destruct (Hall xy) as [o ->]; [by left|].
  destruct o; [rewrite raised_after|]; apply IH; intros; apply Hall; by right.
Qed.

Section Totality.
Context `{Ext : Externals}.
Variables (shape strides : Z * Z).
Hypothesis Hshape_x : (0 < shape.1)%Z.
Hypothesis Hshape_y : (0 < shape.2)%Z.
Hypothesis Hstride_x : (strides.1 ≠ 0)%Z.
Hypothesis Hstride_y : (strides.2 ≠ 0)%Z.

Lemma candidate_coords_total (sw : swath) :
  ∃ coords, candidate_coords sw shape strides = inr coords.
Proof.
  destruct shape as [shape_x shape_y], strides as [stride_x stride_y].
  simpl in *. unfold candidate_coords.
  assert (∀ stop step, step ≠ 0%Z → ∃ l, py_range 0 stop step = inr l) as Hrange.
  { intros stop step Hne. unfold py_range.
    destruct (Z.eqb_spec step 0); [done|]. by eexists. }
  destruct (Hrange (Z.of_nat (dim0 sw)) stride_x Hstride_x) as [xs ->].
  destruct (Hrange (Z.of_nat (dim1 sw)) stride_y Hstride_y) as [ys Hys].
  simpl. induction xs as [|x xs [l IH]]; simpl; [by eexists|].
  rewrite Hys. simpl. rewrite IH. by eexists.
Qed.

Lemma swath_patches_raises_nothing fname sw g :
  raised (swath_patches shape strides fname sw g).1 = None.
Proof.
  unfold swath_patches.
  destruct (candidate_coords_total sw) as [coords Hc]. rewrite Hc.
  pose proof (np_random_shuffle_perm g coords) as Hperm.
  destruct (np_random_shuffle g coords) as [coords' g']. simpl in *.
  apply patches_loop_raises_nothing. intros [x y] Hin.
  rewrite Hperm in Hin.
  pose proof (candidate_coords_inside sw shape strides coords x y Hc Hin).
  destruct shape as [shape_x shape_y]. simpl in *.
  apply extract_patch_total; lia.
Qed.

Lemma patches_of_steps_raises_nothing upstream g :
  raised (patches_of_steps shape strides upstream g).1 = None.
Proof.
  revert g. induction upstream as [|[ev|[fname sw]] rest IH]; intros g; simpl.
  - done.
  - specialize (IH g). destruct (patches_of_steps shape strides rest g) as [r g']. done.
  - pose proof (swath_patches_raises_nothing fname sw g) as H1.
    destruct (swath_patches shape strides fname sw g) as [r1 g1]. simpl in H1.
    rewrite H1. specialize (IH g1).
    destruct (patches_of_steps shape strides rest g1) as [r2 g2]. done.
Qed.

Lemma gen_patches_raised swaths g :
  raised (gen_patches swaths shape strides g).1 = raised swaths.
Proof.
  unfold gen_patches. pose proof (patches_of_steps_raises_nothing (steps swaths) g) as H.
  destruct (patches_of_steps shape strides (steps swaths) g) as [r g']. simpl in *.
  by rewrite H.
Qed.

End Totality.



(** ** Record names of different ranks *)

Lemma pretty_N_go_no_dash (x : N) (s : string) :
  has_dash s = false → has_dash (pretty_N_go x s) = false.
Proof.
  revert s. induction (N.lt_wf_0 x) as [x _ IH]; intros s Hs.
  assert (x = 0 ∨ 0 < x)%N as [->|Hpos] by lia.
  - by rewrite pretty_N_go_0.
  - rewrite pretty_N_go_step by done. apply IH; [by apply N.div_lt|].
    simpl. rewrite Hs. unfold pretty_N_char. by repeat case_match.
Qed.

Lemma pretty_N_no_dash (x : N) : has_dash (pretty x) = false.
Proof.
  unfold pretty, pretty_N. case_decide; [done|]. by apply pretty_N_go_no_dash.
Qed.

Lemma split_at_dash (a b c d : string) :
  has_dash a = false → has_dash b = false →
  a +:+ "-" +:+ c = b +:+ "-" +:+ d → a = b ∧ c = d.
Proof.
  revert b. induction a as [|x a IH]; intros [|y b] Ha Hb Heq; simpl in *.
  - by injection Heq.
  - injection Heq as <- _. by rewrite bool_decide_eq_true_2 in Hb.
  - injection Heq as -> _. by rewrite bool_decide_eq_true_2 in Ha.
  - injection Heq as -> Heq.
    apply orb_false_iff in Ha as [_ Ha]. apply orb_false_iff in Hb as [_ Hb].
    destruct (IH b Ha Hb Heq) as [-> ->]. done.
Qed.

Lemma pretty_Z_nonneg (z : Z) : (0 ≤ z)%Z → pretty z = pretty (Z.to_N z).
Proof. destruct z as [|p|p]; [done|done|lia]. Qed.

Lemma record_name_inj2 (rank rank' k k' : Z) :
  (0 ≤ rank)%Z → (0 ≤ rank')%Z →
  record_name rank k = record_name rank' k' → rank = rank' ∧ k = k'.
Proof.
  intros Hr Hr'. unfold record_name. rewrite (pretty_Z_nonneg rank), (pretty_Z_nonneg rank') by done.
  intros Heq. apply split_at_dash in Heq as [Heq Heq']; [|apply pretty_N_no_dash..].
  apply (inj pretty) in Heq. apply string_app_inj_r in Heq'. apply (inj pretty) in Heq'.
  split; [lia|done].
Qed.

(** ** What write_patches leaves alone *)

Section Frame.
Variables (rank : Z) (out_dir : string) (K : Z).

Lemma write_step_frame i patch s s' :
  own_writer rank out_dir (f s) → write_step rank out_dir K i patch s = inr s' →
  own_writer rank out_dir (f s') ∧
  ∀ p, (∀ k, p ≠ os_path_join out_dir (record_name rank k)) →
       files s' !! p = files s !! p.
Proof.
  intros Hown. unfold write_step.
  destruct (K =? 0)%Z; [done|].
  destruct (i mod K =? 0)%Z; simpl.
  - intros [= <-]. simpl. split; [by eexists|].
    intros p Hp. unfold write_feature.
    rewrite lookup_alter_ne by (intros Heq; by eapply Hp).
    rewrite lookup_insert_ne by (intros Heq; by eapply Hp). done.
  - destruct (f s) as [w|] eqn:Hw; [|done]. intros [= <-]. simpl.
    split; [exact Hown|]. intros p Hp. unfold write_feature.
    destruct Hown as [k ->].
    rewrite lookup_alter_ne by (intros Heq; by eapply Hp). done.
Qed.

Lemma write_loop_frame i upstream s :
  own_writer rank out_dir (f s) →
  ∀ p, (∀ k, p ≠ os_path_join out_dir (record_name rank k)) →
       files (write_loop rank out_dir K i upstream s).1 !! p = files s !! p.
Proof.
  revert i s. induction upstream as [|[ev|patch] rest IH]; intros i s Hown p Hp; simpl.
  - done.
  - by rewrite IH.
  - destruct (write_step rank out_dir K i patch s) as [e|s'] eqn:Hstep; [done|].
    destruct (write_step_frame _ _ _ _ Hown Hstep) as [Hown' Hfiles].
    rewrite IH by done. by apply Hfiles.
Qed.

Lemma write_patches_frame (patches : run patch_item) fs out p :
  (∀ k, p ≠ os_path_join out_dir (record_name rank k)) →
  files (write_patches rank patches out_dir K fs out).1 !! p = fs !! p.
Proof.
  intros Hp. unfold write_patches.
  pose proof (write_loop_frame 0 (steps patches) (WState fs None out) I p Hp) as H.
  destruct (write_loop _ _ _ _ _ _) as [s e]. done.
Qed.

End Frame.

(** X17. A worker writes only files named after its own rank: whatever the
    patches and [patches_per_record], and however its run ends,
    [write_patches] of a rank leaves every path that is not
    out_dir/rank-k.tfrecord as it was, and so every record of another rank. *)
Theorem worker_writes_only_its_own_records
    (rank rank' : Z) (patches : run patch_item) (out_dir : string) (K : Z)
    (fs : gmap string (list example)) (out : list event) :
  (0 ≤ rank)%Z → (0 ≤ rank')%Z → rank ≠ rank' →
  let fs' := files (write_patches rank patches out_dir K fs out).1 in
  (∀ p, (∀ k, p ≠ os_path_join out_dir (record_name rank k)) → fs' !! p = fs !! p) ∧
  ∀ k, fs' !! os_path_join out_dir (record_name rank' k)
       = fs !! os_path_join out_dir (record_name rank' k).
Proof.
  intros Hr Hr' Hne fs'. split.
  - intros p Hp. by apply write_patches_frame.
  - intros k. apply write_patches_frame. intros k' Heq.
    apply os_path_join_inj, record_name_inj2 in Heq as [? _]; done.
Qed.

Lemma worker_writes_only_its_own_records_witness :
  (0 ≤ 1)%Z ∧ (0 ≤ 11)%Z ∧ 1%Z ≠ 11%Z ∧
  let fs' := files (write_patches 1
      (Run [inr (PatchItem "a" (0, 0)%Z (Ndarray3 0 0 0 (λ _ _ _, S754_nan)))] None)
      "/out" 1 {[ "/out/11-0.tfrecord" := [] ]} []).1 in
  (∀ p, (∀ k, p ≠ os_path_join "/out" (record_name 1 k)) →
        fs' !! p = ({[ "/out/11-0.tfrecord" := [] ]} : gmap string (list example)) !! p) ∧
  ∀ k, fs' !! os_path_join "/out" (record_name 11 k)
       = ({[ "/out/11-0.tfrecord" := [] ]} : gmap string (list example))
           !! os_path_join "/out" (record_name 11 k).
Proof.
  split; [lia|]. split; [lia|]. split; [lia|].
  apply (worker_writes_only_its_own_records 1 11
    (Run [inr (PatchItem "a" (0, 0)%Z (Ndarray3 0 0 0 (λ _ _ _, S754_nan)))] None)
    "/out" 1 {[ "/out/11-0.tfrecord" := [] ]} []); lia.
Defined.

Lemma shard_path_ranks (out_dir : string) (rank rank' : Z) (j j' : nat) :
  (0 ≤ rank)%Z → (0 ≤ rank')%Z → rank ≠ rank' →
  shard_path rank out_dir j ≠ shard_path rank' out_dir j'.
Proof.
  intros Hr Hr' Hne Heq. unfold shard_path in Heq.
  apply os_path_join_inj, record_name_inj2 in Heq as [? _]; done.
Qed.

Lemma write_patches_lookup rank (patches : run patch_item) out_dir K fs out p :
  (0 < K)%Z →
  files (write_patches rank patches out_dir K fs out).1 !! p =
  match list_find (λ j, p = shard_path rank out_dir j)
                  (seq 0 (ceil_div (length (yields patches)) K)) with
  | Some (_, j) => Some (shard (yields patches) K j)
  | None => fs !! p
  end.
Proof.
  intros HK.
  destruct (write_patches_spec rank patches out_dir K fs out HK) as (s & -> & _ & Hin & Hout).
  simpl. destruct (list_find _ _) as [[i j]|] eqn:Hfind.
  - apply list_find_Some in Hfind as (Hj & -> & _).
    apply lookup_seq in Hj as [-> Hj]. by apply Hin.
  - apply Hout. intros j Hj ->.
    apply list_find_None in Hfind. rewrite Forall_forall in Hfind.
    apply (Hfind j); [|done]. apply list_elem_of_In, in_seq. lia.
Qed.

(** X18. Two workers of different ranks can run in either order: with
    [patches_per_record] above zero, the files that [write_patches] of rank r
    followed by that of rank r' leave in a directory are the files that the
    other order leaves. *)
Theorem workers_commute
    (r r' : Z) (pa pb : run patch_item) (out_dir : string) (K : Z)
    (fs : gmap string (list example)) (out1 out2 out3 out4 : list event) :
  (0 < K)%Z → (0 ≤ r)%Z → (0 ≤ r')%Z → r ≠ r' →
  files (write_patches r' pb out_dir K
           (files (write_patches r pa out_dir K fs out1).1) out2).1
  = files (write_patches r pa out_dir K
             (files (write_patches r' pb out_dir K fs out3).1) out4).1.
Proof.
  intros HK Hr Hr' Hne. apply map_eq. intros p.
  rewrite !write_patches_lookup by done.
  destruct (list_find (λ j, p = shard_path r' out_dir j) _) as [[i j]|] eqn:Hb;
    destruct (list_find (λ j, p = shard_path r out_dir j) _) as [[i' j']|] eqn:Ha;
    try done.
  apply list_find_Some in Ha as (_ & -> & _).
  apply list_find_Some in Hb as (_ & Heq & _).
  by apply shard_path_ranks in Heq.
Qed.

Lemma workers_commute_witness :
  (0 < 1)%Z ∧ (0 ≤ 1)%Z ∧ (0 ≤ 11)%Z ∧ 1%Z ≠ 11%Z ∧
  files (write_patches 11
           (Run [inr (PatchItem "b" (0, 0)%Z (Ndarray3 0 0 0 (λ _ _ _, S754_nan)))] None)
           "/out" 1
           (files (write_patches 1
              (Run [inr (PatchItem "a" (0, 0)%Z (Ndarray3 0 0 0 (λ _ _ _, S754_nan)))] None)
              "/out" 1 ∅ []).1) []).1
  = files (write_patches 1
             (Run [inr (PatchItem "a" (0, 0)%Z (Ndarray3 0 0 0 (λ _ _ _, S754_nan)))] None)
             "/out" 1
             (files (write_patches 11
                (Run [inr (PatchItem "b" (0, 0)%Z (Ndarray3 0 0 0 (λ _ _ _, S754_nan)))] None)
                "/out" 1 ∅ []).1) []).1.
Proof.
  split; [lia|]. split; [lia|]. split; [lia|]. split; [lia|].
  apply (workers_commute 1 11
    (Run [inr (PatchItem "a" (0, 0)%Z (Ndarray3 0 0 0 (λ _ _ _, S754_nan)))] None)
    (Run [inr (PatchItem "b" (0, 0)%Z (Ndarray3 0 0 0 (λ _ _ _, S754_nan)))] None)
    "/out" 1 ∅ [] [] [] []); lia.
Defined.

(** ** The share of a rank *)

Lemma length_from_lookup {A} (l : list A) (n : nat) :
  (∀ k, is_Some (l !! k) ↔ k < n) → length l = n.
Proof.
  intros H. pose proof (H n) as Hn. pose proof (H (length l)) as Hl.
  rewrite lookup_lt_is_Some in Hn, Hl. lia.
Qed.

Lemma length_assigned `{Ext : Externals} (size rank : Z) (names : list string) :
  (0 ≤ rank < size)%Z →
  Z.of_nat (length (assigned size rank names))
  = ((Z.of_nat (length names) + size - 1 - rank) / size)%Z.
Proof.
  intros Hr. set (L := Z.of_nat (length names)).
  set (n := ((L + size - 1 - rank) / size)%Z).
  assert (0 ≤ n)%Z as Hn0 by (apply Z.div_pos; lia).
  assert (size * n ≤ L + size - 1 - rank < size * (n + 1))%Z as Hn.
  { split; [apply Z.mul_div_le; lia|].
    replace (n + 1)%Z with (Z.succ n) by lia. apply Z.mul_succ_div_gt. lia. }
  rewrite (length_from_lookup _ (Z.to_nat n)); [lia|].
  intros k. rewrite assigned_lookup by lia.
  rewrite <- list_lookup_fmap, lookup_lt_is_Some, length_fmap.
  fold L in Hn. unfold L in *. split; intros; nia.
Qed.

(** X19. The files are shared out evenly: among size workers, rank r gets
    (L + size - 1 - r) // size of the L files, so a worker never gets more
    files than a worker of lower rank, and at most one file fewer. *)
Theorem ranks_get_balanced_shares `{Ext : Externals}
    (size r r' : Z) (names : list string) :
  (0 ≤ r)%Z → (r ≤ r')%Z → (r' < size)%Z →
  ∃ l l', worker_fnames size r names = inr l ∧ worker_fnames size r' names = inr l' ∧
    Z.of_nat (length l) = ((Z.of_nat (length names) + size - 1 - r) / size)%Z ∧
    length l' ≤ length l ≤ length l' + 1.
Proof.
  intros H0 Hle Hlt. exists (assigned size r names), (assigned size r' names).
  split; [apply worker_fnames_ok; lia|]. split; [apply worker_fnames_ok; lia|].
  pose proof (length_assigned size r names ltac:(lia)) as Hl.
  pose proof (length_assigned size r' names ltac:(lia)) as Hl'.
  split; [done|].
  set (L := Z.of_nat (length names)) in *.
  assert ((L + size - 1 - r') / size ≤ (L + size - 1 - r) / size)%Z
    by (apply Z.div_le_mono; lia).
  assert ((L + size - 1 - r) / size ≤ (L + size - 1 - r' + 1 * size) / size)%Z
    by (apply Z.div_le_mono; lia).
  rewrite Z.div_add in * by lia. lia.
Qed.

Lemma ranks_get_balanced_shares_witness :
  (0 ≤ 1)%Z ∧ (1 ≤ 2)%Z ∧ (2 < 3)%Z ∧
  ∃ l l', worker_fnames (Ext := demo) 3 1 ["a"; "b"; "c"; "d"; "e"] = inr l ∧
          worker_fnames (Ext := demo) 3 2 ["a"; "b"; "c"; "d"; "e"] = inr l' ∧
    Z.of_nat (length l) = ((Z.of_nat (length ["a"; "b"; "c"; "d"; "e"]) + 3 - 1 - 1) / 3)%Z ∧
    length l' ≤ length l ≤ length l' + 1.
Proof.
  split; [lia|]. split; [lia|]. split; [lia|].
  apply (ranks_get_balanced_shares (Ext := demo) 3 1 2 ["a"; "b"; "c"; "d"; "e"]); lia.
Defined.

(** ** The main block *)

Section Main.
Context `{Ext : Externals}.

Lemma worker_has_files (size rank : Z) (names : list string) :
  (0 ≤ rank < size)%Z → (rank < Z.of_nat (length names))%Z →
  ∃ t rest, worker_fnames size rank (sorted names) = inr (t :: rest).
Proof.
  intros Hr Hlen.
  rewrite worker_fnames_ok by lia.
  pose proof (assigned_lookup size ltac:(lia) rank (sorted names) 0 Hr) as H0.
  destruct (lookup_lt_is_Some_2 (sorted names) (Z.to_nat rank + 0 * Z.to_nat size))
    as [name Hname].
  { rewrite (Permutation_length (sorted_perm names)). lia. }
  rewrite Hname in H0. simpl in H0.
  destruct (assigned size rank (sorted names)) as [|t rest]; [done|]. by eexists _, _.
Qed.

Lemma main_batch iw size rank FLAGS fs g t rest :
  worker_fnames size rank (sorted (glob_glob (source_glob FLAGS))) = inr (t :: rest) →
  interactive_categories FLAGS = None →
  main iw size rank FLAGS fs g =
  let swaths := gen_swaths rank (t :: rest) (mode FLAGS) (resize FLAGS) in
  let patches := (gen_patches swaths (shape FLAGS) (stride FLAGS) g).1 in
  let g' := (gen_patches swaths (shape FLAGS) (stride FLAGS) g).2 in
  let s := (write_patches rank patches (out_dir FLAGS) (patches_per_record FLAGS) fs []).1 in
  match (write_patches rank patches (out_dir FLAGS) (patches_per_record FLAGS) fs []).2 with
  | Some e => Outcome (files s) (stdout s) (Some e) g'
  | None => Outcome (files s) (stdout s ++ [RankDone rank]) None g'
  end.
Proof.
  intros Hf Hic. unfold main. rewrite Hf, Hic. simpl.
  destruct (gen_patches _ _ _ _) as [patches g']. simpl.
  destruct (write_patches _ _ _ _ _ _) as [s [e|]]; done.
Qed.

End Main.

(** X20. Called with a mode that is neither mod09_tif nor mod02_1km,
    [gen_swaths] raises [ValueError("Invalid reader mode")] when its first
    item is asked for, before it announces or reads any file, whatever the
    files and the resize. The stages after it pass the exception on and do
    nothing else: [gen_patches] yields nothing and leaves the random generator
    as it was, and [write_patches] opens no record and leaves the files as
    they were, also for [patches_per_record] zero. *)
Theorem unknown_mode_raises_before_reading `{Ext : Externals}
    (rank : Z) (fnames : list string) (mode : string) (resize : option spec_float)
    (shape strides : Z * Z) (g : rng) (out_dir : string) (K : Z)
    (fs : gmap string (list example)) (out : list event) :
  mode ≠ "mod09_tif" → mode ≠ "mod02_1km" →
  gen_swaths rank fnames mode resize = Run [] (Some (ValueError "Invalid reader mode")) ∧
  gen_patches (gen_swaths rank fnames mode resize) shape strides g
    = (Run [] (Some (ValueError "Invalid reader mode")), g) ∧
  write_patches rank (gen_patches (gen_swaths rank fnames mode resize) shape strides g).1
                out_dir K fs out
    = (WState fs None out, Some (ValueError "Invalid reader mode")).
Proof.
  intros Hm1 Hm2.
  assert (gen_swaths rank fnames mode resize
          = Run [] (Some (ValueError "Invalid reader mode"))) as ->.
  { unfold gen_swaths. by rewrite reader_invalid. }
  done.
Qed.

Lemma unknown_mode_raises_before_reading_witness :
  "mod09" ≠ "mod09_tif" ∧ "mod09" ≠ "mod02_1km" ∧
  gen_swaths (Ext := demo) 0 ["/data/a.tif"; "/data/flat.tif"] "mod09" None
    = Run [] (Some (ValueError "Invalid reader mode")) ∧
  gen_patches (Ext := demo)
    (gen_swaths (Ext := demo) 0 ["/data/a.tif"; "/data/flat.tif"] "mod09" None)
    (128, 128)%Z (64, 64)%Z 7
    = (Run [] (Some (ValueError "Invalid reader mode")), 7) ∧
  write_patches 0
    (gen_patches (Ext := demo)
       (gen_swaths (Ext := demo) 0 ["/data/a.tif"; "/data/flat.tif"] "mod09" None)
       (128, 128)%Z (64, 64)%Z 7).1 "/out" 0 ∅ []
    = (WState ∅ None [], Some (ValueError "Invalid reader mode")).
Proof.
  split; [done|]. split; [done|].
  apply (unknown_mode_raises_before_reading (Ext := demo) 0 ["/data/a.tif"; "/data/flat.tif"]
           "mod09" None (128, 128)%Z (64, 64)%Z 7 "/out" 0 ∅ []); done.
Defined.

(** X21. A worker that has a file, a known mode, no --resize, a patch shape of
    at least one pixel each way, strides other than zero and
    [patches_per_record] above zero runs to the end in batch mode, whatever
    the files hold and whichever of them cannot be read: nothing is raised,
    the last line printed is that the rank is done, and only records of this
    rank are written. *)
Theorem valid_configuration_runs_to_the_end `{Ext : Externals}
    (iw : run patch_item → list string → string →
          gmap string (list example) → list event → wstate * option exn)
    (size rank : Z) (FLAGS : flags) (fs : gmap string (list example)) (g : rng) :
  (0 ≤ rank < size)%Z →
  (rank < Z.of_nat (length (glob_glob (source_glob FLAGS))))%Z →
  mode FLAGS = "mod09_tif" ∨ mode FLAGS = "mod02_1km" →
  resize FLAGS = None →
  (0 < (shape FLAGS).1)%Z → (0 < (shape FLAGS).2)%Z →
  (stride FLAGS).1 ≠ 0%Z → (stride FLAGS).2 ≠ 0%Z →
  (0 < patches_per_record FLAGS)%Z →
  interactive_categories FLAGS = None →
  let o := main iw size rank FLAGS fs g in
  o_raised o = None ∧
  last (o_stdout o) = Some (RankDone rank) ∧
  ∀ p, (∀ k, p ≠ os_path_join (out_dir FLAGS) (record_name rank k)) →
       o_files o !! p = fs !! p.
Proof.
  intros Hr Hlen Hmode Hres Hpx Hpy Hsx Hsy HK Hic o.
  destruct (worker_has_files size rank _ Hr Hlen) as (t & rest & Hf).
  unfold o. rewrite (main_batch iw size rank FLAGS fs g t rest Hf Hic). cbn zeta.
  set (swaths := gen_swaths rank (t :: rest) (mode FLAGS) (resize FLAGS)).
  assert (raised swaths = None) as Hsw.
  { assert (∃ read, reader (mode FLAGS) = inr read) as [read Hread].
    { destruct Hmode as [-> | ->]; by eexists. }
    unfold swaths. rewrite Hres.
    apply (gen_swaths_spec rank (t :: rest) (mode FLAGS) None read Hread).
    intros t' raw _ _. by eexists. }
  pose proof (gen_patches_raised (shape FLAGS) (stride FLAGS) Hpx Hpy Hsx Hsy swaths g) as Hp.
  rewrite Hsw in Hp.
  set (patches := (gen_patches swaths (shape FLAGS) (stride FLAGS) g).1) in *.
  pose proof (write_patches_frame rank (out_dir FLAGS) (patches_per_record FLAGS)
                patches fs []) as Hframe.
  destruct (write_patches_spec rank patches (out_dir FLAGS) (patches_per_record FLAGS)
              fs [] HK) as (s & Hs & _).
  rewrite Hs in Hframe |- *. rewrite Hp. simpl in *.
  split; [done|]. split; [by rewrite last_snoc|]. exact Hframe.
Qed.

Lemma valid_configuration_runs_to_the_end_witness :
  (0 ≤ 0 < 1)%Z ∧
  (0 < Z.of_nat (length (glob_glob (Externals := demo) (source_glob demo_flags))))%Z ∧
  (mode demo_flags = "mod09_tif" ∨ mode demo_flags = "mod02_1km") ∧
  resize demo_flags = None ∧
  (0 < (shape demo_flags).1)%Z ∧ (0 < (shape demo_flags).2)%Z ∧
  (stride demo_flags).1 ≠ 0%Z ∧ (stride demo_flags).2 ≠ 0%Z ∧
  (0 < patches_per_record demo_flags)%Z ∧
  interactive_categories demo_flags = None ∧
  let o := main (Ext := demo) no_interactive 1 0 demo_flags ∅ 7 in
  o_raised o = None ∧
  last (o_stdout o) = Some (RankDone 0) ∧
  ∀ p, (∀ k, p ≠ os_path_join (out_dir demo_flags) (record_name 0 k)) →
       o_files o !! p = (∅ : gmap string (list example)) !! p.
Proof.
  assert ((0 < Z.of_nat (length (glob_glob (Externals := demo) (source_glob demo_flags))))%Z)
    as Hlen by (vm_compute; reflexivity).
  assert (mode demo_flags = "mod09_tif" ∨ mode demo_flags = "mod02_1km") as Hmode
    by (left; reflexivity).
  split; [lia|]. split; [exact Hlen|]. split; [exact Hmode|]. split; [reflexivity|].
  split; [simpl; lia|]. split; [simpl; lia|]. split; [simpl; lia|]. split; [simpl; lia|].
  split; [simpl; lia|]. split; [reflexivity|].
  apply (valid_configuration_runs_to_the_end (Ext := demo) no_interactive 1 0 demo_flags ∅ 7);
    [lia|exact Hlen|exact Hmode|reflexivity|simpl; lia..|reflexivity].
Defined.
